(** * SwiftDLC launcher ([loader.py]): install-verify-launch engine

    A shallow embedding of the launcher's engine: the guava resolver,
    the archive fetcher and extractor, the required-file verifier and
    the launch procedure, together with the properties of the design
    document that concern them.

    Python values are modelled as follows.
    - [str] is [string]; only the ASCII range is interpreted
      ([str.lower] and the [re.IGNORECASE] flag act on [A-Z]).
    - [int] is [Z]; a tuple of ints is [list Z].
    - An exception is represented by its text ([str(e)]).
    - The filesystem is a tree of directories and regular files; the
      process environment, the network, the zip decoder and the process
      spawner are read-only oracles collected in a [Host] record. *)

From Stdlib Require Import Bool Arith ZArith NArith Lia List.
From Stdlib Require Import Ascii String DecimalString Permutation.
From Stdlib Require Import DecimalPos.
Import ListNotations.

Local Open Scope string_scope.
Local Open Scope list_scope.

(* ================================================================== *)
(** * Outcomes of fallible operations *)
(* ================================================================== *)

(** A Python call either returns or raises; an exception is kept as its
    text.  The text of an operating-system error is reduced to the name
    of its class. *)
Inductive Result (A : Type) : Type :=
| Ok (a : A)
| Raise (e : string).
Arguments Ok {A} a.
Arguments Raise {A} e.

(* ================================================================== *)
(** * Python string primitives *)
(* ================================================================== *)

Module PyStr.

(** [c.lower()] on one ASCII character. *)
Definition lower_ascii (c : ascii) : ascii :=
  let n := nat_of_ascii c in
  if (65 <=? n)%nat && (n <=? 90)%nat then ascii_of_nat (n + 32) else c.

(** [s.lower()]. *)
Fixpoint lower (s : string) : string :=
  match s with
  | EmptyString => EmptyString
  | String c r => String (lower_ascii c) (lower r)
  end.

(** [s.startswith(p)]. *)
Definition startswith (s p : string) : bool := String.prefix p s.

(** [s[n:]]. *)
Fixpoint drop (n : nat) (s : string) : string :=
  match n, s with
  | O, _ => s
  | S _, EmptyString => EmptyString
  | S m, String _ r => drop m r
  end.

(** [s.endswith(p)]. *)
Definition endswith (s p : string) : bool :=
  (String.length p <=? String.length s)%nat
  && String.eqb (drop (String.length s - String.length p) s) p.

(** [s.endswith((p1, ..., pn))]: any of the suffixes. *)
Definition endswith_any (s : string) (ps : list string) : bool :=
  existsb (endswith s) ps.

(** [p in s] for strings. *)
Fixpoint contains (p s : string) : bool :=
  String.prefix p s
  || match s with
     | EmptyString => false
     | String _ r => contains p r
     end.

Definition is_digit (c : ascii) : bool :=
  let n := nat_of_ascii c in (48 <=? n)%nat && (n <=? 57)%nat.

(** [s.split(c)] for a one-character separator. *)
Fixpoint split (c : ascii) (s : string) : list string :=
  match s with
  | EmptyString => [EmptyString]
  | String a r =>
      if Ascii.eqb a c then EmptyString :: split c r
      else match split c r with
           | [] => [String a EmptyString]
           | w :: ws => String a w :: ws
           end
  end.

(** [s.replace(a, b)] for one-character [a] and [b]. *)
Fixpoint replace (a b : ascii) (s : string) : string :=
  match s with
  | EmptyString => EmptyString
  | String c r => String (if Ascii.eqb c a then b else c) (replace a b r)
  end.

(** [s.lstrip(c)] for a one-character set. *)
Fixpoint lstrip (c : ascii) (s : string) : string :=
  match s with
  | String a r => if Ascii.eqb a c then lstrip c r else s
  | EmptyString => EmptyString
  end.

(** [sep.join(l)]. *)
Fixpoint join (sep : string) (l : list string) : string :=
  match l with
  | [] => EmptyString
  | [x] => x
  | x :: r => x ++ sep ++ join sep r
  end.

(** Value of a string of decimal digits, most significant first. *)
Fixpoint digits_value (acc : Z) (s : string) : option Z :=
  match s with
  | EmptyString => Some acc
  | String c r =>
      if is_digit c
      then digits_value (10 * acc + Z.of_nat (nat_of_ascii c - 48)) r
      else None
  end.

(** [str(n)] for an int. *)
Definition str_of_Z (n : Z) : string := NilZero.string_of_int (Z.to_int n).

Definition str_of_nat (n : nat) : string := str_of_Z (Z.of_nat n).

(** ** [repr] of a string

    Characters are code points below 256.  The string is put between
    single quotes, or between double quotes when it holds a single
    quote and no double quote; the quote in use and the backslash are
    escaped, and so is what does not print. *)
Definition squote : ascii := ascii_of_nat 39.
Definition dquote : ascii := ascii_of_nat 34.
Definition backslash : ascii := ascii_of_nat 92.

Fixpoint has_char (c : ascii) (s : string) : bool :=
  match s with
  | EmptyString => false
  | String a r => Ascii.eqb a c || has_char c r
  end.

(** [c.isprintable()]. *)
Definition printable (c : ascii) : bool :=
  let n := nat_of_ascii c in
  ((32 <=? n)%nat && (n <? 127)%nat)
  || ((161 <=? n)%nat && negb (n =? 173)%nat).

Definition hex_digit (n : nat) : ascii :=
  ascii_of_nat (if (n <? 10)%nat then 48 + n else 87 + n).

Definition repr_char (quote c : ascii) : string :=
  let n := nat_of_ascii c in
  if Ascii.eqb c quote || Ascii.eqb c backslash
  then String backslash (String c EmptyString)
  else if (n =? 9)%nat then String backslash "t"
  else if (n =? 10)%nat then String backslash "n"
  else if (n =? 13)%nat then String backslash "r"
  else if printable c then String c EmptyString
  else String backslash
         (String "x" (String (hex_digit (n / 16))
                             (String (hex_digit (n mod 16)) EmptyString))).

Fixpoint repr_body (quote : ascii) (s : string) : string :=
  match s with
  | EmptyString => EmptyString
  | String c r => repr_char quote c ++ repr_body quote r
  end.

Definition repr_str (s : string) : string :=
  let quote := if has_char squote s && negb (has_char dquote s)
               then dquote else squote in
  String quote (repr_body quote s ++ String quote EmptyString).

(** ** [int(s)] for a string

    Blanks around the number are skipped, a sign may come first, and
    the digits may be separated by single underscores.  A number of
    more than [int_max_str_digits] digits is refused (the default of
    [sys.get_int_max_str_digits()], which the launcher does not
    change).  Both failures are a [ValueError]. *)
Definition is_space (c : ascii) : bool :=
  let n := nat_of_ascii c in
  ((9 <=? n)%nat && (n <=? 13)%nat) || (n =? 32)%nat
  || (n =? 133)%nat || (n =? 160)%nat.

Fixpoint lstrip_spaces (s : string) : string :=
  match s with
  | String c r => if is_space c then lstrip_spaces r else s
  | EmptyString => EmptyString
  end.

Fixpoint all_spaces (s : string) : bool :=
  match s with
  | EmptyString => true
  | String c r => is_space c && all_spaces r
  end.

(** The digits at the start of [s], without the underscores between
    them, and what follows them; [prev] tells that the character just
    before was an underscore.  Two underscores in a row and an
    underscore after the last digit are errors. *)
Fixpoint scan_int (prev : bool) (s : string) : option (string * string) :=
  match s with
  | EmptyString => if prev then None else Some (EmptyString, EmptyString)
  | String c r =>
      if is_digit c then
        match scan_int false r with
        | Some (digits, rest) => Some (String c digits, rest)
        | None => None
        end
      else if Ascii.eqb c "_" then (if prev then None else scan_int true r)
      else if prev then None else Some (EmptyString, s)
  end.

Definition int_max_str_digits : nat := 4300.

Definition invalid_literal (s : string) : string :=
  "invalid literal for int() with base 10: " ++ substring 0 200 (repr_str s).

(** The wording of Python 3.11. *)
Definition exceeds_limit (digits : nat) : string :=
  "Exceeds the limit (" ++ str_of_nat int_max_str_digits
    ++ " digits) for integer string conversion: value has "
    ++ str_of_nat digits
    ++ " digits; use sys.set_int_max_str_digits() to increase the limit".

(** An optional sign before the number. *)
Definition split_sign (body : string) : bool * string :=
  match body with
  | String c r =>
      if Ascii.eqb c "+" then (false, r)
      else if Ascii.eqb c "-" then (true, r)
      else (false, body)
  | EmptyString => (false, body)
  end.

Definition starts_with_underscore (s : string) : bool :=
  match s with
  | String c _ => Ascii.eqb c "_"
  | EmptyString => false
  end.

Definition has_digits (s : string) : bool :=
  match s with
  | String _ _ => true
  | EmptyString => false
  end.

Definition py_int (s : string) : Result Z :=
  let '(negative, body) := split_sign (lstrip_spaces s) in
  if starts_with_underscore body then Raise (invalid_literal s)
  else
    match scan_int false body with
    | None => Raise (invalid_literal s)
    | Some (digits, rest) =>
        if (int_max_str_digits <? String.length digits)%nat
        then Raise (exceeds_limit (String.length digits))
        else if has_digits digits && all_spaces rest then
          match digits_value 0 digits with
          | Some n => Ok (if negative then (- n)%Z else n)
          | None => Raise (invalid_literal s)
          end
        else Raise (invalid_literal s)
    end.

End PyStr.

(* ================================================================== *)
(** * Python floats, as far as the progress reports need them *)
(* ================================================================== *)

(** [int(a / b * 100)] for ints [a] and [b]: the quotient of two ints
    is the float nearest to it, the product with 100 is rounded again,
    and [int] cuts off the fraction.  A float is a whole number of at
    most 53 bits times a power of two; overflow, which counts of bytes
    and of files do not reach, is left out. *)
Module PyFloat.

Local Open Scope Z_scope.

(** The whole number nearest to [num / den], an even one when two are
    as near; [num >= 0] and [den > 0]. *)
Definition round_even (num den : Z) : Z :=
  let q := num / den in
  let r := num mod den in
  if 2 * r <? den then q
  else if den <? 2 * r then q + 1
  else if Z.even q then q else q + 1.

(** [num / den] divided by [2 ^ e], as a fraction. *)
Definition scaled (num den e : Z) : Z * Z :=
  if 0 <=? e then (num, den * 2 ^ e) else (num * 2 ^ (- e), den).

(** The float nearest to [num / den] for [num > 0] and [den > 0]: the
    pair [(m, e)] stands for [m * 2 ^ e]. *)
Definition nearest (num den : Z) : Z * Z :=
  let e0 := Z.log2 num - Z.log2 den - 53 in
  let '(n0, d0) := scaled num den e0 in
  let e1 := if n0 / d0 <? 2 ^ 53 then e0 else e0 + 1 in
  let e := Z.max e1 (-1074) in
  let '(n, d) := scaled num den e in
  (round_even n d, e).

(** [int(x)] for the float [m * 2 ^ e], not negative. *)
Definition truncate (x : Z * Z) : Z :=
  let '(m, e) := x in
  if 0 <=? e then m * 2 ^ e else m / 2 ^ (- e).

Definition percent_of (a b : Z) : Z :=
  if (a =? 0) || (b =? 0) then 0
  else
    let '(m, e) := nearest (Z.abs a) (Z.abs b) in
    let '(n, d) := scaled (100 * m) 1 (- e) in
    let p := if m =? 0 then 0 else truncate (nearest n d) in
    if Bool.eqb (a <? 0) (b <? 0) then p else - p.

End PyFloat.

(* ================================================================== *)
(** * Python tuple ordering and [sorted] *)
(* ================================================================== *)

Module PyTuple.

(** [a < b] on tuples of ints: the first differing component decides;
    when one tuple is a prefix of the other the shorter one is smaller. *)
Fixpoint lt (a b : list Z) : bool :=
  match a, b with
  | [], [] => false
  | [], _ :: _ => true
  | _ :: _, [] => false
  | x :: a', y :: b' => if (x =? y)%Z then lt a' b' else (x <? y)%Z
  end.

(** [a == b] on tuples of ints. *)
Fixpoint eqb (a b : list Z) : bool :=
  match a, b with
  | [], [] => true
  | x :: a', y :: b' => (x =? y)%Z && eqb a' b'
  | _, _ => false
  end.

(** [a > b]. *)
Definition gt (a b : list Z) : bool := lt b a.

Section Sorted.
Context {A : Type} (key : A -> list Z).

(** Insertion that keeps an element before the later ones of equal key. *)
Fixpoint insert (x : A) (l : list A) : list A :=
  match l with
  | [] => [x]
  | y :: r => if lt (key y) (key x) then y :: insert x r else x :: y :: r
  end.

(** Stable ascending sort on [key], using only [<] as [list.sort] does. *)
Fixpoint stable_sort (l : list A) : list A :=
  match l with
  | [] => []
  | x :: r => insert x (stable_sort r)
  end.

(** [sorted(l, key=key, reverse=reverse)].  With [reverse] the list is
    reversed, sorted stably and reversed again, so that elements of
    equal key keep their original order. *)
Definition sorted (reverse : bool) (l : list A) : list A :=
  if reverse then rev (stable_sort (rev l)) else stable_sort l.
End Sorted.

End PyTuple.

(* ================================================================== *)
(** * Helper: guava version parsing and filtering *)
(* ================================================================== *)

Module Guava.

Import PyStr.

(** Longest prefix of [s] made of runs of digits separated by single
    dots, for [s] starting with a digit. *)
Fixpoint scan_version (s : string) : string :=
  match s with
  | EmptyString => EmptyString
  | String c r =>
      if is_digit c then String c (scan_version r)
      else if Ascii.eqb c "."
              && match r with String d _ => is_digit d | EmptyString => false end
           then String c (scan_version r)
           else EmptyString
  end.

(** [re.search] of the launcher's pattern, the text guava- followed by
    a dotted run of digits, with [re.IGNORECASE]: group 1 of the
    leftmost match, if any. *)
Fixpoint search_guava_version (name : string) : option string :=
  match name with
  | EmptyString => None
  | String _ r =>
      if startswith (lower name) "guava-"
         && match drop 6 name with String d _ => is_digit d | EmptyString => false end
      then Some (scan_version (drop 6 name))
      else search_guava_version r
  end.

(** [_extract_version_tuple_from_name]. *)
Definition _extract_version_tuple_from_name (name : string) : list Z :=
  match search_guava_version name with
  | None => [0%Z]
  | Some ver =>
      map (fun p => match py_int p with Ok n => n | Raise _ => 0%Z end)
          (split "." ver)
  end.

Section Filter.
(** [os.path.basename]. *)
Variable basename : string -> string.

Definition is_guava (j : string) : bool :=
  contains "guava-" (lower (basename j)).

Definition version_key (p : string) : list Z :=
  _extract_version_tuple_from_name (basename p).

(** The text of the [logger.info] line of [_filter_guava_keep_latest]. *)
Definition guava_log_line (guavas : list string) (latest : string) : string :=
  "Guava jars found: " ++ str_of_nat (List.length guavas)
    ++ " files; using: " ++ basename latest.

(** [_filter_guava_keep_latest], the returned list. *)
Definition _filter_guava_keep_latest (jars : list string) : list string :=
  let guavas := filter is_guava jars in
  match guavas with
  | [] => jars
  | g0 :: _ =>
      let sorted_guavas := PyTuple.sorted version_key true guavas in
      let latest := match sorted_guavas with s0 :: _ => s0 | [] => g0 end in
      filter (fun j => negb (is_guava j)) jars ++ [latest]
  end.

(** The record [_filter_guava_keep_latest] logs, if it logs one. *)
Definition _filter_guava_log (jars : list string) : option string :=
  let guavas := filter is_guava jars in
  match guavas with
  | [] => None
  | g0 :: _ =>
      let sorted_guavas := PyTuple.sorted version_key true guavas in
      let latest := match sorted_guavas with s0 :: _ => s0 | [] => g0 end in
      Some (guava_log_line guavas latest)
  end.
End Filter.

End Guava.

(* ================================================================== *)
(** * Paths: [os.path] *)
(* ================================================================== *)

(** [posixpath] when [win] is [false]; when it is [true], [ntpath] on
    paths that are relative or carry a one-letter drive (UNC shares are
    not interpreted). *)
Module OsPath.

Import PyStr.

Section Platform.
Variable win : bool.

(** [os.sep] and [os.pathsep]. *)
Definition sep : string := if win then "\" else "/".
Definition sep_char : ascii := if win then "\"%char else "/"%char.
Definition pathsep : string := if win then ";" else ":".

Definition is_sep (c : ascii) : bool :=
  if win then Ascii.eqb c "\" || Ascii.eqb c "/" else Ascii.eqb c "/".

Definition nonempty (s : string) : bool :=
  match s with EmptyString => false | _ => true end.

Definition starts_with_sep (s : string) : bool :=
  match s with String c _ => is_sep c | EmptyString => false end.

Fixpoint ends_with_sep (s : string) : bool :=
  match s with
  | EmptyString => false
  | String c EmptyString => is_sep c
  | String _ r => ends_with_sep r
  end.

Fixpoint has_sep (s : string) : bool :=
  match s with
  | EmptyString => false
  | String c r => is_sep c || has_sep r
  end.

Fixpoint all_seps (s : string) : bool :=
  match s with
  | EmptyString => true
  | String c r => is_sep c && all_seps r
  end.

Fixpoint rstrip_seps (s : string) : string :=
  match s with
  | EmptyString => EmptyString
  | String c r =>
      match rstrip_seps r with
      | EmptyString => if is_sep c then EmptyString else String c EmptyString
      | r' => String c r'
      end
  end.

(** [os.path.splitdrive]. *)
Definition splitdrive (p : string) : string * string :=
  if win then
    match p with
    | String d (String ":" r) => (String d (String ":" EmptyString), r)
    | _ => (EmptyString, p)
    end
  else (EmptyString, p).

(** [os.path.join(a, b)]. *)
Definition path_join (a b : string) : string :=
  let '(da, ra) := splitdrive a in
  let '(db, rb) := splitdrive b in
  if starts_with_sep rb
  then (if nonempty db || negb (nonempty da) then db else da) ++ rb
  else if nonempty db && negb (String.eqb (lower db) (lower da))
  then b
  else (if nonempty db then db else da)
         ++ ra
         ++ (if nonempty ra && negb (ends_with_sep ra) then sep else EmptyString)
         ++ rb.

(** [os.path.join(a, *ps)]. *)
Definition join_all (a : string) (ps : list string) : string :=
  fold_left path_join ps a.

(** One component of [normpath], the components kept so far being
    [acc], last one first. *)
Definition norm_step (rooted : bool) (acc : list string) (comp : string)
  : list string :=
  if String.eqb comp "" || String.eqb comp "." then acc
  else if negb (String.eqb comp "..") then comp :: acc
  else match acc with
       | [] => if rooted then acc else comp :: acc
       | top :: rest => if String.eqb top ".." then comp :: acc else rest
       end.

(** [os.path.normpath]. *)
Definition normpath (p : string) : string :=
  let p1 := if win then replace "/" "\" p else p in
  let '(drive, rest) := splitdrive p1 in
  let root :=
    if win then (if starts_with_sep rest then sep else EmptyString)
    else if startswith rest "//" && negb (startswith rest "///") then "//"
    else if startswith rest "/" then "/" else EmptyString in
  let comps := fold_left (norm_step (nonempty root)) (split sep_char rest) [] in
  match drive ++ root ++ join sep (rev comps) with
  | EmptyString => "."
  | r => r
  end.

(** [os.path.abspath], for the working directory [cwd]. *)
Definition os_abspath (cwd p : string) : string := normpath (path_join cwd p).

Fixpoint tail_after_sep (s : string) : string :=
  match s with
  | EmptyString => EmptyString
  | String c r =>
      if has_sep r then tail_after_sep r
      else if is_sep c then r else s
  end.

Fixpoint head_to_last_sep (s : string) : string :=
  match s with
  | EmptyString => EmptyString
  | String c r =>
      if has_sep r || is_sep c then String c (head_to_last_sep r)
      else EmptyString
  end.

(** [os.path.basename]. *)
Definition basename (p : string) : string :=
  tail_after_sep (snd (splitdrive p)).

(** [os.path.dirname]. *)
Definition dirname (p : string) : string :=
  let '(d, rest) := splitdrive p in
  let head := head_to_last_sep rest in
  d ++ (if all_seps head then head else rstrip_seps head).

(** ** How the operating system reads a path

    The long-path prefix is dropped, the path is cut at the
    separators, empty and [.] components are skipped and [..] steps
    back.  A drive is the first component; relative paths start at
    the root of the tree. *)
Definition strip_long_prefix (p : string) : string :=
  if win then
    if startswith p "\\?\UNC\" then "\\" ++ drop 8 p
    else if startswith p "\\?\" then drop 4 p
    else p
  else p.

Fixpoint split_seps (s : string) : list string :=
  match s with
  | EmptyString => [EmptyString]
  | String a r =>
      if is_sep a then EmptyString :: split_seps r
      else match split_seps r with
           | [] => [String a EmptyString]
           | w :: ws => String a w :: ws
           end
  end.

Definition resolve_step (acc : list string) (comp : string) : list string :=
  if String.eqb comp "" || String.eqb comp "." then acc
  else if String.eqb comp ".." then tl acc
  else comp :: acc.

Definition components (p : string) : list string :=
  rev (fold_left resolve_step (split_seps (strip_long_prefix p)) []).

End Platform.

End OsPath.

(* ================================================================== *)
(** * The filesystem *)
(* ================================================================== *)

(** A tree of directories and regular files.  A directory lists its
    entries in the order the operating system enumerates them; there
    are no links.  A read-only file cannot be opened for writing.

    Names are compared exactly: what is on disk is found under the
    spelling it has on disk.  (Windows also finds it under another
    capitalisation; a path is then taken to be spelled as on disk.)
    [..] is resolved in the text of the path, as Windows does. *)
Module FS.

#[warnings="-register-all"]
Inductive node : Type :=
| File (data : string) (readonly : bool)
| Dir (entries : list (string * node)).

Definition entries_t := list (string * node).

Fixpoint assoc (name : string) (es : entries_t) : option node :=
  match es with
  | [] => None
  | (k, n) :: r => if String.eqb k name then Some n else assoc name r
  end.

(** Replace the entry called [name], or add it after the others. *)
Fixpoint set_entry (name : string) (n : node) (es : entries_t) : entries_t :=
  match es with
  | [] => [(name, n)]
  | (k, m) :: r =>
      if String.eqb k name then (k, n) :: r else (k, m) :: set_entry name n r
  end.

Fixpoint lookup (n : node) (path : list string) : option node :=
  match path with
  | [] => Some n
  | c :: rest =>
      match n with
      | File _ _ => None
      | Dir es =>
          match assoc c es with
          | Some m => lookup m rest
          | None => None
          end
      end
  end.

Definition is_dir (n : node) : bool :=
  match n with Dir _ => true | File _ _ => false end.

(** Names of the sub-directories and of the regular files of a
    directory, in enumeration order. *)
Definition dir_names (es : entries_t) : list string :=
  map fst (filter (fun e => is_dir (snd e)) es).
Definition file_names (es : entries_t) : list string :=
  map fst (filter (fun e => negb (is_dir (snd e))) es).

(** Create or truncate the regular file at [path] and give it the
    content [data]. *)
Fixpoint write (n : node) (path : list string) (data : string) : Result node :=
  match path with
  | [] => Raise "IsADirectoryError"
  | c :: rest =>
      match n with
      | File _ _ => Raise "NotADirectoryError"
      | Dir es =>
          match rest with
          | [] =>
              match assoc c es with
              | Some (Dir _) => Raise "IsADirectoryError"
              | Some (File _ true) => Raise "PermissionError"
              | Some (File _ false) | None =>
                  Ok (Dir (set_entry c (File data false) es))
              end
          | _ :: _ =>
              match assoc c es with
              | None => Raise "FileNotFoundError"
              | Some m =>
                  match write m rest data with
                  | Ok m' => Ok (Dir (set_entry c m' es))
                  | Raise e => Raise e
                  end
              end
          end
      end
  end.

(** [os.makedirs(path, exist_ok=True)]: the missing directories are
    made one after the other, from the top.  The first that cannot be
    made ends the call, and those made before it stay.  A new directory
    needs a name the filesystem accepts ([ok]). *)
Fixpoint makedirs (ok : string -> bool) (n : node) (path : list string)
  : node * Result unit :=
  match path, n with
  | [], Dir _ => (n, Ok tt)
  | [], File _ _ => (n, Raise "FileExistsError")
  | _ :: _, File _ _ => (n, Raise "NotADirectoryError")
  | c :: rest, Dir es =>
      match assoc c es with
      | Some m =>
          let '(m', r) := makedirs ok m rest in
          (Dir (set_entry c m' es), r)
      | None =>
          if ok c then
            let '(m', r) := makedirs ok (Dir []) rest in
            (Dir (set_entry c m' es), r)
          else (n, Raise "OSError")
      end
  end.

Definition read (n : node) (path : list string) : Result string :=
  match lookup n path with
  | Some (File data _) => Ok data
  | Some (Dir _) => Raise "IsADirectoryError"
  | None => Raise "FileNotFoundError"
  end.

(** [os.walk(top)] from the directory [n] named [top]: one triple
    (directory path, sub-directory names, file names) per directory,
    a directory before its sub-directories.  [join] is [os.path.join]. *)
Section Walk.
Variable join : string -> string -> string.

Fixpoint walk (top : string) (n : node) {struct n}
  : list (string * list string * list string) :=
  match n with
  | File _ _ => []
  | Dir es =>
      (top, dir_names es, file_names es)
        :: (fix sub (l : entries_t) : list (string * list string * list string) :=
              match l with
              | [] => []
              | (name, m) :: r => walk (join top name) m ++ sub r
              end) es
  end.

Definition walk_entries (top : string) (l : entries_t)
  : list (string * list string * list string) :=
  flat_map (fun e => walk (join top (fst e)) (snd e)) l.
End Walk.

(** ** Removing

    A directory is emptied in the order of its entries.  On Windows a
    read-only file resists removal ([win]); elsewhere removal depends on
    the directory alone, which can always be changed here. *)

(** Drop the entry called [name]. *)
Definition remove_entry (name : string) (es : entries_t) : entries_t :=
  filter (fun e => negb (String.eqb (fst e) name)) es.

(** How the removal of a tree ends: nothing is left, or the removal
    stopped at the first entry that resisted, with what is left of the
    tree and the error. *)
Inductive removal : Type :=
| Removed
| Stuck (rest : node) (e : string).

(** The tree walk of [shutil.rmtree]: the entries of a directory one
    after the other, a sub-directory emptied and removed before the next
    entry is looked at; the first failure ends the walk. *)
Fixpoint remove_node (win : bool) (n : node) : removal :=
  match n with
  | File _ ro => if win && ro then Stuck n "PermissionError" else Removed
  | Dir es =>
      match (fix clear (l : entries_t) : entries_t * option string :=
               match l with
               | [] => ([], None)
               | (name, m) :: r =>
                   match remove_node win m with
                   | Removed => clear r
                   | Stuck m' e => ((name, m') :: r, Some e)
                   end
               end) es with
      | (_, None) => Removed
      | (rest, Some e) => Stuck (Dir rest) e
      end
  end.

(** [shutil.rmtree(path)]: the tree after the call, and how the call
    ended.  A failure leaves what was not yet removed.  The root of the
    tree can be emptied but not removed. *)
Fixpoint rmtree (win : bool) (n : node) (path : list string)
  : node * Result unit :=
  match path with
  | [] =>
      match n with
      | File _ _ => (n, Raise "NotADirectoryError")
      | Dir _ =>
          match remove_node win n with
          | Removed => (Dir [], Raise "OSError")
          | Stuck n' e => (n', Raise e)
          end
      end
  | c :: rest =>
      match n with
      | File _ _ => (n, Raise "NotADirectoryError")
      | Dir es =>
          match assoc c es, rest with
          | None, _ => (n, Raise "FileNotFoundError")
          | Some (Dir sub), [] =>
              match remove_node win (Dir sub) with
              | Removed => (Dir (remove_entry c es), Ok tt)
              | Stuck m' e => (Dir (set_entry c m' es), Raise e)
              end
          | Some m, _ =>
              let '(m', r) := rmtree win m rest in
              (Dir (set_entry c m' es), r)
          end
      end
  end.

(** [os.remove(path)]. *)
Fixpoint unlink (win : bool) (n : node) (path : list string) : Result node :=
  match path with
  | [] => Raise (if win then "PermissionError" else "IsADirectoryError")
  | c :: rest =>
      match n with
      | File _ _ => Raise "NotADirectoryError"
      | Dir es =>
          match assoc c es, rest with
          | None, _ => Raise "FileNotFoundError"
          | Some (File _ ro), [] =>
              if win && ro then Raise "PermissionError"
              else Ok (Dir (remove_entry c es))
          | Some (Dir _), [] =>
              Raise (if win then "PermissionError" else "IsADirectoryError")
          | Some m, _ =>
              match unlink win m rest with
              | Ok m' => Ok (Dir (set_entry c m' es))
              | Raise e => Raise e
              end
          end
      end
  end.


End FS.

(* ================================================================== *)
(** * What the launcher does: events, hosts and states *)
(* ================================================================== *)

Inductive level : Type := DEBUG | INFO | WARNING | ERROR.

(** What a run leaves behind besides the filesystem: the records handed
    to [logger], the signals emitted to the window, and the calls of
    [subprocess.Popen]. *)
Inductive event : Type :=
| Log (lvl : level) (msg : string)
| Status (text : string)
| Progress (value : Z)
| Finished (ok : bool) (msg : string)
| Spawn (cmd : list string).

(** The answer of [requests.get(url, stream=True)]: the call raises, or
    gives a response whose body arrives in chunks and may break off. *)
Record Response : Type := {
  status_error : option string;     (* what [raise_for_status] raises *)
  content_length : option string;   (* the header, when present *)
  body : list string;               (* the chunks of [iter_content] *)
  body_error : option string        (* raised after the last chunk *)
}.

(** An archive member: its name, what opening it raises, the bytes that
    can be read from it, and what the read that follows them raises (a
    damaged stream, a wrong checksum). *)
Record ZipInfo : Type := {
  filename : string;
  open_error : option string;   (* what [z.open(member)] raises *)
  payload : string;             (* the bytes [copyfileobj] reads *)
  read_error : option string    (* raised by the read after them *)
}.

(** A terminated child process. *)
Record Completed : Type := {
  returncode : Z;
  stdout : string;
  stderr : string
}.

(** The surroundings of the launcher that it only reads. *)
Record Host : Type := {
  is_windows : bool;                              (* [is_windows()] *)
  getcwd : string;
  environ : string -> option string;              (* [os.environ.get] *)
  which : string -> option string;                (* [shutil.which] *)
  requests_get : string -> Result Response;
  zip_decode : string -> Result (list ZipInfo);   (* [ZipFile] on a file's bytes *)
  popen : list string -> Result Completed;        (* [Popen] and [communicate] *)
  percent : Z -> Z -> Z;                          (* [int(a / b * 100)], in floating point *)
  repr_list : list string -> string;              (* [repr] of a list of [str] *)
  name_ok : string -> bool                        (* the names a new entry may have *)
}.

Record state : Type := {
  fs : FS.node;
  trace : list event       (* oldest first *)
}.

(** ** Computations that read the host, change the state and may raise *)

Definition M (A : Type) : Type := state -> Result A * state.

Definition ret {A} (a : A) : M A := fun st => (Ok a, st).

Definition bind {A B} (m : M A) (k : A -> M B) : M B :=
  fun st =>
    match m st with
    | (Ok a, st') => k a st'
    | (Raise e, st') => (Raise e, st')
    end.

Definition raise {A} (e : string) : M A := fun st => (Raise e, st).

(** [try: m except Exception as e: h e]. *)
Definition catch {A} (m : M A) (h : string -> M A) : M A :=
  fun st =>
    match m st with
    | (Ok a, st') => (Ok a, st')
    | (Raise e, st') => h e st'
    end.

Notation "x <- m ;; k" := (bind m (fun x => k))
  (at level 61, m at next level, right associativity).
Notation "m ;;; k" := (bind m (fun _ => k))
  (at level 61, right associativity).

Definition emit (e : event) : M unit :=
  fun st => (Ok tt, {| fs := fs st; trace := trace st ++ [e] |}).

Definition logger (lvl : level) (msg : string) : M unit := emit (Log lvl msg).

(** A callback argument: absent, or the signal it emits. *)
Definition call {X} (cb : option (X -> event)) (x : X) : M unit :=
  match cb with
  | Some f => emit (f x)
  | None => ret tt
  end.

(** [for x in l: body x]. *)
Fixpoint for_each {X} (l : list X) (body : X -> M unit) : M unit :=
  match l with
  | [] => ret tt
  | x :: r => body x ;;; for_each r body
  end.

(** Reading a local variable: unbound until it has been assigned.  The
    text of the [UnboundLocalError] is that of Python 3.11 and later;
    earlier versions word it differently. *)
Definition unbound_local_error (name : string) : string :=
  "cannot access local variable '" ++ name
    ++ "' where it is not associated with a value".

Definition read_local {X} (name : string) (v : option X) : M X :=
  match v with
  | Some x => ret x
  | None => raise (unbound_local_error name)
  end.

(** Truth value of a string and the [or] of two optional strings. *)
Definition truthy (s : option string) : bool :=
  match s with
  | Some (String _ _) => true
  | _ => false
  end.

Definition py_or (a b : option string) : option string :=
  if truthy a then a else b.

Definition nl : string := String (ascii_of_nat 10) EmptyString.

(** [l.append(x)]. *)
Definition push {X} (l : list X) (x : X) : list X := l ++ [x].

(* ================================================================== *)
(** * The launcher *)
(* ================================================================== *)

Module Loader.

Import PyStr.
Local Open Scope string_scope.

Section WithHost.
Variable H : Host.

Let win : bool := is_windows H.

(** ** The operating system, as the launcher calls it *)

Definition os_path_join (a : string) (ps : list string) : string :=
  OsPath.join_all win a ps.

(** What a path leads to.  The empty path leads nowhere. *)
Definition located (p : string) (st : state) : option FS.node :=
  match p with
  | EmptyString => None
  | _ => FS.lookup (fs st) (OsPath.components win p)
  end.

Definition os_path_exists (p : string) : M bool :=
  fun st => (Ok (match located p st with Some _ => true | None => false end), st).

Definition os_path_isdir (p : string) : M bool :=
  fun st => (Ok (match located p st with
                 | Some (FS.Dir _) => true
                 | _ => false
                 end), st).

Definition os_listdir (p : string) : M (list string) :=
  fun st => match located p st with
            | Some (FS.Dir es) => (Ok (map fst es), st)
            | Some (FS.File _ _) => (Raise "NotADirectoryError", st)
            | None => (Raise "FileNotFoundError", st)
            end.

(** [os.walk(top)]; a [top] that cannot be listed yields nothing. *)
Definition os_walk (top : string) : M (list (string * list string * list string)) :=
  fun st => match located top st with
            | Some n => (Ok (FS.walk (OsPath.path_join win) top n), st)
            | None => (Ok [], st)
            end.

(** [os.makedirs(p, exist_ok=True)]. *)
Definition os_makedirs (p : string) : M unit :=
  fun st =>
    match p with
    | EmptyString => (Raise "FileNotFoundError", st)
    | _ =>
        let '(n, r) := FS.makedirs (name_ok H) (fs st) (OsPath.components win p) in
        (r, {| fs := n; trace := trace st |})
    end.

(** Whether [p] can be opened for writing as far as its name goes: it
    is there already, or its last component is a name the filesystem
    accepts. *)
Definition creatable (p : string) (st : state) : bool :=
  match located p st with
  | Some _ => true
  | None => name_ok H (last (OsPath.components win p) EmptyString)
  end.

(** [open(p, "w")] or [open(p, "wb")]: the file is created or
    emptied.  A text file keeps the text written to it. *)
Definition open_write (p : string) : M unit :=
  fun st =>
    match p with
    | EmptyString => (Raise "FileNotFoundError", st)
    | _ =>
        if creatable p st then
          match FS.write (fs st) (OsPath.components win p) EmptyString with
          | Ok n => (Ok tt, {| fs := n; trace := trace st |})
          | Raise e => (Raise e, st)
          end
        else (Raise "OSError", st)
    end.

(** [f.write(data)] on the file opened at [p]. *)
Definition file_write (p : string) (data : string) : M unit :=
  fun st =>
    match FS.read (fs st) (OsPath.components win p) with
    | Ok old =>
        match FS.write (fs st) (OsPath.components win p) (old ++ data) with
        | Ok n => (Ok tt, {| fs := n; trace := trace st |})
        | Raise e => (Raise e, st)
        end
    | Raise e => (Raise e, st)
    end.

(** [open(p, "r").read()]. *)
Definition file_read (p : string) : M string :=
  fun st =>
    match p with
    | EmptyString => (Raise "FileNotFoundError", st)
    | _ => (FS.read (fs st) (OsPath.components win p), st)
    end.

(** ** Configuration *)

Definition CLIENT_DIR : string := "C:\penjs".
Definition CLIENT_ZIP_URL : string :=
  "https://dl.dropboxusercontent.com/scl/fi/6fmf6u1dm1gyst0cnadxq/SwiftDLC.zip?rlkey=cs2yi2lti95kw2ukbwzwin3t1".
Definition CLIENT_ZIP_PATH : string := "C:\penjs\SwiftDlc.zip".
Definition GAME_DIR : string := "C:\penjs".
Definition GAME_VERSION : string := "1.16.5".
Definition EXTRACTION_MARKER : string := ".extracted_ok".

Definition REQUIRED_PATHS : list string :=
  [ os_path_join "swiftdlc" ["game"; "versions"; GAME_VERSION; (GAME_VERSION ++ ".jar")%string];
    os_path_join "swiftdlc" ["libraries"] ].

(** ** Utilities *)

Definition abspath (p : string) : string :=
  OsPath.os_abspath win (getcwd H) p.

Definition add_long_path_prefix (path : string) : string :=
  if negb win then path
  else
    let p := abspath path in
    if startswith p "\\?\" then p
    else if startswith p "\\" then "\\?\UNC\" ++ lstrip "\" p
    else "\\?\" ++ p.

Definition safe_makedirs (path : string) : M unit :=
  catch
    (if win then os_makedirs (add_long_path_prefix path)
     else os_makedirs path)
    (fun e =>
       logger DEBUG ("safe_makedirs fallback: " ++ e) ;;;
       catch (os_makedirs path)
             (fun e2 => logger ERROR ("safe_makedirs failed: " ++ e2))).

Definition java_name : string := if win then "java.exe" else "java".

(** The loop of [find_java_executable] over the entries of the
    client directory; it ends the search at the first hit. *)
Fixpoint find_bundled (client_dir : string) (entries : list string)
  : M (option string) :=
  match entries with
  | [] => ret None
  | entry :: rest =>
      if startswith (lower entry) "jre" || startswith (lower entry) "jdk"
      then
        let candidate := os_path_join client_dir [entry; "bin"; java_name] in
        found <- os_path_exists candidate ;;
        if found
        then logger INFO ("Found bundled java: " ++ candidate) ;;;
             ret (Some candidate)
        else find_bundled client_dir rest
      else find_bundled client_dir rest
  end.

Definition find_java_executable (client_dir : string) : M (option string) :=
  bundled <-
    catch
      (d <- os_path_isdir client_dir ;;
       if d then entries <- os_listdir client_dir ;;
                 find_bundled client_dir entries
       else ret None)
      (fun _ => ret None) ;;
  match bundled with
  | Some candidate => ret (Some candidate)
  | None =>
      let java_home := py_or (environ H "JAVA_HOME") (environ H "JDK_HOME") in
      from_home <-
        (match java_home with
         | Some home =>
             if truthy java_home then
               let candidate := os_path_join home ["bin"; java_name] in
               found <- os_path_exists candidate ;;
               if found
               then logger INFO ("Found java in JAVA_HOME: " ++ candidate) ;;;
                    ret (Some candidate)
               else ret None
             else ret None
         | None => ret None
         end) ;;
      match from_home with
      | Some candidate => ret (Some candidate)
      | None =>
          let w := which H "java" in
          if truthy w
          then match w with
               | Some path => logger INFO ("Found java in PATH: " ++ path) ;;;
                              ret (Some path)
               | None => ret None
               end
          else logger WARNING "Java not found" ;;; ret None
      end
  end.

(** ** Download and extract helpers *)

Definition lift {A} (r : Result A) : M A := fun st => (r, st).

Definition len (s : string) : Z := Z.of_nat (String.length s).

(** The body of the [for chunk in r.iter_content(...)] loop of
    [download_file], [downloaded] bytes having been written. *)
Fixpoint write_chunks (dest_path : string) (total : Z)
         (progress_callback : option (Z -> event))
         (downloaded : Z) (chunks : list string) : M unit :=
  match chunks with
  | [] => ret tt
  | chunk :: rest =>
      match chunk with
      | EmptyString =>
          write_chunks dest_path total progress_callback downloaded rest
      | _ =>
          file_write dest_path chunk ;;;
          let downloaded := (downloaded + len chunk)%Z in
          (if negb (total =? 0)%Z
           then call progress_callback (percent H downloaded total)
           else ret tt) ;;;
          write_chunks dest_path total progress_callback downloaded rest
      end
  end.

(** [int(r.headers.get("content-length", 0) or 0)]. *)
Definition content_length_total (r : Response) : M Z :=
  match content_length r with
  | None | Some EmptyString => ret 0%Z
  | Some s =>
      match py_int s with
      | Ok n => ret n
      | Raise e => raise e
      end
  end.

(** The [try] block of [download_file]. *)
Definition fetch (url dest_path : string)
           (progress_callback : option (Z -> event))
           (status_callback : option (string -> event)) : M bool :=
  safe_makedirs (OsPath.dirname win dest_path) ;;;
  r <- lift (requests_get H url) ;;
  (match status_error r with
   | Some e => raise e
   | None => ret tt
   end) ;;;
  total <- content_length_total r ;;
  open_write dest_path ;;;
  write_chunks dest_path total progress_callback 0%Z (body r) ;;;
  (match body_error r with
   | Some e => raise e
   | None => ret tt
   end) ;;;
  call status_callback "Download complete" ;;;
  logger INFO ("Downloaded: " ++ url ++ " -> " ++ dest_path) ;;;
  ret true.

Definition download_file (url dest_path : string)
           (progress_callback : option (Z -> event))
           (status_callback : option (string -> event)) : M bool :=
  catch
    (fetch url dest_path progress_callback status_callback)
    (fun e =>
       logger ERROR ("download_file error: " ++ e) ;;;
       call status_callback ("Download failed: " ++ e) ;;;
       ret false).

(** [with z.open(member) as src, open(path, "wb") as dst:
    shutil.copyfileobj(src, dst)]: the member is opened, then the
    target, which is emptied; the bytes that can be read are copied, and
    a failing read ends the copy with the target left as it is then. *)
Definition copy_member (member : ZipInfo) (path : string) : M unit :=
  (match open_error member with
   | Some e => raise e
   | None => ret tt
   end) ;;;
  open_write path ;;;
  file_write path (payload member) ;;;
  match read_error member with
  | Some e => raise e
  | None => ret tt
  end.

(** The path an archive member is extracted to. *)
Definition name_norm_of (member : ZipInfo) : string :=
  replace "\" (OsPath.sep_char win)
          (replace "/" (OsPath.sep_char win) (filename member)).

Definition target_path_of (target_dir : string) (member : ZipInfo) : string :=
  OsPath.normpath win (os_path_join target_dir [name_norm_of member]).

Definition is_directory_entry (member : ZipInfo) : bool :=
  endswith (name_norm_of member) (OsPath.sep win).

(** [parent = os.path.dirname(target_path)] and, if it is not empty,
    [safe_makedirs(parent)]. *)
Definition make_parent (target_path : string) : M unit :=
  let parent := OsPath.dirname win target_path in
  match parent with
  | EmptyString => ret tt
  | _ => safe_makedirs parent
  end.

(** One turn of the loop of [extract_zip_manual], for the member of
    index [idx]; it gives the new value of [extracted]. *)
Definition extract_member (target_dir : string) (total : nat)
           (progress_callback : option (Z -> event))
           (status_callback : option (string -> event))
           (idx extracted : nat) (member : ZipInfo) : M nat :=
  let name := filename member in
  let target_path := target_path_of target_dir member in
  make_parent target_path ;;;
  if is_directory_entry member then ret extracted
  else
    catch
      (copy_member member (add_long_path_prefix target_path))
      (fun e =>
         logger DEBUG ("Primary extract failed for " ++ name ++ ": " ++ e) ;;;
         catch
           (copy_member member target_path)
           (fun e2 => logger ERROR ("Failed to extract " ++ name ++ ": " ++ e2))) ;;;
    let extracted := S extracted in
    call progress_callback (percent H (Z.of_nat extracted) (Z.of_nat total)) ;;;
    call status_callback
         ("Extracting " ++ str_of_nat idx ++ "/" ++ str_of_nat total) ;;;
    ret extracted.

(** [for idx, member in enumerate(members, start=idx): ...]. *)
Fixpoint extract_members (target_dir : string) (total : nat)
         (progress_callback : option (Z -> event))
         (status_callback : option (string -> event))
         (idx extracted : nat) (members : list ZipInfo) : M unit :=
  match members with
  | [] => ret tt
  | member :: rest =>
      extracted <- extract_member target_dir total progress_callback
                                  status_callback idx extracted member ;;
      extract_members target_dir total progress_callback status_callback
                      (S idx) extracted rest
  end.

(** [ZipFile(zip_path, "r").infolist()]. *)
Definition zip_infolist (zip_path : string) : M (list ZipInfo) :=
  data <- file_read zip_path ;;
  lift (zip_decode H data).

(** The marker file of a finished extraction. *)
Definition marker_path (target_dir : string) : string :=
  add_long_path_prefix (os_path_join target_dir [EXTRACTION_MARKER]).

(** [len(members) or 1]. *)
Definition total_of (members : list ZipInfo) : nat :=
  match List.length members with
  | O => 1%nat
  | n => n
  end.

(** The outer [try] block of [extract_zip_manual]. *)
Definition unpack (zip_path target_dir : string)
           (progress_callback : option (Z -> event))
           (status_callback : option (string -> event)) : M bool :=
  members <- zip_infolist zip_path ;;
  extract_members target_dir (total_of members) progress_callback status_callback
                  1 0 members ;;;
  catch
    (open_write (marker_path target_dir) ;;;
     file_write (marker_path target_dir) "ok")
    (fun _ => ret tt) ;;;
  logger INFO ("Extracted archive " ++ zip_path ++ " -> " ++ target_dir) ;;;
  ret true.

Definition extract_zip_manual (zip_path target_dir : string)
           (progress_callback : option (Z -> event))
           (status_callback : option (string -> event)) : M bool :=
  catch
    (unpack zip_path target_dir progress_callback status_callback)
    (fun e =>
       logger ERROR ("extract_zip_manual error: " ++ e) ;;;
       ret false).

(** ** Launch flow: check files, restore, build arguments, launch *)

(** The parts of the window the launch flow reads. *)
Record Launcher : Type := {
  username : string;
  memory_gb : Z;
  java_path : option string
}.

Definition libraries_dir : string :=
  os_path_join GAME_DIR ["swiftdlc"; "game"; "libraries"].

Definition version_jar : string :=
  os_path_join GAME_DIR
    ["swiftdlc"; "game"; "versions"; GAME_VERSION; GAME_VERSION ++ ".jar"].

(** The files of a walk that end in [.jar], each joined to its
    directory: the double loop over [os.walk]. *)
Definition jars_of_walk (w : list (string * list string * list string))
  : list string :=
  flat_map (fun t => let '(root, _, files) := t in
                     map (fun fn => OsPath.path_join win root fn)
                         (filter (fun fn => endswith fn ".jar") files)) w.

(** Whether a walk meets a file that ends in [.jar]. *)
Definition walk_has_jar (w : list (string * list string * list string)) : bool :=
  existsb (fun t => let '(_, _, files) := t in
                    existsb (fun fn => endswith fn ".jar") files) w.

(** One turn of the loop of [_check_required_files] over
    [REQUIRED_PATHS]; [acc] holds [missing] and [details]. *)
Definition check_required (acc : list string * list string) (rel : string)
  : M (list string * list string) :=
  let '(missing, details) := acc in
  if endswith_any rel ["swiftdlc"; "game"; "libraries"] then
    let p := os_path_join GAME_DIR ["swiftdlc"; "game"; "libraries"] in
    d <- os_path_isdir p ;;
    if negb d then
      ret (push missing p, push details ("Missing directory: " ++ p))
    else
      w <- os_walk p ;;
      if negb (walk_has_jar w) then
        ret (push missing (p ++ " (no jars)"),
             push details ("No .jar files found under: " ++ p))
      else ret (missing, details)
  else
    let p := os_path_join GAME_DIR [rel] in
    e <- os_path_exists p ;;
    if negb e then
      ret (push missing p, push details ("Missing path: " ++ p))
    else ret (missing, details).

Fixpoint fold_m {A X} (f : A -> X -> M A) (l : list X) (acc : A) : M A :=
  match l with
  | [] => ret acc
  | x :: r => acc' <- f acc x ;; fold_m f r acc'
  end.

(** [_check_required_files], lines 752 to 786: the lists [missing] and
    [details]. *)
Definition scan_required : M (list string * list string) :=
  acc <- fold_m check_required REQUIRED_PATHS ([], []) ;;
  let '(missing, details) := acc in
  e <- os_path_exists version_jar ;;
  ret (if negb e
       then (push missing version_jar,
             push details ("Missing version jar: " ++ version_jar))
       else (missing, details)).

Definition _check_required_files : M (list string) :=
  acc <- scan_required ;;
  let '(missing, details) := acc in
  (match missing with
   | [] => ret tt
   | _ => logger ERROR ("Missing files: " ++ repr_list H missing) ;;;
          for_each details (fun d => logger ERROR d)
   end) ;;;
  ret missing.

(** [launch_procedure], lines 829 to 844: the three collection passes. *)
Definition collect_jars : M (list string) :=
  d <- os_path_isdir libraries_dir ;;
  pass1 <- (if d then w <- os_walk libraries_dir ;; ret (jars_of_walk w)
            else ret []) ;;
  e <- os_path_exists version_jar ;;
  let pass2 := if e then [version_jar] else [] in
  c <- os_path_isdir CLIENT_DIR ;;
  pass3 <- (if c then w <- os_walk CLIENT_DIR ;; ret (jars_of_walk w)
            else ret []) ;;
  ret (pass1 ++ pass2 ++ pass3)%list.

Definition args_path : string := os_path_join GAME_DIR ["args.txt"].

(** [launch_procedure], lines 859 to 872: the lines of [args.txt]. *)
Definition args_lines (self : Launcher) (classpath : string) : list string :=
  [ "-Xmx" ++ str_of_Z (memory_gb self * 1024) ++ "m" ++ nl;
    "--enable-native-access=ALL-UNNAMED" ++ nl;
    "-cp" ++ nl;
    classpath ++ nl;
    "net.minecraft.client.main.Main" ++ nl;
    "--version " ++ GAME_VERSION ++ nl;
    "--gameDir " ++ GAME_DIR ++ nl;
    "--assetsDir " ++ os_path_join GAME_DIR ["swiftdlc"; "game"; "assets"] ++ nl;
    "--assetIndex 1.16" ++ nl;
    "--username " ++ username self ++ nl;
    "--accessToken 0" ++ nl ].

(** [launch_procedure], lines 879 to 917: find java and launch. *)
Definition find_and_launch (self : Launcher) : M unit :=
  java_exec <- (if truthy (java_path self) then ret (java_path self)
                else find_java_executable CLIENT_DIR) ;;
  usable <- (match java_exec with
             | Some j => if truthy java_exec then os_path_exists j else ret false
             | None => ret false
             end) ;;
  match java_exec, usable with
  | Some java_exec, true =>
      let cmd : option (list string) := None in
      c <- read_local "cmd" cmd ;;
      logger INFO ("Launch command: " ++ repr_list H c) ;;;
      logger INFO ("Java executable: " ++ java_exec) ;;;
      logger INFO ("Args file: " ++ args_path) ;;;
      e <- os_path_exists args_path ;;
      (if e then content <- file_read args_path ;;
                logger INFO ("Args file content:" ++ nl ++ content)
       else logger ERROR "Args file not found!") ;;;
      let cmd := [java_exec; "@" ++ args_path] in
      emit (Status "Launching Java process...") ;;;
      catch
        (emit (Spawn cmd) ;;;
         proc <- lift (popen H cmd) ;;
         (match stdout proc with
          | EmptyString => ret tt
          | out => logger INFO ("Java stdout: " ++ substring 0 1000 out)
          end) ;;;
         (match stderr proc with
          | EmptyString => ret tt
          | err => logger ERROR ("Java stderr: " ++ substring 0 2000 err)
          end) ;;;
         if (returncode proc =? 0)%Z
         then emit (Finished true "Client finished successfully.")
         else
           logger ERROR ("Java process exited with code: "
                           ++ str_of_Z (returncode proc)) ;;;
           emit (Finished false ("Launch failed with exit code "
                                   ++ str_of_Z (returncode proc))))
        (fun e =>
           logger ERROR "Launch exception" ;;;
           emit (Finished false ("Launch failed: " ++ e)))
  | _, _ => emit (Finished false "Java not found. Set path in Settings.")
  end.

Definition basename (p : string) : string := OsPath.basename win p.

(** [launch_procedure], lines 846 to 849: the jars found go to the log. *)
Definition announce_jars (jars : list string) : M unit :=
  logger INFO "Collected classpath jars:" ;;;
  for_each jars (fun j => logger INFO ("  " ++ j)).

(** [launch_procedure], lines 855 to 877: write [args.txt]; the result
    tells whether the procedure goes on. *)
Definition write_args (self : Launcher) (classpath : string) : M bool :=
  safe_makedirs (OsPath.dirname win args_path) ;;;
  catch
    (open_write args_path ;;;
     for_each (args_lines self classpath) (file_write args_path) ;;;
     emit (Status "args.txt written") ;;;
     ret true)
    (fun e =>
       logger ERROR "Failed to write args.txt" ;;;
       emit (Finished false ("Failed to write args.txt: " ++ e)) ;;;
       ret false).

(** [launch_procedure], lines 828 to 917: collect the jars, keep the
    latest guava, write [args.txt], find java and launch. *)
Definition assemble_and_launch (self : Launcher) : M unit :=
  jars <- collect_jars ;;
  announce_jars jars ;;;
  (match Guava._filter_guava_log basename jars with
   | Some line => logger INFO line
   | None => ret tt
   end) ;;;
  let jars := Guava._filter_guava_keep_latest basename jars in
  let classpath := join (OsPath.pathsep win) jars in
  written <- write_args self classpath ;;
  if written then find_and_launch self else ret tt.

(** [launch_procedure], lines 800 to 816: restore the client from the
    local archive, or download the archive and extract it.  The
    result tells whether the procedure goes on to the re-check. *)
Definition restore (missing : list string) : M bool :=
  emit (Status ("Missing " ++ str_of_nat (List.length missing)
                  ++ " items. Trying to restore...")) ;;;
  have_zip <- os_path_exists CLIENT_ZIP_PATH ;;
  if have_zip then
    ok <- extract_zip_manual CLIENT_ZIP_PATH CLIENT_DIR
                             (Some Progress) (Some Status) ;;
    if negb ok
    then emit (Finished false "Extraction from local archive failed") ;;;
         ret false
    else ret true
  else
    ok <- download_file CLIENT_ZIP_URL CLIENT_ZIP_PATH
                        (Some Progress) (Some Status) ;;
    if negb ok
    then emit (Finished false "Download failed") ;;; ret false
    else
      ok <- extract_zip_manual CLIENT_ZIP_PATH CLIENT_DIR
                               (Some Progress) (Some Status) ;;
      if negb ok
      then emit (Finished false "Extraction failed") ;;; ret false
      else ret true.

Definition still_missing_message (missing2 : list string) : string :=
  "Still missing " ++ str_of_nat (List.length missing2)
    ++ " items after extraction:" ++ nl ++ join nl missing2.

(** [launch_procedure]; the lock [_bg_lock] is held throughout. *)
Definition launch_procedure (self : Launcher) : M unit :=
  emit (Status "Preparing launch...") ;;;
  missing <- _check_required_files ;;
  match missing with
  | [] =>
      emit (Status "All required files present") ;;;
      assemble_and_launch self
  | _ =>
      go_on <- restore missing ;;
      if go_on then
        missing2 <- _check_required_files ;;
        match missing2 with
        | [] => assemble_and_launch self
        | _ =>
            let msg := still_missing_message missing2 in
            logger ERROR msg ;;;
            emit (Finished false msg)
        end
      else ret tt
  end.

(** [_background]: the wrapper run in the worker thread. *)
Definition _background (target : M unit) : M unit :=
  catch target
        (fun e =>
           logger ERROR "Background task exception" ;;;
           emit (Status ("Error: " ++ e)) ;;;
           emit (Finished false e)).

(** ** Verification and reinstall flows *)

(** [shutil.rmtree(p)]. *)
Definition shutil_rmtree (p : string) : M unit :=
  fun st =>
    match p with
    | EmptyString => (Raise "FileNotFoundError", st)
    | _ =>
        let '(n, r) := FS.rmtree win (fs st) (OsPath.components win p) in
        (r, {| fs := n; trace := trace st |})
    end.

(** [os.remove(p)]. *)
Definition os_remove (p : string) : M unit :=
  fun st =>
    match p with
    | EmptyString => (Raise "FileNotFoundError", st)
    | _ =>
        match FS.unlink win (fs st) (OsPath.components win p) with
        | Ok n => (Ok tt, {| fs := n; trace := trace st |})
        | Raise e => (Raise e, st)
        end
    end.

Definition safe_remove_dir (path : string) : M unit :=
  catch
    (e <- os_path_exists path ;;
     if e then shutil_rmtree path else ret tt)
    (fun e => logger ERROR ("safe_remove_dir error: " ++ e)).

(** The names of [z.namelist()] that do not end in a slash. *)
Definition file_names_of (members : list ZipInfo) : list string :=
  filter (fun n => negb (endswith n "/")) (map filename members).

Definition count_files_in_archive (zip_path : string) : M Z :=
  catch
    (members <- zip_infolist zip_path ;;
     ret (Z.of_nat (List.length (file_names_of members))))
    (fun e =>
       logger ERROR ("count_files_in_archive: " ++ e) ;;;
       ret 0%Z).

(** The sum of [len(files)] over a walk. *)
Definition total_files (w : list (string * list string * list string)) : Z :=
  fold_left (fun total t => let '(_, _, files) := t in
                            (total + Z.of_nat (List.length files))%Z) w 0%Z.

Definition count_files_in_folder (root_dir : string) : M Z :=
  w <- os_walk root_dir ;;
  ret (total_files w).

Definition verify_client : M unit :=
  emit (Status "Verifying client...") ;;;
  have_zip <- os_path_exists CLIENT_ZIP_PATH ;;
  if have_zip then
    archive_count <- count_files_in_archive CLIENT_ZIP_PATH ;;
    d <- os_path_isdir CLIENT_DIR ;;
    folder_count <- (if d then count_files_in_folder CLIENT_DIR else ret 0%Z) ;;
    emit (Status ("Archive files: " ++ str_of_Z archive_count
                    ++ ", installed: " ++ str_of_Z folder_count)) ;;;
    if (folder_count >=? archive_count)%Z
    then emit (Finished true "Verification OK")
    else emit (Finished false "Client incomplete vs archive")
  else emit (Finished false "No archive available for verification").

Definition reinstall_client : M unit :=
  emit (Status "Reinstall: removing old client and downloading archive...") ;;;
  safe_remove_dir CLIENT_DIR ;;;
  catch
    (e <- os_path_exists CLIENT_ZIP_PATH ;;
     if e then os_remove CLIENT_ZIP_PATH else ret tt)
    (fun _ => ret tt) ;;;
  ok <- download_file CLIENT_ZIP_URL CLIENT_ZIP_PATH
                      (Some Progress) (Some Status) ;;
  if negb ok then emit (Finished false "Download failed")
  else
    ok <- extract_zip_manual CLIENT_ZIP_PATH CLIENT_DIR
                             (Some Progress) (Some Status) ;;
    if negb ok then emit (Finished false "Extraction failed")
    else emit (Finished true "Reinstall complete").


End WithHost.

End Loader.

(* ================================================================== *)
(** * The order on version tuples and the sort *)
(* ================================================================== *)

Module PyTupleFacts.

Import PyTuple.

Lemma lt_irrefl (a : list Z) : lt a a = false.
Proof.
  induction a as [|x a IH]; simpl; [reflexivity|].
  now rewrite Z.eqb_refl.
Qed.

Lemma lt_asym (a b : list Z) : lt a b = true -> lt b a = false.
Proof.
  revert b; induction a as [|x a IH]; intros [|y b]; simpl; try congruence.
  destruct (Z.eqb_spec x y) as [->|Hne].
  - rewrite Z.eqb_refl. apply IH.
  - destruct (Z.eqb_spec y x); [congruence|].
    intros Hlt. apply Z.ltb_lt in Hlt. apply Z.ltb_ge. lia.
Qed.

(** [>=] is transitive. *)
Lemma ge_trans (a b c : list Z) :
  lt a b = false -> lt b c = false -> lt a c = false.
Proof.
  revert b c; induction a as [|x a IH]; intros [|y b] [|z c]; simpl;
    try congruence.
  destruct (Z.eqb_spec x y) as [->|Hxy].
  - destruct (Z.eqb_spec y z) as [->|Hyz]; [apply IH|tauto].
  - intros Hxy'. apply Z.ltb_ge in Hxy'.
    destruct (Z.eqb_spec y z) as [->|Hyz].
    + intros _. destruct (Z.eqb_spec x z); [congruence|]. apply Z.ltb_ge. lia.
    + intros Hyz'. apply Z.ltb_ge in Hyz'.
      destruct (Z.eqb_spec x z); [lia|]. apply Z.ltb_ge. lia.
Qed.

Lemma lt_connex (a b : list Z) : lt a b = false -> lt b a = false -> a = b.
Proof.
  revert b; induction a as [|x a IH]; intros [|y b]; simpl; try congruence.
  destruct (Z.eqb_spec x y) as [->|Hxy].
  - rewrite Z.eqb_refl. intros H1 H2. f_equal. now apply IH.
  - destruct (Z.eqb_spec y x); [congruence|].
    intros H1 H2. apply Z.ltb_ge in H1, H2. lia.
Qed.

(** A tuple is smaller than each of its proper extensions. *)
Lemma lt_proper_prefix (t : list Z) (x : Z) (r : list Z) :
  lt t (t ++ x :: r) = true.
Proof.
  induction t as [|y t IH]; simpl; [reflexivity|].
  now rewrite Z.eqb_refl.
Qed.

(** After a common prefix the first components decide. *)
Lemma lt_common_prefix (p : list Z) (a b : Z) (r1 r2 : list Z) :
  lt (p ++ a :: r1) (p ++ b :: r2)
  = if (a =? b)%Z then lt r1 r2 else (a <? b)%Z.
Proof.
  induction p as [|y p IH]; simpl; [reflexivity|].
  now rewrite Z.eqb_refl.
Qed.

Section Sorting.
Context {A : Type} (key : A -> list Z).

Lemma in_insert (x y : A) (s : list A) :
  In y (insert key x s) <-> y = x \/ In y s.
Proof.
  induction s as [|z s IH]; simpl.
  - intuition congruence.
  - destruct (lt (key z) (key x)); simpl; [rewrite IH|]; intuition congruence.
Qed.

Lemma in_stable_sort (y : A) (l : list A) :
  In y (stable_sort key l) <-> In y l.
Proof.
  induction l as [|x l IH]; simpl; [tauto|].
  rewrite in_insert, IH. intuition congruence.
Qed.

Lemma insert_nonempty (x : A) (s : list A) : insert key x s <> [].
Proof. destruct s as [|z s]; simpl; [|destruct (lt _ _)]; discriminate. Qed.

(** Where the last element of an insertion comes from. *)
Lemma last_insert (x d : A) (s : list A) :
  (last (insert key x s) d = x
   /\ forall y, In y s -> lt (key y) (key x) = true)
  \/ (last (insert key x s) d = last s d
      /\ exists y, In y s /\ lt (key y) (key x) = false).
Proof.
  induction s as [|z s IH].
  - left. simpl. split; [reflexivity|tauto].
  - simpl insert. destruct (lt (key z) (key x)) eqn:Hz.
    + destruct IH as [[Hl Hall]|[Hl (y & Hy & Hyx)]].
      * left. split.
        -- change (last (z :: insert key x s) d = x).
           destruct (insert key x s) eqn:E; [now apply insert_nonempty in E|].
           exact Hl.
        -- intros y [<-|Hy]; [exact Hz|now apply Hall].
      * right. split.
        -- destruct (insert key x s) eqn:E; [now apply insert_nonempty in E|].
           destruct s as [|s0 s']; [destruct Hy|].
           exact Hl.
        -- exists y. split; [now right|exact Hyx].
    + right. split; [reflexivity|].
      exists z. split; [now left|exact Hz].
Qed.

(** The last element of the sort is a greatest element of the list. *)
Lemma last_stable_sort_max (l : list A) (d : A) :
  l <> [] ->
  In (last (stable_sort key l) d) l
  /\ forall y, In y l -> lt (key (last (stable_sort key l) d)) (key y) = false.
Proof.
  induction l as [|x l IH]; [congruence|]. intros _.
  simpl stable_sort.
  destruct (last_insert x d (stable_sort key l))
    as [[Hl Hall]|[Hl (y & Hy & Hyx)]]; rewrite Hl.
  - split; [now left|].
    intros y [<-|Hy]; [apply lt_irrefl|].
    apply lt_asym, Hall. now apply in_stable_sort.
  - assert (Hne : l <> []).
    { intros ->. destruct Hy. }
    destruct (IH Hne) as [Hin Hmax]. split; [now right|].
    intros y' [<-|Hy']; [|now apply Hmax].
    apply ge_trans with (b := key y); [|exact Hyx].
    apply Hmax. now apply in_stable_sort.
Qed.

Lemma hd_rev (s : list A) (d : A) : hd d (rev s) = last s d.
Proof.
  induction s as [|x s IH] using rev_ind; [reflexivity|].
  now rewrite rev_unit, last_last.
Qed.

(** The first element of [sorted(l, key=key, reverse=True)] is a
    greatest element of [l]. *)
Lemma hd_sorted_reverse_max (l : list A) (d : A) :
  l <> [] ->
  In (hd d (sorted key true l)) l
  /\ forall y, In y l -> lt (key (hd d (sorted key true l))) (key y) = false.
Proof.
  intros Hne. unfold sorted. rewrite hd_rev.
  assert (Hr : rev l <> []).
  { intros E. apply Hne. now rewrite <- (rev_involutive l), E. }
  destruct (last_stable_sort_max (rev l) d Hr) as [Hin Hmax].
  split; [now apply in_rev|].
  intros y Hy. apply Hmax. now apply in_rev in Hy.
Qed.
(** Where the last element of the sort stands in the list: the elements
    after it are smaller, those before it are not greater. *)
Lemma last_stable_sort_split (l : list A) (d : A) :
  l <> [] ->
  exists pre post,
    l = pre ++ last (stable_sort key l) d :: post
    /\ (forall y, In y pre -> lt (key (last (stable_sort key l) d)) (key y) = false)
    /\ (forall y, In y post -> lt (key y) (key (last (stable_sort key l) d)) = true).
Proof.
  induction l as [|x l IH]; [congruence|]. intros _.
  simpl stable_sort.
  destruct (last_insert x d (stable_sort key l))
    as [[Hl Hall]|[Hl (y & Hy & Hyx)]]; rewrite Hl.
  - exists [], l. split; [reflexivity|]. split; [intros y []|].
    intros y Hy. apply Hall. now apply in_stable_sort.
  - assert (Hne : l <> []).
    { intros ->. destruct Hy. }
    destruct (IH Hne) as (pre & post & E & Hpre & Hpost).
    destruct (last_stable_sort_max l d Hne) as [_ Hmax].
    exists (x :: pre), post. split; [simpl; now rewrite <- E|].
    split; [|exact Hpost].
    intros y' [<-|Hy']; [|now apply Hpre].
    apply ge_trans with (b := key y); [|exact Hyx].
    apply Hmax. now apply in_stable_sort.
Qed.

(** The first element of [sorted(l, key=key, reverse=True)] is the first
    element of [l] of greatest key: those before it are smaller, those
    after it are not greater. *)
Lemma hd_sorted_reverse_split (l : list A) (d : A) :
  l <> [] ->
  exists pre post,
    l = pre ++ hd d (sorted key true l) :: post
    /\ (forall y, In y pre -> lt (key y) (key (hd d (sorted key true l))) = true)
    /\ (forall y, In y post -> lt (key (hd d (sorted key true l))) (key y) = false).
Proof.
  intros Hne. unfold sorted. rewrite hd_rev.
  assert (Hr : rev l <> []).
  { intros E. apply Hne. now rewrite <- (rev_involutive l), E. }
  destruct (last_stable_sort_split (rev l) d Hr) as (pre & post & E & Hpre & Hpost).
  remember (last (stable_sort key (rev l)) d) as m eqn:Em. clear Em.
  exists (rev post), (rev pre). split.
  - apply (f_equal (@rev A)) in E. rewrite rev_involutive in E.
    rewrite E, rev_app_distr. simpl. now rewrite <- app_assoc.
  - split; intros y Hy; apply in_rev in Hy; auto.
Qed.
End Sorting.

End PyTupleFacts.

(* ================================================================== *)
(** * The version-conflict resolver *)
(* ================================================================== *)

Module GuavaFacts.

Import Guava.

Definition posix_basename : string -> string := OsPath.basename false.

Example version_30_1_1 :
  _extract_version_tuple_from_name "guava-30.1.1-jre.jar" = [30; 1; 1]%Z.
Proof. reflexivity. Qed.

Example version_no_match :
  _extract_version_tuple_from_name "guava-testlib.jar" = [0]%Z.
Proof. reflexivity. Qed.

Example scenario_B :
  _filter_guava_keep_latest posix_basename
    ["libs/guava-19.0.jar"; "libs/guava-30.1.1.jar"]
  = ["libs/guava-30.1.1.jar"].
Proof. reflexivity. Qed.

(** Without a guava jar the list comes back as it is. *)
Lemma filter_guava_none (basename : string -> string) (jars : list string) :
  filter (is_guava basename) jars = [] ->
  _filter_guava_keep_latest basename jars = jars.
Proof. unfold _filter_guava_keep_latest. now intros ->. Qed.

(** With at least one guava jar: the others stay in order and one
    guava jar of greatest version follows them. *)
Lemma filter_guava_some (basename : string -> string) (jars : list string) :
  filter (is_guava basename) jars <> [] ->
  exists latest,
    In latest jars
    /\ is_guava basename latest = true
    /\ (forall g, In g jars -> is_guava basename g = true ->
          PyTuple.lt (version_key basename latest) (version_key basename g) = false)
    /\ _filter_guava_keep_latest basename jars
       = filter (fun j => negb (is_guava basename j)) jars ++ [latest].
Proof.
  intros Hne. unfold _filter_guava_keep_latest.
  destruct (filter (is_guava basename) jars) as [|g0 gs] eqn:Hg; [congruence|].
  destruct (PyTupleFacts.hd_sorted_reverse_max (version_key basename) (g0 :: gs) g0)
    as [Hin Hmax]; [discriminate|].
  exists (hd g0 (PyTuple.sorted (version_key basename) true (g0 :: gs))).
  assert (Hmem : forall g, In g (g0 :: gs)
                           <-> In g jars /\ is_guava basename g = true).
  { intros g. rewrite <- Hg. apply filter_In. }
  split; [now apply Hmem in Hin|].
  split; [now apply Hmem in Hin|].
  split; [intros g Hgj Hgg; apply Hmax; now apply Hmem|].
  now destruct (PyTuple.sorted (version_key basename) true (g0 :: gs)).
Qed.

(** C3, as the code has it.  Version tuples are compared as Python
    compares tuples, component by component and without padding:
    after a common prefix the first differing components decide, and
    a tuple is smaller than each of its proper extensions.  So 2.10
    is greater than 2.9, and 1.2.0 is greater than 1.2. *)
Theorem version_order_is_tuple_order :
  PyTuple.gt (_extract_version_tuple_from_name "guava-2.10.jar")
             (_extract_version_tuple_from_name "guava-2.9.jar") = true
  /\ (forall p a b r1 r2,
        PyTuple.lt (p ++ a :: r1) (p ++ b :: r2)
        = if (a =? b)%Z then PyTuple.lt r1 r2 else (a <? b)%Z)
  /\ (forall t x r, PyTuple.lt t (t ++ x :: r) = true)
  /\ PyTuple.gt (_extract_version_tuple_from_name "guava-1.2.0.jar")
                (_extract_version_tuple_from_name "guava-1.2.jar") = true.
Proof.
  split; [reflexivity|].
  split; [apply PyTupleFacts.lt_common_prefix|].
  split; [apply PyTupleFacts.lt_proper_prefix|reflexivity].
Qed.

(** C3 as stated fails: 1.2.0 does not compare equal to 1.2, it is
    greater, and the resolver keeps it whichever comes first. *)
Lemma version_1_2_0_not_equal_1_2 :
  PyTuple.eqb (_extract_version_tuple_from_name "guava-1.2.0.jar")
              (_extract_version_tuple_from_name "guava-1.2.jar") = false
  /\ PyTuple.lt (_extract_version_tuple_from_name "guava-1.2.jar")
                (_extract_version_tuple_from_name "guava-1.2.0.jar") = true
  /\ _filter_guava_keep_latest posix_basename ["guava-1.2.jar"; "guava-1.2.0.jar"]
     = ["guava-1.2.0.jar"]
  /\ _filter_guava_keep_latest posix_basename ["guava-1.2.0.jar"; "guava-1.2.jar"]
     = ["guava-1.2.0.jar"].
Proof. repeat split. Qed.

(** Of two guava jars of equal version the first of the list is kept:
    [sorted] is stable, also with [reverse=True]. *)
Example equal_versions_keep_first :
  _filter_guava_keep_latest posix_basename
    ["libs/guava-30.1.1.jar"; "client/guava-30.1.1.jar"; "libs/asm-9.jar"]
  = ["libs/asm-9.jar"; "libs/guava-30.1.1.jar"].
Proof. reflexivity. Qed.

End GuavaFacts.

(* ================================================================== *)
(** * Facts about the filesystem *)
(* ================================================================== *)

Module FSFacts.

Import FS.

Lemma assoc_set_entry_same (c : string) (m : node) (es : entries_t) :
  assoc c (set_entry c m es) = Some m.
Proof.
  induction es as [|[k x] r IH]; simpl.
  - now rewrite String.eqb_refl.
  - destruct (String.eqb k c) eqn:E; simpl; rewrite E; [reflexivity|exact IH].
Qed.

Lemma assoc_set_entry_other (c d : string) (m : node) (es : entries_t) :
  c <> d -> assoc d (set_entry c m es) = assoc d es.
Proof.
  intros Hne. induction es as [|[k x] r IH]; simpl.
  - destruct (String.eqb_spec c d); [contradiction|reflexivity].
  - destruct (String.eqb_spec k c) as [->|Hkc]; simpl.
    + destruct (String.eqb_spec c d); [contradiction|reflexivity].
    + destruct (String.eqb_spec k d); [reflexivity|exact IH].
Qed.

Lemma assoc_in (c : string) (m : node) (es : entries_t) :
  assoc c es = Some m -> In (c, m) es.
Proof.
  induction es as [|[k x] r IH]; simpl; [discriminate|].
  destruct (String.eqb_spec k c) as [->|_].
  - intros [= ->]. now left.
  - intros E. right. now apply IH.
Qed.

Lemma lookup_app (n : node) (p q : list string) :
  lookup n (p ++ q)
  = match lookup n p with Some m => lookup m q | None => None end.
Proof.
  revert n; induction p as [|c p IH]; intros n; simpl; [reflexivity|].
  destruct n as [|es]; [reflexivity|].
  destruct (assoc c es); [apply IH|reflexivity].
Qed.

Lemma lookup_cons (es : entries_t) (c : string) (p : list string) :
  lookup (Dir es) (c :: p)
  = match assoc c es with Some m => lookup m p | None => None end.
Proof. reflexivity. Qed.

Lemma write_leaf (es : entries_t) (c d : string) :
  write (Dir es) [c] d
  = match assoc c es with
    | Some (Dir _) => Raise "IsADirectoryError"
    | Some (File _ true) => Raise "PermissionError"
    | Some (File _ false) | None => Ok (Dir (set_entry c (File d false) es))
    end.
Proof. reflexivity. Qed.

Lemma write_inner (es : entries_t) (c c' : string) (p : list string) (d : string) :
  write (Dir es) (c :: c' :: p) d
  = match assoc c es with
    | None => Raise "FileNotFoundError"
    | Some m =>
        match write m (c' :: p) d with
        | Ok m' => Ok (Dir (set_entry c m' es))
        | Raise e => Raise e
        end
    end.
Proof. reflexivity. Qed.

(** The two ways a leaf write succeeds. *)
Lemma write_leaf_ok (es : entries_t) (c d : string) (n' : node) :
  write (Dir es) [c] d = Ok n' ->
  n' = Dir (set_entry c (File d false) es)
  /\ (assoc c es = None \/ exists y, assoc c es = Some (File y false)).
Proof.
  rewrite write_leaf.
  destruct (assoc c es) as [[y [|]|es']|]; try discriminate;
    intros [= <-]; eauto.
Qed.

Lemma write_inner_ok (es : entries_t) (c c' : string) (p : list string)
      (d : string) (n' : node) :
  write (Dir es) (c :: c' :: p) d = Ok n' ->
  exists m m', assoc c es = Some m /\ write m (c' :: p) d = Ok m'
               /\ n' = Dir (set_entry c m' es).
Proof.
  rewrite write_inner.
  destruct (assoc c es) as [m|]; [|discriminate].
  destruct (write m (c' :: p) d) as [m'|e] eqn:W; [|discriminate].
  intros [= <-]. eauto.
Qed.

(** What was written can be read back. *)
Lemma lookup_write (p : list string) :
  forall n n' d, write n p d = Ok n' -> lookup n' p = Some (File d false).
Proof.
  induction p as [|c p IH]; intros n n' d; [discriminate|].
  destruct n as [x r|es]; [discriminate|].
  destruct p as [|c' p].
  - intros W. apply write_leaf_ok in W as [-> _].
    rewrite lookup_cons, assoc_set_entry_same. reflexivity.
  - intros W. apply write_inner_ok in W as (m & m' & A & W & ->).
    rewrite lookup_cons, assoc_set_entry_same. now apply IH with (n := m).
Qed.

(** A file that could be written can be written again. *)
Lemma write_again (p : list string) :
  forall n n' d0 d, write n p d0 = Ok n' -> exists n'', write n' p d = Ok n''.
Proof.
  induction p as [|c p IH]; intros n n' d0 d; [discriminate|].
  destruct n as [x r|es]; [discriminate|].
  destruct p as [|c' p].
  - intros W. apply write_leaf_ok in W as [-> _].
    rewrite write_leaf, assoc_set_entry_same. eauto.
  - intros W. apply write_inner_ok in W as (m & m' & A & W & ->).
    rewrite write_inner, assoc_set_entry_same.
    destruct (IH m m' d0 d W) as [m'' ->]. eauto.
Qed.

(** Writing a file removes no regular file. *)
Lemma write_keeps_files (q : list string) :
  forall n n' d p x r,
    write n q d = Ok n' -> lookup n p = Some (File x r) ->
    exists x' r', lookup n' p = Some (File x' r').
Proof.
  induction q as [|c q IH]; intros n n' d p x r; [discriminate|].
  destruct n as [y s|es]; [discriminate|].
  destruct p as [|c0 p]; [discriminate|].
  rewrite !lookup_cons.
  destruct q as [|c' q].
  - intros W L. apply write_leaf_ok in W as [-> E].
    rewrite lookup_cons.
    destruct (String.eqb_spec c c0) as [<-|Hne].
    + rewrite assoc_set_entry_same.
      destruct E as [E|[y E]]; rewrite E in L; [discriminate|].
      destruct p; [simpl; eauto|simpl in L; discriminate].
    + rewrite assoc_set_entry_other by exact Hne. eauto.
  - intros W L. apply write_inner_ok in W as (m & m' & A & W & ->).
    rewrite lookup_cons.
    destruct (String.eqb_spec c c0) as [<-|Hne].
    + rewrite assoc_set_entry_same. rewrite A in L.
      now apply IH with (n := m) (d := d) (x := x) (r := r).
    + rewrite assoc_set_entry_other by exact Hne. eauto.
Qed.

(** Creating directories, as far as it gets, leaves every regular file
    as it is. *)
Lemma makedirs_keeps_files (ok : string -> bool) (q : list string) :
  forall n n' res p x r,
    makedirs ok n q = (n', res) -> lookup n p = Some (File x r) ->
    lookup n' p = Some (File x r).
Proof.
  induction q as [|c q IH]; intros n n' res p x r.
  - destruct n; simpl; now intros [= <- _].
  - destruct n as [y s|es]; [simpl; now intros [= <- _]|].
    cbn [makedirs].
    destruct (assoc c es) as [m|] eqn:A.
    + destruct (makedirs ok m q) as [m' r'] eqn:Mk. intros [= <- _].
      destruct p as [|c0 p]; [discriminate|]. rewrite !lookup_cons.
      destruct (String.eqb_spec c c0) as [<-|Hne].
      * rewrite assoc_set_entry_same, A. now apply IH with (n := m) (res := r').
      * now rewrite assoc_set_entry_other by exact Hne.
    + destruct (ok c); [|now intros [= <- _]].
      destruct (makedirs ok (Dir []) q) as [m' r'] eqn:Mk. intros [= <- _].
      destruct p as [|c0 p]; [discriminate|]. rewrite !lookup_cons.
      destruct (String.eqb_spec c c0) as [<-|Hne].
      * now rewrite A.
      * now rewrite assoc_set_entry_other by exact Hne.
Qed.

(** ** Walking *)

Section Walking.
Variable join : string -> string -> string.

Lemma walk_dir (top : string) (es : entries_t) :
  walk join top (Dir es)
  = (top, dir_names es, file_names es) :: walk_entries join top es.
Proof.
  unfold walk_entries. simpl. f_equal.
  induction es as [|[name m] r IH]; simpl; [reflexivity|].
  now rewrite IH.
Qed.

(** The walk of a directory contains the walk of each entry. *)
Lemma walk_child (top c : string) (m : node) (es : entries_t) :
  assoc c es = Some m ->
  incl (walk join (join top c) m) (walk join top (Dir es)).
Proof.
  intros A t Ht. rewrite walk_dir. right.
  unfold walk_entries. apply in_flat_map.
  exists (c, m). split; [now apply assoc_in|exact Ht].
Qed.

(** The walk of a directory contains the walk of what lies below
    it, under the joined name. *)
Lemma walk_descend (xs : list string) :
  forall n top n',
    lookup n xs = Some n' ->
    incl (walk join (fold_left join xs top) n') (walk join top n).
Proof.
  induction xs as [|c xs IH]; intros n top n'.
  - simpl. intros [= ->]. apply incl_refl.
  - destruct n as [x r|es]; [discriminate|].
    rewrite lookup_cons. destruct (assoc c es) as [m|] eqn:A; [|discriminate].
    intros L. simpl fold_left.
    eapply incl_tran; [apply (IH m (join top c) n' L)|].
    now apply walk_child.
Qed.

Lemma file_names_in (f : string) (d : string) (r : bool) (es : entries_t) :
  assoc f es = Some (File d r) -> In f (file_names es).
Proof.
  intros A. apply assoc_in in A. unfold file_names.
  apply in_map_iff. exists (f, File d r). split; [reflexivity|].
  apply filter_In. split; [exact A|reflexivity].
Qed.

(** A regular file below a directory is listed by the walk, in the
    triple of the directory that holds it. *)
Lemma walk_lists_file (xs : list string) (f : string) (n : node)
      (top d : string) (r : bool) :
  lookup n (xs ++ [f]) = Some (File d r) ->
  exists dirs files,
    In (fold_left join xs top, dirs, files) (walk join top n)
    /\ In f files.
Proof.
  rewrite lookup_app.
  destruct (lookup n xs) as [[x y|es]|] eqn:L; try discriminate.
  rewrite lookup_cons.
  destruct (assoc f es) as [m|] eqn:A; [|discriminate].
  simpl. intros [= ->].
  exists (dir_names es), (file_names es). split.
  - apply (walk_descend xs n top (Dir es) L). rewrite walk_dir. now left.
  - now apply file_names_in with (d := d) (r := r).
Qed.
End Walking.

End FSFacts.

(* ================================================================== *)
(** * Reasoning about runs *)
(* ================================================================== *)

Module Runs.

(** A relation between the state before and the state after that holds
    across no step and composes. *)
Class StateOrder (R : state -> state -> Prop) : Prop := {
  so_refl : forall s, R s s;
  so_trans : forall a b c, R a b -> R b c -> R a c
}.

Definition preserves (R : state -> state -> Prop) {A} (m : M A) : Prop :=
  forall st, R st (snd (m st)).

Section Preserve.
Context (R : state -> state -> Prop) {RO : StateOrder R}.

Lemma preserves_ret {A} (a : A) : preserves R (ret a).
Proof. intros st. apply so_refl. Qed.

Lemma preserves_raise {A} (e : string) : preserves R (@raise A e).
Proof. intros st. apply so_refl. Qed.

Lemma preserves_bind {A B} (m : M A) (k : A -> M B) :
  preserves R m -> (forall a, preserves R (k a)) -> preserves R (bind m k).
Proof.
  intros Hm Hk st. unfold bind. specialize (Hm st).
  destruct (m st) as [[a|e] st1]; simpl in *; [|exact Hm].
  eapply so_trans; [exact Hm|apply Hk].
Qed.

Lemma preserves_catch {A} (m : M A) (h : string -> M A) :
  preserves R m -> (forall e, preserves R (h e)) -> preserves R (catch m h).
Proof.
  intros Hm Hh st. unfold catch. specialize (Hm st).
  destruct (m st) as [[a|e] st1]; simpl in *; [exact Hm|].
  eapply so_trans; [exact Hm|apply Hh].
Qed.

Lemma preserves_for_each {X} (l : list X) (body : X -> M unit) :
  (forall x, preserves R (body x)) -> preserves R (for_each l body).
Proof.
  intros Hb. induction l as [|x l IH]; simpl.
  - apply preserves_ret.
  - apply preserves_bind; [apply Hb|intros _; exact IH].
Qed.

Lemma preserves_read_local {X} (name : string) (v : option X) :
  preserves R (read_local name v).
Proof. destruct v; [apply preserves_ret|apply preserves_raise]. Qed.

Lemma preserves_call {X} (cb : option (X -> event)) (x : X) :
  (forall e, preserves R (emit e)) -> preserves R (call cb x).
Proof. intros He. destruct cb; [apply He|apply preserves_ret]. Qed.
End Preserve.

(** ** The three relations used below *)

(** The trace grows by events that all satisfy [P]. *)
Definition extends (P : event -> Prop) (s s' : state) : Prop :=
  exists new, trace s' = trace s ++ new /\ Forall P new.

#[export] Instance extends_order (P : event -> Prop) : StateOrder (extends P).
Proof.
  split.
  - intros s. exists []. now rewrite app_nil_r.
  - intros a b c (n1 & E1 & F1) (n2 & E2 & F2).
    exists (n1 ++ n2). rewrite E2, E1, app_assoc. split; [reflexivity|].
    apply Forall_app. now split.
Qed.

(** The filesystem is as it was. *)
Definition same_fs (s s' : state) : Prop := fs s' = fs s.

#[export] Instance same_fs_order : StateOrder same_fs.
Proof.
  split; unfold same_fs; [reflexivity|].
  intros a b c E1 E2. now rewrite E2.
Qed.

(** Every regular file is still a regular file. *)
Definition keeps_files (s s' : state) : Prop :=
  forall p x r, FS.lookup (fs s) p = Some (FS.File x r) ->
                exists x' r', FS.lookup (fs s') p = Some (FS.File x' r').

#[export] Instance keeps_files_order : StateOrder keeps_files.
Proof.
  split.
  - intros s p x r L. eauto.
  - intros a b c H1 H2 p x r L.
    destruct (H1 p x r L) as (x1 & r1 & L1). exact (H2 p x1 r1 L1).
Qed.

Lemma same_fs_keeps_files (s s' : state) : same_fs s s' -> keeps_files s s'.
Proof. intros E p x r L. rewrite E. eauto. Qed.

Lemma extends_weaken (P Q : event -> Prop) (s s' : state) :
  (forall e, P e -> Q e) -> extends P s s' -> extends Q s s'.
Proof.
  intros HPQ (new & E & F). exists new. split; [exact E|].
  eapply Forall_impl; [exact HPQ|exact F].
Qed.

Lemma extends_emit (P : event -> Prop) (e : event) :
  P e -> preserves (extends P) (emit e).
Proof. intros He st. exists [e]. simpl. split; [reflexivity|]. now constructor. Qed.

Lemma same_fs_emit (e : event) : preserves same_fs (emit e).
Proof. intros st. reflexivity. Qed.

Lemma keeps_files_emit (e : event) : preserves keeps_files (emit e).
Proof. intros st. apply same_fs_keeps_files, same_fs_emit. Qed.

(** A computation that leaves the state alone. *)
Definition silent {A} (m : M A) : Prop := forall st, snd (m st) = st.

Lemma silent_preserves (R : state -> state -> Prop) {RO : StateOrder R}
      {A} (m : M A) :
  silent m -> preserves R m.
Proof. intros Hs st. rewrite Hs. apply so_refl. Qed.

(** ** Computations that do not raise *)

Definition safe {A} (m : M A) : Prop := forall st, exists a, fst (m st) = Ok a.

Lemma safe_ret {A} (a : A) : safe (ret a).
Proof. intros st. now exists a. Qed.

Lemma safe_emit (e : event) : safe (emit e).
Proof. intros st. now exists tt. Qed.

Lemma safe_bind {A B} (m : M A) (k : A -> M B) :
  safe m -> (forall a, safe (k a)) -> safe (bind m k).
Proof.
  intros Hm Hk st. unfold bind. destruct (Hm st) as [a Ha].
  destruct (m st) as [[a'|e] st1]; simpl in Ha; [|discriminate].
  apply Hk.
Qed.

Lemma safe_catch {A} (m : M A) (h : string -> M A) :
  (forall e, safe (h e)) -> safe (catch m h).
Proof.
  intros Hh st. unfold catch.
  destruct (m st) as [[a|e] st1]; [now exists a|apply Hh].
Qed.

Lemma safe_for_each {X} (l : list X) (body : X -> M unit) :
  (forall x, safe (body x)) -> safe (for_each l body).
Proof.
  intros Hb. induction l as [|x l IH]; simpl; [apply safe_ret|].
  apply safe_bind; [apply Hb|intros _; exact IH].
Qed.

Lemma safe_call {X} (cb : option (X -> event)) (x : X) : safe (call cb x).
Proof. destruct cb; [apply safe_emit|apply safe_ret]. Qed.

(** ** What a computation can return *)

Definition yields {A} (Q : A -> Prop) (m : M A) : Prop :=
  forall st a, fst (m st) = Ok a -> Q a.

Lemma yields_ret {A} (Q : A -> Prop) (a : A) : Q a -> yields Q (ret a).
Proof. intros Ha st a'. simpl. now intros [= <-]. Qed.

Lemma yields_raise {A} (Q : A -> Prop) (e : string) : yields Q (@raise A e).
Proof. intros st a. discriminate. Qed.

Lemma yields_bind {A B} (Q : B -> Prop) (m : M A) (k : A -> M B) :
  (forall a, yields Q (k a)) -> yields Q (bind m k).
Proof.
  intros Hk st b. unfold bind.
  destruct (m st) as [[a|e] st1]; [apply Hk|discriminate].
Qed.

(** The two ways out of a [try]. *)
Lemma catch_cases {A} (m : M A) (h : string -> M A) (st : state) :
  (exists a, m st = (Ok a, snd (m st)) /\ catch m h st = m st)
  \/ (exists e, m st = (Raise e, snd (m st))
                /\ catch m h st = h e (snd (m st))).
Proof.
  unfold catch. destruct (m st) as [[a|e] st1]; simpl; eauto.
Qed.


End Runs.

(* ================================================================== *)
(** * Facts about the launcher's helpers *)
(* ================================================================== *)

Module LoaderFacts.

Import Runs Loader PyStr.
Local Open Scope string_scope.

(** The events of the helpers: records, progress and status reports
    other than the two of the launch itself; never a [Finished] signal,
    never a spawn, never the record that opens the jar collection. *)
Definition quiet (e : event) : bool :=
  match e with
  | Log INFO msg => negb (String.eqb msg "Collected classpath jars:")
  | Log _ _ => true
  | Status text =>
      negb (String.eqb text "args.txt written")
      && negb (String.eqb text "Launching Java process...")
  | Progress _ => true
  | Finished _ _ => false
  | Spawn _ => false
  end.

Definition is_quiet (e : event) : Prop := quiet e = true.

(** The events that belong to the assembly and the launch of the plan:
    the record that opens the jar collection, the status reports that
    [args.txt] is written and that the process is being launched, a
    spawn, and the [Finished] signal of success. *)
Definition plan_event (e : event) : bool :=
  match e with
  | Log INFO msg => String.eqb msg "Collected classpath jars:"
  | Status text =>
      String.eqb text "args.txt written"
      || String.eqb text "Launching Java process..."
  | Spawn _ => true
  | Finished ok _ => ok
  | _ => false
  end.

Definition not_plan (e : event) : Prop := plan_event e = false.

Definition java_not_found : event :=
  Finished false "Java not found. Set path in Settings.".

Definition is_java_not_found (e : event) : bool :=
  match e with
  | Finished false msg => String.eqb msg "Java not found. Set path in Settings."
  | _ => false
  end.

(** The events of a launch before the plan is assembled. *)
Definition early (e : event) : bool :=
  negb (plan_event e) && negb (is_java_not_found e).

Definition is_early (e : event) : Prop := early e = true.

Lemma quiet_early (e : event) : is_quiet e -> is_early e.
Proof.
  unfold is_quiet, is_early, early.
  destruct e as [[| | |] msg|text| | |]; simpl; try congruence.
  - now rewrite andb_true_r.
  - intros Q. apply andb_true_iff in Q as [Q1 Q2].
    apply negb_true_iff in Q1, Q2. now rewrite Q1, Q2.
Qed.

Lemma early_not_plan (e : event) : is_early e -> not_plan e.
Proof.
  unfold is_early, early, not_plan. intros E.
  apply andb_true_iff in E as [E _]. now apply negb_true_iff in E.
Qed.

Lemma quiet_not_plan (e : event) : is_quiet e -> not_plan e.
Proof. intros Q. now apply early_not_plan, quiet_early. Qed.

(** The trace grows by events satisfying [P] and no regular file
    disappears. *)
Definition grows (P : event -> Prop) (s s' : state) : Prop :=
  extends P s s' /\ keeps_files s s'.

(** The trace grows by events satisfying [P] and the filesystem is
    untouched. *)
Definition logs (P : event -> Prop) (s s' : state) : Prop :=
  extends P s s' /\ same_fs s s'.

#[export] Instance grows_order (P : event -> Prop) : StateOrder (grows P).
Proof.
  split.
  - intros s. split; apply so_refl.
  - intros a b c [E1 K1] [E2 K2]. split; eapply so_trans; eassumption.
Qed.

#[export] Instance logs_order (P : event -> Prop) : StateOrder (logs P).
Proof.
  split.
  - intros s. split; apply so_refl.
  - intros a b c [E1 K1] [E2 K2]. split; eapply so_trans; eassumption.
Qed.

Lemma logs_grows (P : event -> Prop) (s s' : state) : logs P s s' -> grows P s s'.
Proof. intros [E F]. split; [exact E|now apply same_fs_keeps_files]. Qed.

Lemma grows_weaken (P Q : event -> Prop) (s s' : state) :
  (forall e, P e -> Q e) -> grows P s s' -> grows Q s s'.
Proof. intros HPQ [E K]. split; [now apply extends_weaken with (P := P)|exact K]. Qed.

Lemma preserves_logs_grows (P : event -> Prop) {A} (m : M A) :
  preserves (logs P) m -> preserves (grows P) m.
Proof. intros Hm st. apply logs_grows, Hm. Qed.

Lemma preserves_grows_weaken (P Q : event -> Prop) {A} (m : M A) :
  (forall e, P e -> Q e) -> preserves (grows P) m -> preserves (grows Q) m.
Proof. intros HPQ Hm st. eapply grows_weaken; [exact HPQ|apply Hm]. Qed.

Lemma logs_emit (P : event -> Prop) (e : event) :
  P e -> preserves (logs P) (emit e).
Proof.
  intros Q st. split; [now apply extends_emit|apply same_fs_emit].
Qed.

Lemma grows_emit (P : event -> Prop) (e : event) :
  P e -> preserves (grows P) (emit e).
Proof. intros Q. now apply preserves_logs_grows, logs_emit. Qed.

Lemma same_trace_extends (P : event -> Prop) (s s' : state) :
  trace s' = trace s -> extends P s s'.
Proof. intros E. exists []. rewrite E, app_nil_r. now split. Qed.

(** The paths of the configuration are not empty. *)
Ltac known_paths H :=
  change (located H CLIENT_DIR)
    with (fun st => FS.lookup (fs st) (OsPath.components (is_windows H) CLIENT_DIR))
    in *;
  change (located H CLIENT_ZIP_PATH)
    with (fun st => FS.lookup (fs st)
                              (OsPath.components (is_windows H) CLIENT_ZIP_PATH))
    in *;
  cbv beta in *.

Section WithHost.
Variable H : Host.

(** ** The primitives *)

Lemma located_eq (p : string) (st : state) :
  p <> "" ->
  located H p st = FS.lookup (fs st) (OsPath.components (is_windows H) p).
Proof. destruct p; [congruence|reflexivity]. Qed.

Lemma silent_os_path_exists (p : string) : silent (os_path_exists H p).
Proof. intros st. reflexivity. Qed.

Lemma silent_os_path_isdir (p : string) : silent (os_path_isdir H p).
Proof. intros st. reflexivity. Qed.

Lemma silent_os_listdir (p : string) : silent (os_listdir H p).
Proof.
  intros st. unfold os_listdir.
  now destruct (located H p st) as [[x r|es]|].
Qed.

Lemma silent_os_walk (p : string) : silent (os_walk H p).
Proof. intros st. unfold os_walk. now destruct (located H p st). Qed.

Lemma silent_file_read (p : string) : silent (file_read H p).
Proof. intros st. unfold file_read. now destruct p. Qed.

Lemma silent_lift {A} (r : Result A) : silent (lift r).
Proof. intros st. reflexivity. Qed.

Lemma grows_os_makedirs (P : event -> Prop) (p : string) :
  preserves (grows P) (os_makedirs H p).
Proof.
  intros st. unfold os_makedirs. destruct p as [|c p]; [apply so_refl|].
  destruct (FS.makedirs _ (fs st) _) as [n res] eqn:Mk.
  split; [now apply same_trace_extends|].
  intros q x r L. simpl. exists x, r.
  eapply FSFacts.makedirs_keeps_files; eassumption.
Qed.

Lemma grows_open_write (P : event -> Prop) (p : string) :
  preserves (grows P) (open_write H p).
Proof.
  intros st. unfold open_write. destruct p as [|c p]; [apply so_refl|].
  destruct (creatable H _ st); [|apply so_refl].
  destruct (FS.write (fs st) _ _) as [n|e] eqn:W; [|apply so_refl].
  split; [now apply same_trace_extends|].
  intros q x r L. simpl. eapply FSFacts.write_keeps_files; eassumption.
Qed.

Lemma grows_file_write (P : event -> Prop) (p data : string) :
  preserves (grows P) (file_write H p data).
Proof.
  intros st. unfold file_write.
  destruct (FS.read (fs st) _) as [old|e]; [|apply so_refl].
  destruct (FS.write (fs st) _ _) as [n|e] eqn:W; [|apply so_refl].
  split; [now apply same_trace_extends|].
  intros q x r L. simpl. eapply FSFacts.write_keeps_files; eassumption.
Qed.

(** ** Stepping through a computation *)

Ltac run_step :=
  match goal with
  | |- preserves _ (ret _) => apply preserves_ret; exact _
  | |- preserves _ (raise _) => apply preserves_raise; exact _
  | |- preserves _ (bind _ _) => apply preserves_bind; [exact _| |intros ?]
  | |- preserves _ (catch _ _) => apply preserves_catch; [exact _| |intros ?]
  | |- preserves _ (for_each _ _) =>
      apply preserves_for_each; [exact _|intros ?]
  | |- preserves _ (read_local _ _) => apply preserves_read_local; exact _
  | |- preserves _ (lift _) =>
      apply silent_preserves; [exact _|apply silent_lift]
  | |- preserves _ (os_path_exists _ _) =>
      apply silent_preserves; [exact _|apply silent_os_path_exists]
  | |- preserves _ (os_path_isdir _ _) =>
      apply silent_preserves; [exact _|apply silent_os_path_isdir]
  | |- preserves _ (os_listdir _ _) =>
      apply silent_preserves; [exact _|apply silent_os_listdir]
  | |- preserves _ (os_walk _ _) =>
      apply silent_preserves; [exact _|apply silent_os_walk]
  | |- preserves _ (file_read _ _) =>
      apply silent_preserves; [exact _|apply silent_file_read]
  | |- preserves (grows _) (os_makedirs _ _) => apply grows_os_makedirs
  | |- preserves (grows _) (open_write _ _) => apply grows_open_write
  | |- preserves (grows _) (file_write _ _ _) => apply grows_file_write
  | |- preserves (grows _) (emit _) => apply grows_emit; reflexivity
  | |- preserves (logs _) (emit _) => apply logs_emit; reflexivity
  | |- preserves _ (logger _ _) => unfold logger
  | |- preserves _ (call _ _) => unfold call
  | |- preserves _ (if ?b then _ else _) => destruct b
  | |- preserves _ (match ?x with _ => _ end) => destruct x
  end.

Ltac run_steps := repeat run_step.

(** ** The utilities *)

Lemma grows_safe_makedirs (path : string) :
  preserves (grows is_quiet) (safe_makedirs H path).
Proof. unfold safe_makedirs. run_steps. Qed.

Lemma logs_find_bundled (client_dir : string) (entries : list string) :
  preserves (logs is_quiet) (find_bundled H client_dir entries).
Proof.
  induction entries as [|entry rest IH]; simpl; [run_steps|].
  destruct (_ || _); [|exact IH].
  run_step; [run_step|]. destruct a; [run_steps|exact IH].
Qed.

Lemma logs_find_java_executable (client_dir : string) :
  preserves (logs is_quiet) (find_java_executable H client_dir).
Proof.
  unfold find_java_executable.
  run_step.
  - run_step; [|run_steps]. run_step; [run_step|].
    destruct a; [|run_steps]. run_step; [run_step|]. apply logs_find_bundled.
  - run_steps.
Qed.

(** ** The fetcher *)

Lemma grows_write_chunks (dest_path : string) (total : Z) (downloaded : Z)
      (chunks : list string) :
  preserves (grows is_quiet)
            (write_chunks H dest_path total (Some Progress) downloaded chunks).
Proof.
  revert downloaded; induction chunks as [|chunk rest IH]; intros downloaded;
    simpl; [run_steps|].
  destruct chunk as [|c chunk]; [apply IH|].
  run_step; [run_step|]. run_step; [run_steps|]. apply IH.
Qed.

Lemma grows_fetch (url dest_path : string) :
  preserves (grows is_quiet)
            (fetch H url dest_path (Some Progress) (Some Status)).
Proof.
  unfold fetch, content_length_total.
  run_step; [apply grows_safe_makedirs|].
  run_step; [run_step|]. run_step; [run_steps|].
  run_step; [run_steps|]. run_step; [run_step|].
  run_step; [apply grows_write_chunks|]. run_steps.
Qed.

Lemma grows_download_file (url dest_path : string) :
  preserves (grows is_quiet)
            (download_file H url dest_path (Some Progress) (Some Status)).
Proof.
  unfold download_file.
  run_step; [apply grows_fetch|run_steps].
Qed.

(** ** The extractor *)

Lemma grows_copy_member (member : ZipInfo) (path : string) :
  preserves (grows is_quiet) (copy_member H member path).
Proof. unfold copy_member. run_steps. Qed.

Lemma grows_extract_member (target_dir : string) (total idx extracted : nat)
      (member : ZipInfo) :
  preserves (grows is_quiet)
            (extract_member H target_dir total (Some Progress) (Some Status)
                            idx extracted member).
Proof.
  unfold extract_member.
  run_step.
  - unfold make_parent.
    destruct (OsPath.dirname _ _); [run_step|apply grows_safe_makedirs].
  - destruct (is_directory_entry H member); [run_step|].
    run_step.
    + run_step; [apply grows_copy_member|].
      run_step; [run_steps|]. run_step; [apply grows_copy_member|run_steps].
    + run_steps.
Qed.

Lemma grows_extract_members (target_dir : string) (total : nat)
      (members : list ZipInfo) :
  forall idx extracted,
    preserves (grows is_quiet)
              (extract_members H target_dir total (Some Progress) (Some Status)
                               idx extracted members).
Proof.
  induction members as [|member rest IH]; intros idx extracted; simpl;
    [run_steps|].
  run_step; [apply grows_extract_member|apply IH].
Qed.

Lemma grows_extract_zip_manual (zip_path target_dir : string) :
  preserves (grows is_quiet)
            (extract_zip_manual H zip_path target_dir (Some Progress) (Some Status)).
Proof.
  unfold extract_zip_manual, unpack, zip_infolist.
  run_step.
  - run_step; [run_steps|].
    run_step; [apply grows_extract_members|]. run_steps.
  - run_steps.
Qed.

(** ** The verifier *)

Lemma logs_check_required (acc : list string * list string) (rel : string) :
  preserves (logs is_quiet) (check_required H acc rel).
Proof. unfold check_required. destruct acc as [missing details]. run_steps. Qed.

Lemma logs_fold_check (rels : list string) :
  forall acc, preserves (logs is_quiet) (fold_m (check_required H) rels acc).
Proof.
  induction rels as [|rel rels IH]; intros acc; simpl; [run_steps|].
  run_step; [apply logs_check_required|apply IH].
Qed.

Lemma logs_scan_required : preserves (logs is_quiet) (scan_required H).
Proof.
  unfold scan_required.
  run_step; [apply logs_fold_check|].
  destruct a as [missing details]. run_steps.
Qed.

Lemma logs_check_required_files :
  preserves (logs is_quiet) (_check_required_files H).
Proof.
  unfold _check_required_files.
  run_step; [apply logs_scan_required|].
  destruct a as [missing details]. run_steps.
Qed.

(** ** Helpers that never raise *)

Ltac safe_step :=
  match goal with
  | |- safe (ret _) => apply safe_ret
  | |- safe (emit _) => apply safe_emit
  | |- safe (logger _ _) => apply safe_emit
  | |- safe (call _ _) => apply safe_call
  | |- safe (bind _ _) => apply safe_bind; [|intros ?]
  | |- safe (catch _ _) => apply safe_catch; intros ?
  | |- safe (for_each _ _) => apply safe_for_each; intros ?
  | |- safe (os_path_exists _ _) => intros ?; eexists; reflexivity
  | |- safe (os_path_isdir _ _) => intros ?; eexists; reflexivity
  | |- safe (if ?b then _ else _) => destruct b
  | |- safe (match ?x with _ => _ end) => destruct x
  end.

Ltac safe_steps := repeat safe_step.

Lemma safe_os_walk (top : string) : safe (os_walk H top).
Proof.
  intros st. unfold os_walk. destruct (located H top st); eexists; reflexivity.
Qed.

Lemma safe_safe_makedirs (path : string) : safe (safe_makedirs H path).
Proof. unfold safe_makedirs. safe_steps. Qed.

Lemma safe_download_file (url dest_path : string)
      (pcb : option (Z -> event)) (scb : option (string -> event)) :
  safe (download_file H url dest_path pcb scb).
Proof. unfold download_file. safe_steps. Qed.

Lemma safe_extract_zip_manual (zip_path target_dir : string)
      (pcb : option (Z -> event)) (scb : option (string -> event)) :
  safe (extract_zip_manual H zip_path target_dir pcb scb).
Proof. unfold extract_zip_manual. safe_steps. Qed.

Lemma safe_check_required (acc : list string * list string) (rel : string) :
  safe (check_required H acc rel).
Proof.
  unfold check_required. destruct acc as [missing details].
  destruct (endswith_any _ _).
  - safe_step; [safe_step|]. destruct (negb a); [safe_step|].
    safe_step; [apply safe_os_walk|]. safe_steps.
  - safe_steps.
Qed.

Lemma safe_fold_check (rels : list string) :
  forall acc, safe (fold_m (check_required H) rels acc).
Proof.
  induction rels as [|rel rels IH]; intros acc; simpl; [safe_steps|].
  safe_step; [apply safe_check_required|apply IH].
Qed.

Lemma safe_scan_required : safe (scan_required H).
Proof.
  unfold scan_required.
  safe_step; [apply safe_fold_check|].
  destruct a as [missing details]. safe_steps.
Qed.

Lemma safe_check_required_files : safe (_check_required_files H).
Proof.
  unfold _check_required_files.
  safe_step; [apply safe_scan_required|].
  destruct a as [missing details]. safe_steps.
Qed.

Lemma safe_restore (missing : list string) : safe (restore H missing).
Proof.
  unfold restore.
  safe_step; [safe_step|]. safe_step; [safe_step|].
  destruct a0.
  - safe_step; [apply safe_extract_zip_manual|]. safe_steps.
  - safe_step; [apply safe_download_file|].
    destruct (negb a0); [safe_steps|].
    safe_step; [apply safe_extract_zip_manual|]. safe_steps.
Qed.

(** ** The restore step *)

(** The run stopped with a [Finished] signal of failure, after events
    satisfying [P]. *)
Definition failed_after (P : event -> Prop) (s s' : state) : Prop :=
  exists mid msg,
    grows P s mid /\ fs s' = fs mid
    /\ trace s' = (trace mid ++ [Finished false msg])%list
    /\ P (Finished false msg).

Lemma run_safe {A} (m : M A) (st : state) :
  safe m -> exists a, m st = (Ok a, snd (m st)).
Proof.
  intros Hs. destruct (Hs st) as [a Ha]. exists a.
  destruct (m st) as [r s]. simpl in *. now subst.
Qed.

Lemma grows_then_finished (P : event -> Prop) (s mid : state) (msg : string) :
  grows P s mid -> P (Finished false msg) ->
  failed_after P s (snd (emit (Finished false msg) mid)).
Proof. intros G HP. exists mid, msg. simpl. auto. Qed.

Lemma grows_quiet_early (s s' : state) :
  grows is_quiet s s' -> grows is_early s s'.
Proof. apply grows_weaken, quiet_early. Qed.

Lemma grows_early_not_plan (s s' : state) :
  grows is_early s s' -> grows not_plan s s'.
Proof. apply grows_weaken, early_not_plan. Qed.

Lemma failed_after_weaken (P Q : event -> Prop) (s s' : state) :
  (forall e, P e -> Q e) -> failed_after P s s' -> failed_after Q s s'.
Proof.
  intros HPQ (mid & msg & G & F & E & HP). exists mid, msg.
  split; [now apply grows_weaken with (P := P)|auto].
Qed.

Lemma restore_outcome (missing : list string) (st : state) :
  (fst (restore H missing st) = Ok true
   /\ grows is_early st (snd (restore H missing st)))
  \/ (fst (restore H missing st) = Ok false
      /\ failed_after is_early st (snd (restore H missing st))).
Proof.
  unfold restore.
  unfold bind, emit, os_path_exists.
  set (s0 := {| fs := fs st; trace := _ |}).
  assert (G0 : grows is_early st s0).
  { apply (grows_emit is_early (Status ("Missing " ++ str_of_nat (List.length missing)
                                         ++ " items. Trying to restore..."))).
    reflexivity. }
  destruct (located H CLIENT_ZIP_PATH s0) as [zip|].
  - destruct (run_safe (extract_zip_manual H CLIENT_ZIP_PATH CLIENT_DIR
                          (Some Progress) (Some Status)) s0
                       (safe_extract_zip_manual _ _ _ _)) as [ok E].
    pose proof (grows_extract_zip_manual CLIENT_ZIP_PATH CLIENT_DIR s0) as G1.
    apply grows_quiet_early in G1.
    rewrite E. destruct ok; simpl.
    + left. split; [reflexivity|]. eapply so_trans; eassumption.
    + right. split; [reflexivity|].
      apply grows_then_finished; [eapply so_trans; eassumption|reflexivity].
  - destruct (run_safe (download_file H CLIENT_ZIP_URL CLIENT_ZIP_PATH
                          (Some Progress) (Some Status)) s0
                       (safe_download_file _ _ _ _)) as [ok E].
    pose proof (grows_download_file CLIENT_ZIP_URL CLIENT_ZIP_PATH s0) as G1.
    apply grows_quiet_early in G1.
    assert (G01 : grows is_early st
                    (snd (download_file H CLIENT_ZIP_URL CLIENT_ZIP_PATH
                            (Some Progress) (Some Status) s0))).
    { eapply so_trans; eassumption. }
    rewrite E. destruct ok; simpl.
    + set (s1 := snd (download_file H CLIENT_ZIP_URL CLIENT_ZIP_PATH
                        (Some Progress) (Some Status) s0)) in *.
      destruct (run_safe (extract_zip_manual H CLIENT_ZIP_PATH CLIENT_DIR
                            (Some Progress) (Some Status)) s1
                         (safe_extract_zip_manual _ _ _ _)) as [ok E2].
      pose proof (grows_extract_zip_manual CLIENT_ZIP_PATH CLIENT_DIR s1) as G2.
      apply grows_quiet_early in G2.
      rewrite E2. destruct ok; simpl.
      * left. split; [reflexivity|]. eapply so_trans; eassumption.
      * right. split; [reflexivity|].
        apply grows_then_finished; [eapply so_trans; eassumption|reflexivity].
    + right. split; [reflexivity|].
      apply grows_then_finished; [assumption|reflexivity].
Qed.

(** ** The launch procedure up to the re-check *)

Lemma logs_quiet_grows_early {A} (m : M A) (st : state) :
  preserves (logs is_quiet) m -> grows is_early st (snd (m st)).
Proof. intros Hm. apply grows_quiet_early, logs_grows, Hm. Qed.

(** What the last required-file check of a launch started in [st]
    reported: the first check, or the re-check when the restore step
    got that far. *)
Definition last_check (st : state) : list string :=
  let st0 := snd (emit (Status "Preparing launch...") st) in
  match _check_required_files H st0 with
  | (Ok (x :: l), st1) =>
      match restore H (x :: l) st1 with
      | (Ok true, st2) =>
          match fst (_check_required_files H st2) with
          | Ok missing2 => missing2
          | Raise _ => x :: l
          end
      | _ => x :: l
      end
  | _ => []
  end.

(** The launch procedure, one case per way through the restore. *)
Lemma launch_procedure_cases (self : Launcher) (st : state) :
  launch_procedure H self st
  = match _check_required_files H (snd (emit (Status "Preparing launch...") st)) with
    | (Ok [], st1) =>
        assemble_and_launch H self
          (snd (emit (Status "All required files present") st1))
    | (Ok (x :: l), st1) =>
        match restore H (x :: l) st1 with
        | (Ok true, st2) =>
            match _check_required_files H st2 with
            | (Ok [], st3) => assemble_and_launch H self st3
            | (Ok (y :: l2), st3) =>
                (Ok tt,
                 {| fs := fs st3;
                    trace := (trace st3
                                ++ [Log ERROR (still_missing_message (y :: l2));
                                    Finished false (still_missing_message (y :: l2))])%list |})
            | (Raise e, st3) => (Raise e, st3)
            end
        | (Ok false, st2) => (Ok tt, st2)
        | (Raise e, st2) => (Raise e, st2)
        end
    | (Raise e, st1) => (Raise e, st1)
    end.
Proof.
  unfold launch_procedure, bind. cbn [emit fst snd].
  destruct (_check_required_files H _) as [[[|x l]|e] st1]; try reflexivity.
  destruct (restore H (x :: l) st1) as [[[|]|e] st2]; try reflexivity.
  destruct (_check_required_files H st2) as [[[|y l2]|e] st3]; try reflexivity.
  unfold logger, emit. simpl. now rewrite <- app_assoc.
Qed.

(** C5.  When the last required-file check of a launch still reports
    missing items (the re-check after a restore, or the first check when
    the restore itself failed), the procedure returns after a [Finished]
    signal of failure, and nothing it emitted before belongs to the
    assembly of the plan: no jar collection, no [args.txt], no launch
    status, no spawn. *)
Theorem launch_stops_while_missing (self : Launcher) (st : state) :
  last_check st <> [] ->
  fst (launch_procedure H self st) = Ok tt
  /\ exists new msg,
      trace (snd (launch_procedure H self st))
      = (trace st ++ new ++ [Finished false msg])%list
      /\ Forall not_plan new.
Proof.
  rewrite launch_procedure_cases. unfold last_check.
  set (s0 := snd (emit (Status "Preparing launch...") st)).
  assert (G0 : grows is_early st s0).
  { apply (grows_emit is_early (Status "Preparing launch...")). reflexivity. }
  pose proof (logs_quiet_grows_early _ s0 logs_check_required_files) as G1.
  destruct (safe_check_required_files s0) as [m1 S1].
  destruct (_check_required_files H s0) as [r1 s1]. simpl in S1, G1. subst r1.
  destruct m1 as [|x l]; [congruence|].
  destruct (restore_outcome (x :: l) s1) as [[R G2]|[R F2]];
    destruct (restore H (x :: l) s1) as [r s2]; simpl in R; subst r;
    cbn [fst snd] in *.
  - pose proof (logs_quiet_grows_early _ s2 logs_check_required_files) as G3.
    destruct (safe_check_required_files s2) as [m2 S2].
    destruct (_check_required_files H s2) as [r2 s3]. simpl in S2, G3. subst r2.
    cbn [fst]. destruct m2 as [|y l2]; [congruence|]. intros _.
    split; [reflexivity|].
    assert (G : grows is_early st s3).
    { eapply so_trans; [exact G0|]. eapply so_trans; [exact G1|].
      eapply so_trans; [exact G2|exact G3]. }
    destruct G as [(new & En & Fn) _].
    exists (new ++ [Log ERROR (still_missing_message (y :: l2))])%list,
           (still_missing_message (y :: l2)).
    cbn [snd trace]. rewrite En. split.
    + now rewrite <- !app_assoc.
    + apply Forall_app. split.
      * eapply Forall_impl; [apply early_not_plan|exact Fn].
      * now constructor.
  - intros _. split; [reflexivity|].
    destruct F2 as (mid & msg & Gm & _ & Em & _).
    assert (G : grows is_early st mid).
    { eapply so_trans; [exact G0|]. eapply so_trans; [exact G1|exact Gm]. }
    destruct G as [(new & En & Fn) _].
    exists new, msg. rewrite Em, En. split; [now rewrite <- app_assoc|].
    eapply Forall_impl; [apply early_not_plan|exact Fn].
Qed.

(** ** Finding java and launching *)

Lemma safe_find_bundled (client_dir : string) (entries : list string) :
  safe (find_bundled H client_dir entries).
Proof.
  induction entries as [|entry rest IH]; simpl; [safe_steps|].
  destruct (_ || _); [|exact IH].
  safe_step; [safe_step|]. destruct a; [safe_steps|exact IH].
Qed.

Lemma safe_find_java_executable (client_dir : string) :
  safe (find_java_executable H client_dir).
Proof. unfold find_java_executable. safe_steps. Qed.

(** Once the lookup is over, [find_and_launch] either reports that java
    was not found or stops on the unbound [cmd]; the lookup itself only
    writes to the log. *)
Lemma find_and_launch_outcome (self : Launcher) (st : state) :
  exists mid,
    logs is_quiet st mid
    /\ (find_and_launch H self st = (Ok tt, snd (emit java_not_found mid))
        \/ find_and_launch H self st = (Raise (unbound_local_error "cmd"), mid)).
Proof.
  assert (L : exists j mid,
             (if truthy (java_path self) then ret (java_path self)
              else find_java_executable H CLIENT_DIR) st = (Ok j, mid)
             /\ logs is_quiet st mid).
  { destruct (truthy (java_path self)).
    - exists (java_path self), st. split; [reflexivity|apply so_refl].
    - destruct (run_safe (find_java_executable H CLIENT_DIR) st
                         (safe_find_java_executable _)) as [j E].
      exists j, (snd (find_java_executable H CLIENT_DIR st)).
      split; [exact E|apply logs_find_java_executable]. }
  destruct L as (j & mid & EL & G). exists mid. split; [exact G|].
  set (r := find_and_launch H self st).
  assert (Er : r = find_and_launch H self st) by reflexivity.
  unfold find_and_launch in Er. unfold bind at 1 in Er. rewrite EL in Er.
  unfold bind at 1 in Er. rewrite Er. clear Er r.
  destruct j as [j|]; [destruct (truthy (Some j))|]; simpl;
    try (left; reflexivity).
  destruct (located H j mid); simpl; [right|left]; reflexivity.
Qed.

(** ** The jar collection *)

Definition is_dir_at (p : string) (st : state) : bool :=
  match located H p st with
  | Some (FS.Dir _) => true
  | _ => false
  end.

Definition exists_at (p : string) (st : state) : bool :=
  match located H p st with
  | Some _ => true
  | None => false
  end.

Definition walk_at (top : string) (st : state)
  : list (string * list string * list string) :=
  match located H top st with
  | Some n => FS.walk (OsPath.path_join (is_windows H)) top n
  | None => []
  end.

(** The three passes of the collection. *)
Definition library_pass (st : state) : list string :=
  if is_dir_at (libraries_dir H) st
  then jars_of_walk H (walk_at (libraries_dir H) st) else [].

Definition version_pass (st : state) : list string :=
  if exists_at (version_jar H) st then [version_jar H] else [].

Definition client_pass (st : state) : list string :=
  if is_dir_at CLIENT_DIR st
  then jars_of_walk H (walk_at CLIENT_DIR st) else [].

Definition collected (st : state) : list string :=
  (library_pass st ++ version_pass st ++ client_pass st)%list.

Lemma collect_jars_run (st : state) :
  collect_jars H st = (Ok (collected st), st).
Proof.
  unfold collect_jars, collected, library_pass, version_pass, client_pass,
    is_dir_at, exists_at, walk_at, bind, os_path_isdir, os_path_exists, os_walk,
    ret.
  destruct (located H (libraries_dir H) st) as [[x1 r1|es1]|] eqn:E1;
    destruct (located H (version_jar H) st) as [n2|] eqn:E2;
    destruct (located H CLIENT_DIR st) as [[x3 r3|es3]|] eqn:E3;
    cbv beta iota; rewrite ?E1; cbv beta iota; rewrite ?E3; cbv beta iota;
    rewrite ?E2; cbv beta iota; rewrite ?E3; reflexivity.
Qed.

(** ** Files being written *)

(** All the strings of a list, one after the other. *)
Definition concat_all (l : list string) : string :=
  fold_right String.append EmptyString l.

(** The file at [p] has just been written and holds [c]. *)
Definition holds (p c : string) (st : state) : Prop :=
  exists n0, FS.write n0 (OsPath.components (is_windows H) p) c = Ok (fs st).

Lemma holds_read (p c : string) (st : state) :
  holds p c st -> FS.read (fs st) (OsPath.components (is_windows H) p) = Ok c.
Proof.
  intros [n0 W]. unfold FS.read. now rewrite (FSFacts.lookup_write _ _ _ _ W).
Qed.

Lemma holds_after_trace (p c : string) (st : state) (evs : list event) :
  holds p c st -> holds p c {| fs := fs st; trace := evs |}.
Proof. intros Hh. exact Hh. Qed.

Lemma open_write_cases (p : string) (st : state) :
  (exists e, open_write H p st = (Raise e, st))
  \/ (exists st', open_write H p st = (Ok tt, st')
                  /\ holds p "" st' /\ trace st' = trace st).
Proof.
  unfold open_write. destruct p as [|a p]; [left; eauto|].
  destruct (creatable H _ st); [|left; eauto].
  destruct (FS.write (fs st) _ _) as [n|e] eqn:W; [right|left; eauto].
  eexists. split; [reflexivity|]. split; [|reflexivity]. now exists (fs st).
Qed.

Lemma file_write_holds (p c data : string) (st : state) :
  holds p c st ->
  exists st', file_write H p data st = (Ok tt, st')
              /\ holds p (c ++ data) st' /\ trace st' = trace st.
Proof.
  intros Hh. unfold file_write. rewrite (holds_read _ _ _ Hh).
  destruct Hh as [n0 W].
  destruct (FSFacts.write_again _ _ _ _ (c ++ data) W) as [n' W'].
  rewrite W'. eexists. split; [reflexivity|]. split; [|reflexivity].
  now exists (fs st).
Qed.

Lemma append_assoc (a b c : string) : (a ++ b) ++ c = a ++ (b ++ c).
Proof. induction a as [|x a IH]; simpl; [reflexivity|now rewrite IH]. Qed.

Lemma append_empty_r (a : string) : a ++ "" = a.
Proof. induction a as [|x a IH]; simpl; [reflexivity|now rewrite IH]. Qed.

Lemma for_each_file_write (p : string) (lines : list string) :
  forall c st,
    holds p c st ->
    exists st', for_each lines (file_write H p) st = (Ok tt, st')
                /\ holds p (c ++ concat_all lines) st' /\ trace st' = trace st.
Proof.
  induction lines as [|line lines IH]; intros c st Hh; simpl.
  - exists st. rewrite append_empty_r. auto.
  - unfold bind.
    destruct (file_write_holds p c line st Hh) as (s1 & -> & H1 & T1).
    destruct (IH _ s1 H1) as (s2 & -> & H2 & T2).
    exists s2. rewrite <- append_assoc. split; [reflexivity|].
    split; [exact H2|congruence].
Qed.

(** ** Writing the arguments file *)

(** Anything but a spawn, the launch status, a [Finished] signal of
    success and the java-not-found signal. *)
Definition harmless (e : event) : bool :=
  match e with
  | Spawn _ => false
  | Finished ok _ => negb ok && negb (is_java_not_found e)
  | Status text => negb (String.eqb text "Launching Java process...")
  | _ => true
  end.

Definition is_harmless (e : event) : Prop := harmless e = true.

Lemma early_harmless (e : event) : is_early e -> is_harmless e.
Proof.
  unfold is_early, early, is_harmless.
  destruct e as [[| | |] msg|text| |[|] msg|]; simpl; try congruence.
  intros E. apply andb_true_iff in E as [E _]. apply negb_true_iff in E.
  apply orb_false_iff in E as [_ E]. now rewrite E.
Qed.

Lemma quiet_harmless (e : event) : is_quiet e -> is_harmless e.
Proof. intros Q. now apply early_harmless, quiet_early. Qed.

Lemma extends_nil (P : event -> Prop) (s s' : state) :
  extends P s s' -> exists new, trace s' = (trace s ++ new)%list /\ Forall P new.
Proof. intros E. exact E. Qed.

(** [write_args] either gives up with a [Finished] signal of failure,
    or leaves [args.txt] holding its lines and reports it. *)
Lemma write_args_outcome (self : Launcher) (classpath : string) (st : state) :
  exists mid,
    grows is_quiet st mid
    /\ ((exists e,
           write_args H self classpath st
           = (Ok false,
              {| fs := fs mid;
                 trace := (trace mid
                             ++ [Log ERROR "Failed to write args.txt";
                                 Finished false ("Failed to write args.txt: " ++ e)])%list |}))
        \/ (exists st',
              write_args H self classpath st = (Ok true, st')
              /\ holds (args_path H) (concat_all (args_lines H self classpath)) st'
              /\ trace st' = (trace mid ++ [Status "args.txt written"])%list)).
Proof.
  unfold write_args, catch, bind.
  destruct (run_safe (safe_makedirs H (OsPath.dirname (is_windows H) (args_path H)))
                     st (safe_safe_makedirs _)) as [[] E].
  rewrite E.
  set (mid := snd (safe_makedirs H (OsPath.dirname (is_windows H) (args_path H)) st)).
  exists mid. split; [apply grows_safe_makedirs|].
  destruct (open_write_cases (args_path H) mid) as [[e ->]|(s1 & -> & H1 & T1)].
  - left. exists e. unfold logger, emit. simpl. now rewrite <- app_assoc.
  - right. cbv beta iota.
    destruct (for_each_file_write (args_path H) (args_lines H self classpath)
                                  "" s1 H1) as (s2 & -> & H2 & T2).
    eexists. split; [reflexivity|]. simpl. split; [exact H2|congruence].
Qed.

Lemma logs_announce_jars (jars : list string) :
  preserves (logs is_harmless) (announce_jars jars).
Proof. unfold announce_jars. run_steps. Qed.

Lemma safe_announce_jars (jars : list string) : safe (announce_jars jars).
Proof. unfold announce_jars. safe_steps. Qed.

(** ** The assembly and the launch *)

Lemma holds_same_fs (p c : string) (s s' : state) :
  fs s' = fs s -> holds p c s -> holds p c s'.
Proof. intros E [n0 W]. exists n0. now rewrite E. Qed.

(** How a run of [assemble_and_launch] ends: with harmless events only,
    possibly stopped by the unbound [cmd] after [args.txt] was written;
    or, [args.txt] written, with the java-not-found signal after the
    records of the lookup. *)
Definition assembly_outcome (self : Launcher) (st : state)
           (out : Result unit * state) : Prop :=
  exists new,
    trace (snd out) = (trace st ++ new)%list
    /\ ((fst out = Ok tt /\ Forall is_harmless new)
        \/ (fst out = Raise (unbound_local_error "cmd")
            /\ Forall is_harmless new
            /\ In (Status "args.txt written") new)
        \/ (fst out = Ok tt
            /\ exists pre post classpath,
                new = (pre ++ Status "args.txt written" :: post ++ [java_not_found])%list
                /\ Forall is_harmless pre
                /\ Forall is_quiet post
                /\ holds (args_path H)
                         (concat_all (args_lines H self classpath)) (snd out))).

Ltac all_harmless :=
  repeat first
    [ assumption
    | apply Forall_nil
    | apply Forall_app; split
    | apply Forall_cons; [reflexivity|]
    | eapply Forall_impl; [apply quiet_harmless|eassumption] ].

Lemma assemble_and_launch_outcome (self : Launcher) (st : state) :
  assembly_outcome self st (assemble_and_launch H self st).
Proof.
  remember (assemble_and_launch H self st) as out eqn:Eo.
  unfold assemble_and_launch in Eo. unfold bind at 1 in Eo.
  rewrite collect_jars_run in Eo.
  set (jars := collected st) in Eo.
  unfold bind at 1 in Eo.
  destruct (run_safe (announce_jars jars) st (safe_announce_jars _)) as [[] E1].
  rewrite E1 in Eo. set (s1 := snd (announce_jars jars st)) in *.
  destruct (logs_announce_jars jars st) as [(n1 & T1 & F1) _]. fold s1 in T1.
  unfold bind at 1 in Eo.
  set (glog := match Guava._filter_guava_log (Loader.basename H) jars with
               | Some line => logger INFO line
               | None => ret tt
               end) in Eo.
  assert (G2 : exists s2 n2, glog s1 = (Ok tt, s2)
                             /\ trace s2 = (trace s1 ++ n2)%list
                             /\ Forall is_harmless n2).
  { unfold glog. destruct (Guava._filter_guava_log _ _) as [line|].
    - exists (snd (logger INFO line s1)), [Log INFO line].
      split; [reflexivity|]. split; [reflexivity|]. now constructor.
    - exists s1, []. split; [reflexivity|]. now rewrite app_nil_r. }
  destruct G2 as (s2 & n2 & E2 & T2 & F2). rewrite E2 in Eo.
  cbv zeta in Eo. unfold bind at 1 in Eo.
  set (cp := join (OsPath.pathsep (is_windows H))
                  (Guava._filter_guava_keep_latest (Loader.basename H) jars)) in Eo.
  destruct (write_args_outcome self cp s2)
    as (mid & [(n3 & T3 & F3) _] & [[e E3]|(s3 & E3 & H3 & T4)]);
    rewrite E3 in Eo.
  - (* the file could not be written *)
    subst out. unfold assembly_outcome. cbn [fst snd trace ret]. eexists. split.
    + rewrite T3, T2, T1, <- !app_assoc. reflexivity.
    + left. split; [reflexivity|]. all_harmless.
  - (* the file is written *)
    destruct (find_and_launch_outcome self s3)
      as (mid2 & [(n5 & T5 & F5) S5] & [E5|E5]); rewrite E5 in Eo;
      subst out; unfold assembly_outcome; cbn [fst snd trace emit].
    + eexists. split.
      * rewrite T5, T4, T3, T2, T1, <- !app_assoc. reflexivity.
      * right. right. split; [reflexivity|].
        exists (n1 ++ n2 ++ n3)%list, n5, cp.
        split; [now rewrite <- !app_assoc|].
        split; [all_harmless|].
        split; [exact F5|].
        apply holds_same_fs with (s := s3); [exact S5|exact H3].
    + eexists. split.
      * rewrite T5, T4, T3, T2, T1, <- !app_assoc. reflexivity.
      * right. left. split; [reflexivity|]. split; [all_harmless|].
        apply in_or_app. right. apply in_or_app. right.
        apply in_or_app. right. now left.
Qed.

(** ** The whole launch *)

(** A launch either stops before the assembly, having emitted early
    events only, or goes through the assembly from a state reached by
    early events. *)
Lemma launch_paths (self : Launcher) (st : state) :
  (fst (launch_procedure H self st) = Ok tt
   /\ exists new,
       trace (snd (launch_procedure H self st)) = (trace st ++ new)%list
       /\ Forall is_early new)
  \/ (exists sv,
        extends is_early st sv
        /\ launch_procedure H self st = assemble_and_launch H self sv).
Proof.
  rewrite launch_procedure_cases.
  set (s0 := snd (emit (Status "Preparing launch...") st)).
  assert (G0 : grows is_early st s0).
  { apply (grows_emit is_early (Status "Preparing launch...")). reflexivity. }
  pose proof (logs_quiet_grows_early _ s0 logs_check_required_files) as G1.
  destruct (safe_check_required_files s0) as [m1 S1].
  destruct (_check_required_files H s0) as [r1 s1]. simpl in S1, G1. subst r1.
  destruct m1 as [|x l].
  - right. eexists. split; [|reflexivity].
    assert (G : grows is_early st
                  (snd (emit (Status "All required files present") s1))).
    { eapply so_trans; [exact G0|]. eapply so_trans; [exact G1|].
      apply (grows_emit is_early (Status "All required files present")).
      reflexivity. }
    exact (proj1 G).
  - destruct (restore_outcome (x :: l) s1) as [[R G2]|[R F2]];
      destruct (restore H (x :: l) s1) as [r s2]; simpl in R; subst r;
      cbn [fst snd] in *.
    + pose proof (logs_quiet_grows_early _ s2 logs_check_required_files) as G3.
      destruct (safe_check_required_files s2) as [m2 S2].
      destruct (_check_required_files H s2) as [r2 s3]. simpl in S2, G3. subst r2.
      assert (G : grows is_early st s3).
      { eapply so_trans; [exact G0|]. eapply so_trans; [exact G1|].
        eapply so_trans; [exact G2|exact G3]. }
      destruct m2 as [|y l2].
      * right. exists s3. split; [exact (proj1 G)|reflexivity].
      * left. split; [reflexivity|].
        destruct G as [(new & En & Fn) _]. cbn [snd trace]. rewrite En.
        eexists. split; [now rewrite <- app_assoc|].
        apply Forall_app. split; [exact Fn|]. repeat constructor.
    + left. split; [reflexivity|].
      destruct F2 as (mid & msg & Gm & _ & Em & Pm).
      assert (G : grows is_early st mid).
      { eapply so_trans; [exact G0|]. eapply so_trans; [exact G1|exact Gm]. }
      destruct G as [(new & En & Fn) _]. rewrite Em, En.
      eexists. split; [now rewrite <- app_assoc|].
      apply Forall_app. split; [exact Fn|]. now constructor.
Qed.


(** How a launch run in the background ends: it returns, and either
    all its events are harmless, or [args.txt] is written and holds the
    plan, and the java-not-found signal follows the records of the
    lookup. *)
Definition launch_outcome (self : Launcher) (st : state)
           (out : Result unit * state) : Prop :=
  fst out = Ok tt
  /\ exists new,
      trace (snd out) = (trace st ++ new)%list
      /\ (Forall is_harmless new
          \/ exists pre post classpath,
              new = (pre ++ Status "args.txt written" :: post ++ [java_not_found])%list
              /\ Forall is_harmless pre
              /\ Forall is_quiet post
              /\ holds (args_path H)
                       (concat_all (args_lines H self classpath)) (snd out)).

Lemma background_launch_outcome (self : Launcher) (st : state) :
  launch_outcome self st (_background (launch_procedure H self) st).
Proof.
  unfold launch_outcome, _background, catch.
  destruct (launch_paths self st) as [[R (new & Tn & Fn)]|(sv & (nv & Tv & Fv) & E)].
  - destruct (launch_procedure H self st) as [r s]. simpl in *. subst r.
    split; [reflexivity|]. exists new. split; [exact Tn|]. left.
    eapply Forall_impl; [apply early_harmless|exact Fn].
  - rewrite E.
    assert (Fv' : Forall is_harmless nv).
    { eapply Forall_impl; [apply early_harmless|exact Fv]. }
    destruct (assemble_and_launch_outcome self sv)
      as (na & Ta & [[R Fa]|[(R & Fa & _)|(R & pre & post & cp & En & Fp & Fq & Hh)]]);
      destruct (assemble_and_launch H self sv) as [r s]; simpl in R, Ta; subst r.
    + split; [reflexivity|]. exists (nv ++ na)%list. cbn [snd].
      split; [now rewrite Ta, Tv, app_assoc|]. left. all_harmless.
    + split; [reflexivity|]. unfold logger, emit. cbn [snd trace fst bind].
      eexists. split.
      * simpl. rewrite Ta, Tv, <- !app_assoc. reflexivity.
      * left. all_harmless.
    + split; [reflexivity|]. exists (nv ++ na)%list. cbn [snd] in *.
      split; [now rewrite Ta, Tv, app_assoc|]. right.
      exists (nv ++ pre)%list, post, cp. rewrite En.
      split; [now rewrite <- app_assoc|].
      split; [all_harmless|]. now split.
Qed.

(** Events that leave the process unlaunched: no spawn, no launch
    status, no [Finished] signal of success. *)
Definition never_launched (e : event) : bool :=
  match e with
  | Spawn _ => false
  | Finished ok _ => negb ok
  | Status text => negb (String.eqb text "Launching Java process...")
  | _ => true
  end.

Lemma harmless_never_launched (e : event) :
  is_harmless e -> never_launched e = true.
Proof.
  unfold is_harmless.
  destruct e as [lvl msg|text| |[|] msg|]; simpl; congruence.
Qed.

(** No launch spawns the process or finishes as completed: whatever the
    host and the filesystem, [launch_procedure] stops before. *)
Lemma launch_never_spawns (self : Launcher) (st : state) :
  fst (_background (launch_procedure H self) st) = Ok tt
  /\ exists new,
      trace (snd (_background (launch_procedure H self) st))
      = (trace st ++ new)%list
      /\ Forall (fun e => never_launched e = true) new.
Proof.
  destruct (background_launch_outcome self st)
    as (R & new & Tn & [Fn|(pre & post & cp & En & Fp & Fq & _)]).
  - split; [exact R|]. exists new. split; [exact Tn|].
    eapply Forall_impl; [apply harmless_never_launched|exact Fn].
  - split; [exact R|]. exists new. split; [exact Tn|]. rewrite En.
    apply Forall_app. split.
    + eapply Forall_impl; [apply harmless_never_launched|exact Fp].
    + apply Forall_cons; [reflexivity|]. apply Forall_app. split.
      * eapply Forall_impl; [|exact Fq].
        intros e Q. now apply harmless_never_launched, quiet_harmless.
      * now constructor.
Qed.


(** C2, as the code has it.  When a launch ends with the java-not-found
    signal it returns without a spawn, but [args.txt] was written before
    the lookup of the interpreter: the report that it is written
    precedes the records of the lookup and the signal, and the file
    holds the lines of the plan when the procedure returns. *)
Theorem java_not_found_after_args_written (self : Launcher) (st : state)
        (new : list event) :
  trace (snd (_background (launch_procedure H self) st)) = (trace st ++ new)%list ->
  In java_not_found new ->
  fst (_background (launch_procedure H self) st) = Ok tt
  /\ (exists pre post,
        new = (pre ++ Status "args.txt written" :: post ++ [java_not_found])%list
        /\ Forall is_quiet post)
  /\ (exists classpath,
        FS.read (fs (snd (_background (launch_procedure H self) st)))
                (OsPath.components (is_windows H) (args_path H))
        = Ok (concat_all (args_lines H self classpath)))
  /\ (forall cmd, ~ In (Spawn cmd) new).
Proof.
  intros Tn Hin.
  destruct (background_launch_outcome self st)
    as (R & new' & Tn' & [Fn|(pre & post & cp & En & Fp & Fq & Hh)]).
  - exfalso. rewrite Tn in Tn'. apply app_inv_head in Tn'. subst new'.
    rewrite Forall_forall in Fn. specialize (Fn _ Hin). discriminate.
  - rewrite Tn in Tn'. apply app_inv_head in Tn'. subst new'.
    split; [exact R|]. split; [now exists pre, post|].
    split; [exists cp; now apply holds_read|].
    intros cmd Hc. rewrite En in Hc.
    apply in_app_or in Hc as [Hc|Hc].
    + rewrite Forall_forall in Fp. specialize (Fp _ Hc). discriminate.
    + destruct Hc as [Hc|Hc]; [discriminate|].
      apply in_app_or in Hc as [Hc|[Hc|[]]]; [|discriminate].
      rewrite Forall_forall in Fq. specialize (Fq _ Hc). discriminate.
Qed.


(** ** The required-file check, as a function of the filesystem *)

Lemma required_paths_eq :
  REQUIRED_PATHS H
  = [ os_path_join H "swiftdlc" ["game"; "versions"; GAME_VERSION;
                                 (GAME_VERSION ++ ".jar")%string];
      os_path_join H "swiftdlc" ["libraries"] ].
Proof. reflexivity. Qed.

Lemma required_version_path :
  os_path_join H GAME_DIR
    [os_path_join H "swiftdlc" ["game"; "versions"; GAME_VERSION;
                                (GAME_VERSION ++ ".jar")%string]]
  = version_jar H.
Proof.
  unfold os_path_join, version_jar, os_path_join.
  destruct (is_windows H); vm_compute; reflexivity.
Qed.

Lemma required_version_general :
  endswith_any (os_path_join H "swiftdlc" ["game"; "versions"; GAME_VERSION;
                                           (GAME_VERSION ++ ".jar")%string])
               ["swiftdlc"; "game"; "libraries"] = false.
Proof. unfold os_path_join. destruct (is_windows H); vm_compute; reflexivity. Qed.

Lemma required_libraries_special :
  endswith_any (os_path_join H "swiftdlc" ["libraries"])
               ["swiftdlc"; "game"; "libraries"] = true.
Proof. unfold os_path_join. destruct (is_windows H); vm_compute; reflexivity. Qed.

(** What the check reports about the libraries directory. *)
Definition libraries_report (st : state) : list string :=
  if is_dir_at (libraries_dir H) st
  then if walk_has_jar (walk_at (libraries_dir H) st) then []
       else [libraries_dir H ++ " (no jars)"]
  else [libraries_dir H].

(** What the check reports about the version jar, each time it looks. *)
Definition version_report (st : state) : list string :=
  if exists_at (version_jar H) st then [] else [version_jar H].

Definition missing_items (st : state) : list string :=
  (version_report st ++ libraries_report st ++ version_report st)%list.

Lemma scan_required_result (st : state) :
  exists details, scan_required H st = (Ok (missing_items st, details), st).
Proof.
  unfold scan_required. rewrite required_paths_eq.
  unfold fold_m, check_required.
  rewrite required_version_general, required_libraries_special,
    required_version_path.
  fold (libraries_dir H).
  unfold missing_items, version_report, libraries_report, is_dir_at, exists_at,
    walk_at, bind, os_path_exists, os_path_isdir, os_walk, ret, push.
  destruct (located H (version_jar H) st) as [n1|] eqn:E1;
    destruct (located H (libraries_dir H) st) as [[x2 r2|es2]|] eqn:E2;
    do 3 (cbv beta iota; cbn [negb]; rewrite ?E1, ?E2);
    try (eexists; reflexivity);
    destruct (walk_has_jar _);
    do 3 (cbv beta iota; cbn [negb]; rewrite ?E1, ?E2);
    eexists; reflexivity.
Qed.

Lemma check_required_files_result (st : state) :
  fst (_check_required_files H st) = Ok (missing_items st).
Proof.
  unfold _check_required_files. unfold bind at 1.
  destruct (scan_required_result st) as [details ->].
  set (report := match missing_items st with
                 | [] => ret tt
                 | _ :: _ =>
                     logger ERROR ("Missing files: " ++ repr_list H (missing_items st)) ;;;
                     for_each details (fun d => logger ERROR d)
                 end).
  assert (S : safe report) by (unfold report; safe_steps).
  change (fst (bind report (fun _ => ret (missing_items st)) st)
          = Ok (missing_items st)).
  unfold bind. destruct (run_safe report st S) as [[] ->]. reflexivity.
Qed.


(** C10.  When the version jar is absent the check reports its path
    twice, once for the manifest entry and once for the final explicit
    check, so that the list has one item more than it has distinct
    items. *)
Theorem version_jar_reported_twice (st : state) :
  exists_at (version_jar H) st = false ->
  fst (_check_required_files H st) = Ok (missing_items st)
  /\ count_occ string_dec (missing_items st) (version_jar H) = 2
  /\ List.length (missing_items st)
     = S (List.length (nodup string_dec (missing_items st))).
Proof.
  intros Hv. split; [apply check_required_files_result|].
  unfold missing_items, version_report, libraries_report. rewrite Hv.
  unfold libraries_dir, version_jar, os_path_join.
  destruct (is_dir_at _ st); [destruct (walk_has_jar _)|];
    destruct (is_windows H); vm_compute; split; reflexivity.
Qed.


(** ** The collection passes overlap *)



Lemma libraries_dir_nonempty : libraries_dir H <> "".
Proof.
  unfold libraries_dir, os_path_join. destruct (is_windows H); discriminate.
Qed.












(** ** The fetcher, step by step *)

(** Every regular file is still there, with its content. *)
Definition keeps_content (s s' : state) : Prop :=
  forall p x r, FS.lookup (fs s) p = Some (FS.File x r) ->
                FS.lookup (fs s') p = Some (FS.File x r).

#[export] Instance keeps_content_order : StateOrder keeps_content.
Proof.
  split.
  - intros s p x r L. exact L.
  - intros a b c H1 H2 p x r L. apply H2, H1, L.
Qed.

Lemma keeps_content_emit (e : event) : preserves keeps_content (emit e).
Proof. intros st p x r L. exact L. Qed.

Lemma keeps_content_os_makedirs (p : string) :
  preserves keeps_content (os_makedirs H p).
Proof.
  intros st. unfold os_makedirs. destruct p as [|c p]; [apply so_refl|].
  destruct (FS.makedirs _ (fs st) _) as [n res] eqn:Mk.
  intros q x r L. simpl. eapply FSFacts.makedirs_keeps_files; eassumption.
Qed.

Lemma keeps_content_safe_makedirs (path : string) :
  preserves keeps_content (safe_makedirs H path).
Proof.
  unfold safe_makedirs.
  apply preserves_catch; [exact _| |intros e].
  - destruct (is_windows H); apply keeps_content_os_makedirs.
  - apply preserves_bind; [exact _|apply keeps_content_emit|intros _].
    apply preserves_catch; [exact _|apply keeps_content_os_makedirs|intros e2].
    apply keeps_content_emit.
Qed.

Lemma write_chunks_holds (dest_path : string) (total : Z) (chunks : list string) :
  forall downloaded c st,
    holds dest_path c st ->
    exists st',
      write_chunks H dest_path total (Some Progress) downloaded chunks st
      = (Ok tt, st')
      /\ holds dest_path (c ++ concat_all chunks) st'.
Proof.
  induction chunks as [|chunk rest IH]; intros downloaded c st Hh.
  - exists st. simpl. rewrite append_empty_r. auto.
  - destruct chunk as [|a chunk]; [exact (IH downloaded c st Hh)|].
    cbn [write_chunks]. unfold bind at 1.
    destruct (file_write_holds dest_path c (String a chunk) st Hh)
      as (s1 & -> & H1 & _).
    unfold bind at 1.
    set (report := if negb (total =? 0)%Z
                   then call (Some Progress)
                             (percent H (downloaded + len (String a chunk))%Z total)
                   else ret tt).
    assert (R : exists s2, report s1 = (Ok tt, s2) /\ fs s2 = fs s1).
    { unfold report. destruct (negb _); eexists; split; reflexivity. }
    destruct R as (s2 & -> & F2).
    destruct (IH (downloaded + len (String a chunk))%Z _ s2
                 (holds_same_fs _ _ _ _ F2 H1)) as (s3 & -> & H3).
    exists s3. split; [reflexivity|].
    cbn [concat_all fold_right]. now rewrite <- append_assoc.
Qed.

(** ** The extractor, entry by entry *)

Definition file_at (p : string) (st : state) : bool :=
  match located H p st with
  | Some (FS.File _ _) => true
  | _ => false
  end.

(** Copying a member: it raises before the target is touched; or the
    target is emptied and holds the bytes that could be read, the copy
    ending well if all of them could. *)
Lemma copy_member_cases (member : ZipInfo) (path : string) (st : state) :
  (exists e, copy_member H member path st = (Raise e, st)
             /\ (open_error member = Some e
                 \/ (open_error member = None
                     /\ open_write H path st = (Raise e, st))))
  \/ (exists st',
        open_error member = None
        /\ copy_member H member path st
           = (match read_error member with
              | Some e => Raise e
              | None => Ok tt
              end, st')
        /\ holds path (payload member) st' /\ trace st' = trace st).
Proof.
  unfold copy_member, bind.
  destruct (open_error member) as [e0|]; cbv beta iota.
  { left. exists e0. split; [reflexivity|now left]. }
  cbn [ret].
  destruct (open_write_cases path st) as [[e1 E]|(s1 & E & H1 & T1)]; rewrite E.
  { left. exists e1. split; [reflexivity|right; now split]. }
  right.
  destruct (file_write_holds path "" (payload member) s1 H1) as (s2 & -> & H2 & T2).
  exists s2. split; [reflexivity|]. split; [|split; [exact H2|congruence]].
  now destruct (read_error member).
Qed.

Lemma safe_make_parent (target_path : string) :
  safe (make_parent H target_path).
Proof.
  unfold make_parent.
  destruct (OsPath.dirname _ _); [safe_step|apply safe_safe_makedirs].
Qed.

Lemma safe_extract_member (target_dir : string) (total idx extracted : nat)
      (pcb : option (Z -> event)) (scb : option (string -> event))
      (member : ZipInfo) :
  safe (extract_member H target_dir total pcb scb idx extracted member).
Proof.
  unfold extract_member.
  safe_step; [apply safe_make_parent|safe_steps].
Qed.

Lemma safe_extract_members (target_dir : string) (total : nat)
      (pcb : option (Z -> event)) (scb : option (string -> event))
      (members : list ZipInfo) :
  forall idx extracted,
    safe (extract_members H target_dir total pcb scb idx extracted members).
Proof.
  induction members as [|member rest IH]; intros idx extracted; simpl;
    [safe_steps|].
  safe_step; [apply safe_extract_member|apply IH].
Qed.

(** The state in which the two write attempts of a member are made:
    after the creation of the parent directory. *)
Definition before_copy (target_dir : string) (member : ZipInfo) (st : state)
  : state :=
  snd (make_parent H (target_path_of H target_dir member) st).

Lemma zip_infolist_run (zip_path : string) (st : state) :
  zip_infolist H zip_path st = (fst (zip_infolist H zip_path st), st).
Proof.
  unfold zip_infolist, bind, file_read, lift.
  destruct zip_path; [reflexivity|].
  destruct (FS.read _ _); reflexivity.
Qed.

(** The state in which the marker is written: after the last member. *)
Definition after_members (target_dir : string) (members : list ZipInfo)
           (st : state) : state :=
  snd (extract_members H target_dir (total_of members) (Some Progress)
                       (Some Status) 1 0 members st).

(** An archive that opens is unpacked to the end: the members, then the
    marker, which holds the text ok when it could be opened and is left
    alone otherwise. *)
Lemma unpack_run (zip_path target_dir : string) (members : list ZipInfo)
      (st : state) :
  fst (zip_infolist H zip_path st) = Ok members ->
  exists s2,
    unpack H zip_path target_dir (Some Progress) (Some Status) st
    = (Ok true,
       {| fs := fs s2;
          trace := (trace s2 ++ [Log INFO ("Extracted archive " ++ zip_path
                                             ++ " -> " ++ target_dir)])%list |})
    /\ trace s2 = trace (after_members target_dir members st)
    /\ keeps_files (after_members target_dir members st) s2
    /\ (holds (marker_path H target_dir) "ok" s2
        \/ (fs s2 = fs (after_members target_dir members st)
            /\ exists e,
                fst (open_write H (marker_path H target_dir)
                                (after_members target_dir members st))
                = Raise e)).
Proof.
  intros Hz. unfold unpack. unfold bind at 1.
  rewrite zip_infolist_run, Hz. unfold bind at 1.
  destruct (run_safe _ st (safe_extract_members target_dir (total_of members)
                             (Some Progress) (Some Status) members 1 0))
    as [[] E1].
  unfold after_members. rewrite E1. cbn [snd].
  set (s1 := snd (extract_members H target_dir (total_of members)
                                  (Some Progress) (Some Status) 1 0 members st)).
  unfold bind at 1, catch, bind at 1.
  pose proof (grows_open_write is_quiet (marker_path H target_dir) s1) as [_ K1].
  destruct (open_write_cases (marker_path H target_dir) s1)
    as [[e Eo]|(s2 & Eo & H2 & T2)]; rewrite Eo in *.
  - exists s1. split; [reflexivity|]. split; [reflexivity|].
    split; [apply so_refl|]. right. split; [reflexivity|]. now exists e.
  - pose proof (grows_file_write is_quiet (marker_path H target_dir) "ok" s2)
      as [_ K2].
    destruct (file_write_holds (marker_path H target_dir) "" "ok" s2 H2)
      as (s3 & E3 & H3 & T3).
    rewrite E3 in *. cbn [snd] in K1, K2.
    exists s3. split; [reflexivity|]. split; [congruence|].
    split; [eapply so_trans; eassumption|now left].
Qed.

(** C8, as the code has it.  When the archive opens, the extractor goes
    on to the marker after the last member: the marker file then holds
    the two characters ok; if it cannot be opened the failure is ignored
    and the filesystem stays as the members left it.  Either way the
    extraction returns [True]. *)
Theorem extraction_marker_holds_ok (zip_path target_dir : string)
        (members : list ZipInfo) (st : state) :
  fst (zip_infolist H zip_path st) = Ok members ->
  fst (extract_zip_manual H zip_path target_dir (Some Progress) (Some Status) st)
  = Ok true
  /\ (FS.read (fs (snd (extract_zip_manual H zip_path target_dir
                                           (Some Progress) (Some Status) st)))
              (OsPath.components (is_windows H) (marker_path H target_dir))
      = Ok "ok"
      \/ (fs (snd (extract_zip_manual H zip_path target_dir
                                      (Some Progress) (Some Status) st))
          = fs (after_members target_dir members st)
          /\ exists e,
              fst (open_write H (marker_path H target_dir)
                              (after_members target_dir members st))
              = Raise e)).
Proof.
  intros Hz. unfold extract_zip_manual, catch.
  destruct (unpack_run zip_path target_dir members st Hz)
    as (s2 & -> & _ & _ & Hm).
  split; [reflexivity|]. cbn [snd fs].
  destruct Hm as [Hh|Hm]; [left; now apply holds_read|right; exact Hm].
Qed.


(** ** What decides between the two ends of [find_and_launch] *)

(** [self.java_path or find_java_executable()]. *)
Definition java_lookup (self : Launcher) : M (option string) :=
  if truthy (java_path self) then ret (java_path self)
  else find_java_executable H CLIENT_DIR.

(** [java_exec and os.path.exists(java_exec)]. *)
Definition usable (j : option string) (st : state) : bool :=
  match j with
  | Some p => truthy j && exists_at p st
  | None => false
  end.

(** With a usable interpreter the procedure stops on the unbound [cmd];
    without one it reports that java was not found. *)
Lemma find_and_launch_by_lookup (self : Launcher) (st mid : state)
      (j : option string) :
  java_lookup self st = (Ok j, mid) ->
  find_and_launch H self st
  = if usable j mid then (Raise (unbound_local_error "cmd"), mid)
    else (Ok tt, snd (emit java_not_found mid)).
Proof.
  unfold java_lookup. intros EL.
  unfold find_and_launch. unfold bind at 1. rewrite EL.
  unfold bind at 1, usable, exists_at.
  destruct j as [p|]; [destruct (truthy (Some p))|]; simpl; try reflexivity.
  destruct (located H p mid); reflexivity.
Qed.

End WithHost.

End LoaderFacts.

(* ================================================================== *)
(** * More about the version-conflict resolver *)
(* ================================================================== *)

Module ResolverFacts.

Import PyStr Guava.
Local Open Scope string_scope.

Lemma split_nonempty (c : ascii) (s : string) : split c s <> [].
Proof.
  destruct s as [|a r]; simpl; [discriminate|].
  destruct (Ascii.eqb a c); [discriminate|].
  destruct (split c r); discriminate.
Qed.

Lemma digits_value_nonneg (s : string) :
  forall acc n, (0 <= acc)%Z -> digits_value acc s = Some n -> (0 <= n)%Z.
Proof.
  induction s as [|c r IH]; intros acc n Ha; cbn [digits_value].
  - now intros [= <-].
  - destruct (is_digit c); [|discriminate].
    apply IH. lia.
Qed.

Fixpoint all_digits (s : string) : bool :=
  match s with
  | EmptyString => true
  | String c r => is_digit c && all_digits r
  end.

Lemma digits_value_some (s : string) :
  all_digits s = true -> forall acc, exists n, digits_value acc s = Some n.
Proof.
  induction s as [|c r IH]; intros A acc; cbn [digits_value]; [eauto|].
  cbn [all_digits] in A. apply andb_true_iff in A as [-> A]. now apply IH.
Qed.

(** A digit is no blank, no sign, no underscore and no dot. *)
Lemma digit_is_plain (c : ascii) :
  is_digit c = true ->
  is_space c = false /\ Ascii.eqb c "+" = false /\ Ascii.eqb c "-" = false
  /\ Ascii.eqb c "_" = false /\ Ascii.eqb c "." = false.
Proof.
  destruct c as [[] [] [] [] [] [] [] []]; intros D;
    first [discriminate D | repeat split].
Qed.

Lemma scan_int_digits (s : string) :
  all_digits s = true -> scan_int false s = Some (s, EmptyString).
Proof.
  induction s as [|c r IH]; intros A; cbn [scan_int]; [reflexivity|].
  cbn [all_digits] in A. apply andb_true_iff in A as [-> A].
  now rewrite IH.
Qed.

(** [int] of a run of digits: its value, unless the run is too long. *)
Lemma py_int_digits (c : ascii) (r : string) :
  all_digits (String c r) = true ->
  exists n,
    digits_value 0 (String c r) = Some n
    /\ py_int (String c r)
       = if (int_max_str_digits <? String.length (String c r))%nat
         then Raise (exceeds_limit (String.length (String c r)))
         else Ok n.
Proof.
  intros A. destruct (digits_value_some _ A 0%Z) as [n Hn].
  exists n. split; [exact Hn|].
  assert (D : is_digit c = true).
  { cbn [all_digits] in A. now apply andb_true_iff in A as [D _]. }
  destruct (digit_is_plain c D) as (Hs & Hp & Hm & Hu & _).
  unfold py_int. cbn [lstrip_spaces]. rewrite Hs.
  cbn [split_sign]. rewrite Hp, Hm.
  cbn [starts_with_underscore]. rewrite Hu.
  rewrite (scan_int_digits _ A).
  destruct (int_max_str_digits <? String.length (String c r))%nat; [reflexivity|].
  cbn [has_digits all_spaces andb]. now rewrite Hn.
Qed.

(** What the parser makes of a run of digits. *)
Lemma component_nonneg (p : string) :
  all_digits p = true ->
  (0 <= match py_int p with Ok n => n | Raise _ => 0 end)%Z.
Proof.
  intros A. destruct p as [|c r]; [vm_compute; discriminate|].
  destruct (py_int_digits c r A) as (n & Hn & ->).
  destruct (int_max_str_digits <? _)%nat; [lia|].
  apply (digits_value_nonneg (String c r) 0%Z n); [lia|exact Hn].
Qed.

Fixpoint digits_and_dots (s : string) : bool :=
  match s with
  | EmptyString => true
  | String c r => (is_digit c || Ascii.eqb c ".") && digits_and_dots r
  end.

Lemma scan_version_chars (s : string) : digits_and_dots (scan_version s) = true.
Proof.
  induction s as [|c r IH]; [reflexivity|]. cbn [scan_version].
  destruct (is_digit c) eqn:D.
  - cbn [digits_and_dots]. now rewrite D, IH.
  - destruct (Ascii.eqb c "." && _) eqn:E; [|reflexivity].
    apply andb_true_iff in E as [E _].
    cbn [digits_and_dots]. now rewrite E, orb_true_r, IH.
Qed.

Lemma split_version_chars (s : string) :
  digits_and_dots s = true ->
  Forall (fun p => all_digits p = true) (split "." s).
Proof.
  induction s as [|a r IH]; intros A; cbn [split].
  - repeat constructor.
  - cbn [digits_and_dots] in A. apply andb_true_iff in A as [Ha A].
    specialize (IH A).
    destruct (Ascii.eqb a ".") eqn:E.
    + constructor; [reflexivity|exact IH].
    + rewrite orb_false_r in Ha.
      destruct (split "." r) as [|w ws].
      * repeat constructor. cbn [all_digits]. now rewrite Ha.
      * inversion IH as [|? ? Hw Hws]; subst.
        constructor; [|exact Hws]. cbn [all_digits]. now rewrite Ha, Hw.
Qed.

Lemma search_guava_version_chars (name ver : string) :
  search_guava_version name = Some ver -> digits_and_dots ver = true.
Proof.
  induction name as [|c r IH]; [discriminate|].
  cbn [search_guava_version].
  destruct (startswith _ _ && _).
  - intros [= <-]. apply scan_version_chars.
  - exact IH.
Qed.

(** X1.  The version parsed from a name is never the empty tuple and has
    no negative component.  So no name sorts below one whose version
    cannot be parsed, which gets the tuple (0,). *)
Theorem version_tuple_never_below_fallback (name : string) :
  _extract_version_tuple_from_name name <> []
  /\ Forall (fun x => (0 <= x)%Z) (_extract_version_tuple_from_name name)
  /\ PyTuple.lt (_extract_version_tuple_from_name name) [0%Z] = false.
Proof.
  assert (K : _extract_version_tuple_from_name name <> []
              /\ Forall (fun x => (0 <= x)%Z) (_extract_version_tuple_from_name name)).
  { unfold _extract_version_tuple_from_name.
    destruct (search_guava_version name) as [ver|] eqn:Sv.
    - split.
      + intros E. apply map_eq_nil in E. now apply split_nonempty in E.
      + apply Forall_map.
        pose proof (split_version_chars ver (search_guava_version_chars _ _ Sv)) as F.
        apply Forall_forall. intros p Hp.
        rewrite Forall_forall in F. now apply component_nonneg, F.
    - split; [discriminate|]. repeat constructor. lia. }
  destruct K as [Hne Hpos]. split; [exact Hne|]. split; [exact Hpos|].
  destruct (_extract_version_tuple_from_name name) as [|x t]; [congruence|].
  inversion Hpos as [|? ? Hx _]; subst. simpl.
  destruct (Z.eqb_spec x 0) as [->|Hx0].
  - now destruct t.
  - apply Z.ltb_ge. lia.
Qed.


(** ** Parsing inverts the way versions are written *)

(** Whether a dotted version read by the pattern would go on into [s]:
    [s] starts with a digit, or with a dot and a digit. *)
Definition continues (s : string) : bool :=
  match s with
  | EmptyString => false
  | String c r =>
      is_digit c
      || (Ascii.eqb c "."
          && match r with String d _ => is_digit d | EmptyString => false end)
  end.

(** A version as it is written in a file name: the components in
    decimal, separated by dots. *)
Definition dotted (vs : list N) : string :=
  join "." (map (fun v => str_of_Z (Z.of_N v)) vs).

(** What the parser reads back from a component written in decimal: the
    component, or 0 when it takes more digits than [int] accepts. *)
Definition read_back (v : N) : Z :=
  if (int_max_str_digits <? String.length (str_of_Z (Z.of_N v)))%nat
  then 0%Z else Z.of_N v.

Lemma uint_all_digits (d : Decimal.uint) :
  all_digits (NilEmpty.string_of_uint d) = true.
Proof. induction d; simpl; auto. Qed.

Lemma digits_value_acc (d : Decimal.uint) :
  forall acc,
    digits_value (Z.pos acc) (NilEmpty.string_of_uint d)
    = Some (Z.pos (Pos.of_uint_acc d acc)).
Proof.
  induction d as [|d IH|d IH|d IH|d IH|d IH|d IH|d IH|d IH|d IH|d IH];
    intros acc; [reflexivity|..];
    cbn [NilEmpty.string_of_uint digits_value Pos.of_uint_acc];
    change (is_digit _) with true; cbv beta iota;
    rewrite <- IH; f_equal; cbn [nat_of_ascii]; simpl Z.of_nat; lia.
Qed.

Lemma digits_value_zero (d : Decimal.uint) :
  digits_value 0 (NilEmpty.string_of_uint d) = Some (Z.of_N (Pos.of_uint d)).
Proof.
  induction d as [|d IH|d IH|d IH|d IH|d IH|d IH|d IH|d IH|d IH|d IH];
    [reflexivity|exact IH|..];
    cbn [NilEmpty.string_of_uint digits_value Pos.of_uint];
    change (is_digit _) with true; cbv beta iota;
    apply digits_value_acc.
Qed.

Lemma to_uint_not_nil (p : positive) : Pos.to_uint p <> Decimal.Nil.
Proof.
  intros E. pose proof (DecimalPos.Unsigned.of_to p) as K.
  rewrite E in K. discriminate.
Qed.

Lemma str_of_N_eq (v : N) :
  exists d, d <> Decimal.Nil
            /\ str_of_Z (Z.of_N v) = NilEmpty.string_of_uint d
            /\ Pos.of_uint d = v.
Proof.
  destruct v as [|p].
  - exists (Decimal.D0 Decimal.Nil). repeat split. discriminate.
  - exists (Pos.to_uint p). split; [apply to_uint_not_nil|].
    split; [|apply DecimalPos.Unsigned.of_to].
    unfold str_of_Z. simpl.
    pose proof (to_uint_not_nil p). now destruct (Pos.to_uint p).
Qed.

Lemma str_of_N_digits (v : N) :
  all_digits (str_of_Z (Z.of_N v)) = true
  /\ exists c r, str_of_Z (Z.of_N v) = String c r /\ is_digit c = true.
Proof.
  destruct (str_of_N_eq v) as (d & Hd & -> & _).
  split; [apply uint_all_digits|].
  pose proof (uint_all_digits d) as A.
  destruct d; [congruence|..]; simpl; eauto.
Qed.

(** [int] reads back what [str] wrote, up to the limit on the digits. *)
Lemma py_int_str_of_N (v : N) :
  match py_int (str_of_Z (Z.of_N v)) with Ok n => n | Raise _ => 0%Z end
  = read_back v.
Proof.
  unfold read_back.
  destruct (str_of_N_digits v) as (A & c & r & E & _).
  destruct (str_of_N_eq v) as (d & _ & Ed & Ev).
  rewrite E in A |- *.
  destruct (py_int_digits c r A) as (n & Hn & ->).
  destruct (int_max_str_digits <? _)%nat; [reflexivity|].
  rewrite <- E, Ed, digits_value_zero in Hn. injection Hn as <-.
  now rewrite Ev.
Qed.

Lemma scan_digits (ds rest : string) :
  all_digits ds = true -> scan_version (ds ++ rest) = ds ++ scan_version rest.
Proof.
  induction ds as [|c ds IH]; simpl; [reflexivity|].
  intros A. apply andb_true_iff in A as [Hc A]. now rewrite Hc, IH.
Qed.

Lemma scan_stop (s : string) : continues s = false -> scan_version s = "".
Proof.
  destruct s as [|c r]; [reflexivity|]. simpl.
  intros C. apply orb_false_iff in C as [-> ->]. reflexivity.
Qed.

Lemma scan_dot (s : string) :
  match s with String d _ => is_digit d | EmptyString => false end = true ->
  scan_version (String "." s) = String "." (scan_version s).
Proof.
  intros Hd.
  change (scan_version (String "." s))
    with (if is_digit "." then String "." (scan_version s)
          else if Ascii.eqb "." "."
                  && match s with String d _ => is_digit d | EmptyString => false end
               then String "." (scan_version s)
               else "").
  now rewrite Hd.
Qed.

Lemma split_digits_end (ds : string) :
  all_digits ds = true -> split "." ds = [ds].
Proof.
  induction ds as [|c ds IH]; simpl; [reflexivity|].
  intros A. apply andb_true_iff in A as [Hc A].
  destruct (Ascii.eqb_spec c "."); [subst c; discriminate|].
  now rewrite IH.
Qed.

Lemma split_digits_dot (ds rest : string) :
  all_digits ds = true ->
  split "." (ds ++ String "." rest) = ds :: split "." rest.
Proof.
  induction ds as [|c ds IH]; simpl; [reflexivity|].
  intros A. apply andb_true_iff in A as [Hc A].
  destruct (Ascii.eqb_spec c "."); [subst c; discriminate|].
  now rewrite IH.
Qed.

Lemma dotted_cons (v w : N) (vs : list N) :
  dotted (v :: w :: vs) = str_of_Z (Z.of_N v) ++ "." ++ dotted (w :: vs).
Proof. reflexivity. Qed.

Lemma dotted_starts_with_digit (v : N) (vs : list N) (rest : string) :
  exists c r, dotted (v :: vs) ++ rest = String c r /\ is_digit c = true.
Proof.
  destruct (str_of_N_digits v) as (_ & c & r & E & Hc).
  destruct vs as [|w vs].
  - unfold dotted. simpl. rewrite E. simpl. eauto.
  - rewrite dotted_cons, E. simpl. eauto.
Qed.

Lemma scan_dotted (vs : list N) (suffix : string) :
  vs <> [] -> continues suffix = false ->
  scan_version (dotted vs ++ suffix) = dotted vs.
Proof.
  intros Hne Hs. induction vs as [|v vs IH]; [congruence|]. clear Hne.
  destruct (str_of_N_digits v) as (A & _).
  destruct vs as [|w vs].
  - unfold dotted. simpl. rewrite scan_digits by exact A.
    rewrite scan_stop by exact Hs. apply LoaderFacts.append_empty_r.
  - rewrite dotted_cons, !LoaderFacts.append_assoc.
    rewrite scan_digits by exact A. f_equal.
    destruct (dotted_starts_with_digit w vs suffix) as (c & r & E & Hc).
    change ("." ++ dotted (w :: vs) ++ suffix)
      with (String "." (dotted (w :: vs) ++ suffix)).
    rewrite scan_dot by now rewrite E.
    rewrite IH by discriminate. reflexivity.
Qed.

Lemma split_dotted (vs : list N) :
  vs <> [] ->
  split "." (dotted vs) = map (fun v => str_of_Z (Z.of_N v)) vs.
Proof.
  intros Hne. induction vs as [|v vs IH]; [congruence|]. clear Hne.
  destruct (str_of_N_digits v) as (A & _).
  destruct vs as [|w vs].
  - unfold dotted. simpl. now apply split_digits_end.
  - rewrite dotted_cons.
    change ("." ++ dotted (w :: vs)) with (String "." (dotted (w :: vs))).
    rewrite split_digits_dot by exact A.
    rewrite IH by discriminate. reflexivity.
Qed.

(** The version of a name that starts with guava- and a dotted version. *)
Lemma extract_dotted (vs : list N) (suffix : string) :
  vs <> [] -> continues suffix = false ->
  _extract_version_tuple_from_name ("guava-" ++ dotted vs ++ suffix)
  = map read_back vs.
Proof.
  intros Hne Hs. unfold _extract_version_tuple_from_name.
  destruct vs as [|v vs]; [congruence|].
  destruct (dotted_starts_with_digit v vs suffix) as (c & r & E & Hc).
  assert (S : search_guava_version ("guava-" ++ dotted (v :: vs) ++ suffix)
              = Some (scan_version (dotted (v :: vs) ++ suffix))).
  { rewrite E. simpl. now rewrite Hc. }
  rewrite S, scan_dotted, split_dotted, map_map by (assumption || discriminate).
  apply map_ext. intros a. apply py_int_str_of_N.
Qed.

(** X2.  Parsing inverts the way versions are written: from a name made
    of guava-, the components in decimal separated by dots, and a rest
    into which the pattern cannot go on (it starts neither with a digit
    nor with a dot and a digit), the parser gives back the components,
    a component of more than 4300 digits excepted: [int] refuses it and
    the parser puts 0 in its place. *)
Theorem version_round_trip (vs : list N) (suffix : string) :
  vs <> [] -> continues suffix = false ->
  _extract_version_tuple_from_name ("guava-" ++ dotted vs ++ suffix)
  = map read_back vs.
Proof. apply extract_dotted. Qed.

Lemma version_round_trip_witness :
  [30%N; 1%N; 1%N] <> [] /\ continues "-jre.jar" = false
  /\ _extract_version_tuple_from_name "guava-30.1.1-jre.jar" = [30; 1; 1]%Z.
Proof.
  split; [discriminate|]. split; [reflexivity|].
  apply (version_round_trip [30%N; 1%N; 1%N] "-jre.jar");
    [discriminate|reflexivity].
Defined.

(** A component of 4301 digits is read as 0. *)
Example oversized_component_reads_as_zero :
  _extract_version_tuple_from_name
    ("guava-" ++ dotted [(10 ^ 4300)%N; 5%N] ++ ".jar") = [0; 5]%Z
  /\ _extract_version_tuple_from_name
       ("guava-" ++ dotted [(10 ^ 4300 - 1)%N; 5%N] ++ ".jar")
     = [(10 ^ 4300 - 1)%Z; 5%Z].
Proof. split; vm_compute; reflexivity. Qed.


(** ** The filter as an operation on lists *)

Section FilterFacts.
Variable basename : string -> string.


Lemma filter_guava_of_others (l : list string) :
  filter (is_guava basename) (filter (fun j => negb (is_guava basename j)) l) = [].
Proof.
  induction l as [|x l IH]; simpl; [reflexivity|].
  destruct (is_guava basename x) eqn:E; simpl; [exact IH|].
  now rewrite E.
Qed.

Lemma filter_others_again (l : list string) :
  filter (fun j => negb (is_guava basename j)) (filter (fun j => negb (is_guava basename j)) l) = filter (fun j => negb (is_guava basename j)) l.
Proof.
  induction l as [|x l IH]; simpl; [reflexivity|].
  destruct (is_guava basename x) eqn:E; simpl; [exact IH|].
  now rewrite E, IH.
Qed.

Lemma filter_split_length (l : list string) :
  List.length (filter (is_guava basename) l) + List.length (filter (fun j => negb (is_guava basename j)) l) = List.length l.
Proof.
  induction l as [|x l IH]; simpl; [reflexivity|].
  destruct (is_guava basename x); simpl; lia.
Qed.

(** The guava jars of the result: none if there was none, else the one
    that was kept. *)
Lemma guavas_of_result (jars : list string) :
  filter (is_guava basename) jars = []
  \/ exists latest,
      In latest jars /\ is_guava basename latest = true
      /\ (forall g, In g jars -> is_guava basename g = true ->
            PyTuple.lt (version_key basename latest) (version_key basename g) = false)
      /\ _filter_guava_keep_latest basename jars = (filter (fun j => negb (is_guava basename j)) jars ++ [latest])%list
      /\ filter (is_guava basename) (_filter_guava_keep_latest basename jars) = [latest].
Proof.
  destruct (filter (is_guava basename) jars) as [|g0 gs] eqn:Hg; [now left|right].
  destruct (GuavaFacts.filter_guava_some basename jars) as (latest & Hin & Hl & Hmax & E).
  { rewrite Hg. discriminate. }
  exists latest. repeat split; try assumption.
  rewrite E, filter_app, filter_guava_of_others. simpl.
  now rewrite Hl.
Qed.

(** A name that starts with guava- passes the resolver's test. *)
Lemma guava_name_is_guava (g rest : string) :
  basename g = "guava-" ++ rest -> is_guava basename g = true.
Proof.
  intros E. unfold is_guava. rewrite E. simpl.
  now destruct (lower rest).
Qed.

(** C4, as the code has it.  The resolver takes out every artifact whose
    base name contains guava- (in lower case), with or without a
    version, and appends one of them: the first, in list order, of
    those whose version tuple is greatest.  The artifacts before it
    have a smaller tuple, those after it none greater; the other
    artifacts keep their order.  A base name without a dotted version
    counts as (0,), and one written guava-, dotted version, rest counts
    as the tuple of its components, which the kept artifact therefore
    does not fall below. *)
Theorem filter_guava_keeps_latest (jars : list string) :
  filter (is_guava basename) jars <> [] ->
  exists pre latest post,
    filter (is_guava basename) jars = (pre ++ latest :: post)%list
    /\ _filter_guava_keep_latest basename jars
       = (filter (fun j => negb (is_guava basename j)) jars ++ [latest])%list
    /\ (forall g, In g pre ->
          PyTuple.lt (version_key basename g) (version_key basename latest) = true)
    /\ (forall g, In g post ->
          PyTuple.lt (version_key basename latest) (version_key basename g) = false)
    /\ (forall g, In g jars -> search_guava_version (basename g) = None ->
          version_key basename g = [0%Z])
    /\ (forall g vs suffix,
          In g jars -> basename g = "guava-" ++ dotted vs ++ suffix ->
          vs <> [] -> continues suffix = false ->
          version_key basename g = map read_back vs
          /\ PyTuple.lt (version_key basename latest) (map read_back vs) = false).
Proof.
  intros Hne. unfold _filter_guava_keep_latest.
  destruct (filter (is_guava basename) jars) as [|g0 gs] eqn:Hg; [congruence|].
  destruct (PyTupleFacts.hd_sorted_reverse_split (version_key basename) (g0 :: gs) g0)
    as (pre & post & E & Hpre & Hpost); [discriminate|].
  destruct (PyTupleFacts.hd_sorted_reverse_max (version_key basename) (g0 :: gs) g0)
    as [_ Hmax]; [discriminate|].
  set (latest := hd g0 (PyTuple.sorted (version_key basename) true (g0 :: gs))) in *.
  exists pre, latest, post.
  split; [exact E|].
  split.
  { unfold latest.
    now destruct (PyTuple.sorted (version_key basename) true (g0 :: gs)). }
  split; [exact Hpre|]. split; [exact Hpost|].
  split.
  { intros g _ Hs. unfold version_key, _extract_version_tuple_from_name.
    now rewrite Hs. }
  intros g vs suffix Hin Hb Hvs Hs.
  assert (K : version_key basename g = map read_back vs).
  { unfold version_key. rewrite Hb. now apply extract_dotted. }
  split; [exact K|]. rewrite <- K. apply Hmax.
  rewrite <- Hg. apply filter_In. split; [exact Hin|].
  now apply guava_name_is_guava with (rest := dotted vs ++ suffix).
Qed.

(** X3.  The filter is idempotent: applied to its own result it changes
    nothing. *)
Theorem filter_guava_idempotent (jars : list string) :
  _filter_guava_keep_latest basename (_filter_guava_keep_latest basename jars)
  = _filter_guava_keep_latest basename jars.
Proof.
  destruct (guavas_of_result jars) as [Hn|(latest & _ & Hl & _ & E & Hg)].
  - rewrite (GuavaFacts.filter_guava_none basename jars Hn).
    exact (GuavaFacts.filter_guava_none basename jars Hn).
  - unfold _filter_guava_keep_latest at 1. rewrite Hg.
    cbv zeta. simpl PyTuple.sorted.
    rewrite E, filter_app, filter_others_again. simpl.
    rewrite Hl. simpl. now rewrite app_nil_r.
Qed.

(** X4.  The filter invents nothing and drops all the guava jars but
    one: every jar of the result is a jar of the list; of k >= 1 guava
    jars k - 1 are dropped, duplicates of the kept one included; at
    most one guava jar is left; and the other jars stay as they are, in
    number and in order. *)
Theorem filter_guava_drops_all_but_one (jars : list string) :
  incl (_filter_guava_keep_latest basename jars) jars
  /\ List.length (_filter_guava_keep_latest basename jars)
     = List.length jars - (List.length (filter (is_guava basename) jars) - 1)
  /\ List.length (filter (is_guava basename)
                         (_filter_guava_keep_latest basename jars))
     = Nat.min 1 (List.length (filter (is_guava basename) jars))
  /\ filter (fun j => negb (is_guava basename j))
            (_filter_guava_keep_latest basename jars)
     = filter (fun j => negb (is_guava basename j)) jars.
Proof.
  pose proof (filter_split_length jars) as L.
  destruct (guavas_of_result jars) as [Hn|(latest & Hin & Hl & _ & E & Hg)].
  - rewrite (GuavaFacts.filter_guava_none basename jars Hn), Hn in *.
    simpl in *. repeat split; [apply incl_refl|lia].
  - rewrite Hg, E. repeat split.
    + intros j Hj. apply in_app_or in Hj as [Hj|[<-|[]]]; [|exact Hin].
      now apply filter_In in Hj.
    + rewrite length_app. simpl.
      assert (1 <= List.length (filter (is_guava basename) jars)).
      { assert (In latest (filter (is_guava basename) jars)) by now apply filter_In.
        destruct (filter (is_guava basename) jars); [contradiction|simpl; lia]. }
      lia.
    + assert (In latest (filter (is_guava basename) jars)) by now apply filter_In.
      destruct (filter (is_guava basename) jars); [contradiction|reflexivity].
    + rewrite filter_app, filter_others_again. simpl.
      rewrite Hl. apply app_nil_r.
Qed.

(** X5.  The version that is kept does not depend on the order in which
    the jars were collected: two lists with the same jars keep guava
    jars of the same version (the path kept may differ when several
    have that version). *)
Theorem filter_guava_order_independent (jars jars' : list string) :
  Permutation jars jars' ->
  map (version_key basename)
      (filter (is_guava basename) (_filter_guava_keep_latest basename jars))
  = map (version_key basename)
        (filter (is_guava basename) (_filter_guava_keep_latest basename jars')).
Proof.
  intros P.
  destruct (guavas_of_result jars) as [Hn|(l1 & Hin1 & Hl1 & Hmax1 & _ & Hg1)];
    destruct (guavas_of_result jars') as [Hn'|(l2 & Hin2 & Hl2 & Hmax2 & _ & Hg2)].
  - rewrite (GuavaFacts.filter_guava_none basename jars Hn),
      (GuavaFacts.filter_guava_none basename jars' Hn').
    now rewrite Hn, Hn'.
  - exfalso. apply Permutation_sym in P.
    assert (In l2 (filter (is_guava basename) jars)).
    { apply filter_In. split; [now apply (Permutation_in _ P)|exact Hl2]. }
    rewrite Hn in *. contradiction.
  - exfalso.
    assert (In l1 (filter (is_guava basename) jars')).
    { apply filter_In. split; [now apply (Permutation_in _ P)|exact Hl1]. }
    rewrite Hn' in *. contradiction.
  - rewrite Hg1, Hg2. simpl. f_equal.
    apply PyTupleFacts.lt_connex.
    + apply Hmax1; [|exact Hl2].
      apply Permutation_sym in P. now apply (Permutation_in _ P).
    + apply Hmax2; [|exact Hl1]. now apply (Permutation_in _ P).
Qed.

End FilterFacts.

Definition sample_jars : list string :=
  ["libs/asm-9.jar"; "client/guava-30.1.1.jar"; "libs/log4j-2.jar";
   "libs/guava-19.0.jar"; "client/extra.jar"].

Lemma filter_guava_keeps_latest_witness :
  filter (is_guava GuavaFacts.posix_basename) sample_jars <> []
  /\ _filter_guava_keep_latest GuavaFacts.posix_basename sample_jars
     = ["libs/asm-9.jar"; "libs/log4j-2.jar"; "client/extra.jar";
        "client/guava-30.1.1.jar"].
Proof.
  assert (Hne : filter (is_guava GuavaFacts.posix_basename) sample_jars <> [])
    by discriminate.
  split; [exact Hne|].
  destruct (filter_guava_keeps_latest GuavaFacts.posix_basename sample_jars Hne)
    as (pre & latest & post & Hsplit & -> & Hpre & _ & _ & Hver).
  assert (L : latest = "client/guava-30.1.1.jar").
  { destruct (Hver "client/guava-30.1.1.jar" [30%N; 1%N; 1%N] ".jar")
      as [_ Hmax]; [simpl; tauto|reflexivity|discriminate|reflexivity|].
    change (filter (is_guava GuavaFacts.posix_basename) sample_jars)
      with ["client/guava-30.1.1.jar"; "libs/guava-19.0.jar"] in Hsplit.
    destruct pre as [|a [|b pre]].
    - now injection Hsplit as <- _.
    - injection Hsplit as _ <- _. discriminate Hmax.
    - injection Hsplit as _ _ Hsplit. now destruct pre. }
  rewrite L. reflexivity.
Defined.

(** C4 as stated fails: an artifact that does not match the pattern of
    a name followed by a dotted version is removed with the others,
    because the resolver selects by the text guava- alone. *)
Lemma unversioned_guava_is_dropped :
  search_guava_version (GuavaFacts.posix_basename "libs/guava-testlib.jar") = None
  /\ _filter_guava_keep_latest GuavaFacts.posix_basename
       ["libs/guava-19.0.jar"; "libs/guava-testlib.jar";
        "libs/guava-30.1.1.jar"; "libs/asm-9.jar"]
     = ["libs/asm-9.jar"; "libs/guava-30.1.1.jar"].
Proof. split; reflexivity. Qed.

Lemma filter_guava_order_independent_witness :
  Permutation ["a/guava-19.0.jar"; "b/guava-30.1.1.jar"; "asm-9.jar"]
              ["asm-9.jar"; "b/guava-30.1.1.jar"; "a/guava-19.0.jar"]
  /\ map (version_key GuavaFacts.posix_basename)
         (filter (is_guava GuavaFacts.posix_basename)
                 (_filter_guava_keep_latest GuavaFacts.posix_basename
                    ["a/guava-19.0.jar"; "b/guava-30.1.1.jar"; "asm-9.jar"]))
     = map (version_key GuavaFacts.posix_basename)
           (filter (is_guava GuavaFacts.posix_basename)
                   (_filter_guava_keep_latest GuavaFacts.posix_basename
                      ["asm-9.jar"; "b/guava-30.1.1.jar"; "a/guava-19.0.jar"])).
Proof.
  assert (P : Permutation ["a/guava-19.0.jar"; "b/guava-30.1.1.jar"; "asm-9.jar"]
                          ["asm-9.jar"; "b/guava-30.1.1.jar"; "a/guava-19.0.jar"]).
  { apply (Permutation_rev ["a/guava-19.0.jar"; "b/guava-30.1.1.jar"; "asm-9.jar"]). }
  split; [exact P|].
  apply (filter_guava_order_independent GuavaFacts.posix_basename _ _ P).
Defined.

End ResolverFacts.

(* ================================================================== *)
(** * Facts about removal *)
(* ================================================================== *)

Module RemovalFacts.

Import FS.

Lemma assoc_remove_entry_same (c : string) (es : entries_t) :
  assoc c (remove_entry c es) = None.
Proof.
  induction es as [|[k x] r IH]; simpl; [reflexivity|].
  destruct (String.eqb_spec k c) as [->|Hne]; simpl; [exact IH|].
  destruct (String.eqb_spec k c); [contradiction|exact IH].
Qed.

Lemma assoc_remove_entry_other (c d : string) (es : entries_t) :
  c <> d -> assoc d (remove_entry c es) = assoc d es.
Proof.
  intros Hne. induction es as [|[k x] r IH]; simpl; [reflexivity|].
  destruct (String.eqb_spec k c) as [->|Hkc]; simpl.
  - destruct (String.eqb_spec c d); [contradiction|exact IH].
  - destruct (String.eqb_spec k d); [reflexivity|exact IH].
Qed.

(** Creating directories creates no regular file. *)
Lemma makedirs_no_new_file (ok : string -> bool) (q : list string) :
  forall n n' res p x r,
    makedirs ok n q = (n', res) -> lookup n' p = Some (File x r) ->
    lookup n p = Some (File x r).
Proof.
  induction q as [|c q IH]; intros n n' res p x r.
  - destruct n; simpl; now intros [= <- _].
  - destruct n as [y s|es]; [simpl; now intros [= <- _]|].
    cbn [makedirs].
    destruct (assoc c es) as [m|] eqn:A.
    + destruct (makedirs ok m q) as [m' r'] eqn:Mk. intros [= <- _].
      destruct p as [|c0 p]; [discriminate|]. rewrite !FSFacts.lookup_cons.
      destruct (String.eqb_spec c c0) as [<-|Hne].
      * rewrite FSFacts.assoc_set_entry_same, A.
        now apply IH with (res := r').
      * now rewrite FSFacts.assoc_set_entry_other by exact Hne.
    + destruct (ok c); [|now intros [= <- _]].
      destruct (makedirs ok (Dir []) q) as [m' r'] eqn:Mk. intros [= <- _].
      destruct p as [|c0 p]; [discriminate|]. rewrite !FSFacts.lookup_cons.
      destruct (String.eqb_spec c c0) as [<-|Hne].
      * rewrite FSFacts.assoc_set_entry_same. intros L.
        pose proof (IH _ _ _ _ _ _ Mk L) as L0.
        destruct p; discriminate.
      * now rewrite FSFacts.assoc_set_entry_other by exact Hne.
Qed.

(** When the call returns, the directory asked for is there. *)
Lemma makedirs_is_dir (ok : string -> bool) (q : list string) :
  forall n n', makedirs ok n q = (n', Ok tt) ->
               exists es, lookup n' q = Some (Dir es).
Proof.
  induction q as [|c q IH]; intros n n'.
  - destruct n as [y s|es]; simpl; [discriminate|]. intros [= <-]. eauto.
  - destruct n as [y s|es]; [discriminate|]. cbn [makedirs].
    destruct (assoc c es) as [m|] eqn:A.
    + destruct (makedirs ok m q) as [m' r'] eqn:Mk. intros [= <- ->].
      rewrite FSFacts.lookup_cons, FSFacts.assoc_set_entry_same.
      now apply IH with (n := m).
    + destruct (ok c); [|discriminate].
      destruct (makedirs ok (Dir []) q) as [m' r'] eqn:Mk. intros [= <- ->].
      rewrite FSFacts.lookup_cons, FSFacts.assoc_set_entry_same.
      now apply IH with (n := Dir []).
Qed.

(** Writing a file leaves every other regular file as it is. *)
Lemma write_keeps_other (q : list string) :
  forall n n' d p x r,
    write n q d = Ok n' -> p <> q -> lookup n p = Some (File x r) ->
    lookup n' p = Some (File x r).
Proof.
  induction q as [|c q IH]; intros n n' d p x r; [discriminate|].
  destruct n as [y s|es]; [discriminate|].
  destruct p as [|c0 p]; [discriminate|].
  rewrite FSFacts.lookup_cons.
  destruct q as [|c' q].
  - intros W Hne L. apply FSFacts.write_leaf_ok in W as [-> E].
    rewrite FSFacts.lookup_cons.
    destruct (String.eqb_spec c c0) as [<-|Hc].
    + exfalso. destruct E as [E|[y E]]; rewrite E in L; [discriminate|].
      destruct p; [congruence|discriminate].
    + now rewrite FSFacts.assoc_set_entry_other by exact Hc.
  - intros W Hne L. apply FSFacts.write_inner_ok in W as (m & m' & A & W & ->).
    rewrite FSFacts.lookup_cons.
    destruct (String.eqb_spec c c0) as [<-|Hc].
    + rewrite FSFacts.assoc_set_entry_same. rewrite A in L.
      apply IH with (n := m) (d := d); [exact W|congruence|exact L].
    + now rewrite FSFacts.assoc_set_entry_other by exact Hc.
Qed.

(** Writing a file makes no other regular file. *)
Lemma write_no_other_new (q : list string) :
  forall n n' d p x r,
    write n q d = Ok n' -> p <> q -> lookup n' p = Some (File x r) ->
    lookup n p = Some (File x r).
Proof.
  induction q as [|c q IH]; intros n n' d p x r; [discriminate|].
  destruct n as [y s|es]; [discriminate|].
  destruct q as [|c' q].
  - intros W Hne. apply FSFacts.write_leaf_ok in W as [-> E].
    destruct p as [|c0 p]; [discriminate|]. rewrite !FSFacts.lookup_cons.
    destruct (String.eqb_spec c c0) as [<-|Hc].
    + rewrite FSFacts.assoc_set_entry_same.
      destruct p; [congruence|discriminate].
    + now rewrite FSFacts.assoc_set_entry_other by exact Hc.
  - intros W Hne. apply FSFacts.write_inner_ok in W as (m & m' & A & W & ->).
    destruct p as [|c0 p]; [discriminate|]. rewrite !FSFacts.lookup_cons.
    destruct (String.eqb_spec c c0) as [<-|Hc].
    + rewrite FSFacts.assoc_set_entry_same, A.
      apply IH with (d := d); [exact W|congruence].
    + now rewrite FSFacts.assoc_set_entry_other by exact Hc.
Qed.

(** A removal that succeeds leaves nothing at the path. *)
Lemma rmtree_gone (win : bool) (path : list string) :
  forall n n', rmtree win n path = (n', Ok tt) -> lookup n' path = None.
Proof.
  induction path as [|c rest IH]; intros n n'.
  - destruct n as [y s|es]; cbn [rmtree]; [discriminate|].
    destruct (remove_node win (Dir es)); discriminate.
  - destruct n as [y s|es]; [discriminate|]. cbn [rmtree].
    destruct (assoc c es) as [m|] eqn:A; [|destruct rest; discriminate].
    assert (Rec : (let '(m', r) := rmtree win m rest in (Dir (set_entry c m' es), r))
                  = (n', Ok tt) -> lookup n' (c :: rest) = None).
    { destruct (rmtree win m rest) as [m' r] eqn:R. intros [= <- ->].
      rewrite FSFacts.lookup_cons, FSFacts.assoc_set_entry_same.
      now apply IH with (n := m). }
    destruct m as [y s|sub]; [destruct rest; exact Rec|].
    destruct rest as [|c' rest]; [|exact Rec].
    destruct (remove_node win (Dir sub)); [|discriminate].
    intros [= <-]. rewrite FSFacts.lookup_cons, assoc_remove_entry_same.
    reflexivity.
Qed.

(** Whatever the outcome, a regular file that does not lie at or below
    the path is as it was. *)
Lemma rmtree_outside (win : bool) (path : list string) :
  forall n n' res p x r,
    rmtree win n path = (n', res) ->
    lookup n p = Some (File x r) ->
    (forall q, p <> (path ++ q)%list) ->
    lookup n' p = Some (File x r).
Proof.
  induction path as [|c rest IH]; intros n n' res p x r.
  - intros _ _ Hout. exfalso. now apply (Hout p).
  - destruct n as [y s|es]; [now intros [= <- _]|]. cbn [rmtree].
    destruct p as [|c0 p]; [discriminate|].
    rewrite FSFacts.lookup_cons.
    destruct (assoc c es) as [m|] eqn:A;
      [|destruct rest; intros [= <- _] L _; now rewrite FSFacts.lookup_cons].
    assert (Rec : (let '(m', r) := rmtree win m rest in (Dir (set_entry c m' es), r))
                  = (n', res) ->
                  rest <> [] \/ (exists y s, m = File y s) ->
                  match assoc c0 es with
                  | Some m0 => lookup m0 p
                  | None => None
                  end = Some (File x r) ->
                  (forall q, c0 :: p <> ((c :: rest) ++ q)%list) ->
                  lookup n' (c0 :: p) = Some (File x r)).
    { destruct (rmtree win m rest) as [m' r'] eqn:R. intros [= <- _] Hcase L Hout.
      rewrite FSFacts.lookup_cons.
      destruct (String.eqb_spec c c0) as [<-|Hc].
      - rewrite FSFacts.assoc_set_entry_same. rewrite A in L.
        destruct rest as [|c' rest].
        + destruct Hcase as [Hc|(y & s & ->)]; [congruence|].
          cbn [rmtree] in R. injection R as <- _. exact L.
        + apply IH with (n := m) (res := r'); [exact R|exact L|].
          intros q E. apply (Hout q). simpl. now rewrite E.
      - now rewrite FSFacts.assoc_set_entry_other by exact Hc. }
    destruct m as [y s|sub].
    { destruct rest; intros E; apply Rec; eauto. }
    destruct rest as [|c' rest]; [|intros E; apply Rec; [exact E|left; discriminate]].
    intros E L Hout.
    assert (Hc : c <> c0).
    { intros <-. apply (Hout p). reflexivity. }
    destruct (remove_node win (Dir sub)); injection E as <- _;
      rewrite FSFacts.lookup_cons.
    + now rewrite assoc_remove_entry_other by exact Hc.
    + now rewrite FSFacts.assoc_set_entry_other by exact Hc.
Qed.


(** ** Trees that can be removed *)

Section NodeInduction.
Variable P : node -> Prop.
Hypothesis on_file : forall d r, P (File d r).
Hypothesis on_dir : forall es, Forall (fun e => P (snd e)) es -> P (Dir es).

Fixpoint node_induction (n : node) : P n :=
  match n with
  | File d r => on_file d r
  | Dir es =>
      on_dir es
        ((fix go (l : entries_t) : Forall (fun e => P (snd e)) l :=
            match l with
            | [] => Forall_nil _
            | (k, m) :: r =>
                Forall_cons (P := fun e => P (snd e)) (k, m)
                            (node_induction m) (go r)
            end) es)
  end.
End NodeInduction.

(** The loop of [remove_node] over the entries of a directory. *)
Fixpoint clear_entries (win : bool) (l : entries_t) : entries_t * option string :=
  match l with
  | [] => ([], None)
  | (name, m) :: r =>
      match remove_node win m with
      | Removed => clear_entries win r
      | Stuck m' e => ((name, m') :: r, Some e)
      end
  end.

Lemma remove_node_dir (win : bool) (es : entries_t) :
  remove_node win (Dir es)
  = match clear_entries win es with
    | (_, None) => Removed
    | (rest, Some e) => Stuck (Dir rest) e
    end.
Proof.
  cbn [remove_node].
  match goal with
  | |- match ?f es with _ => _ end = _ =>
      assert (E : forall l, f l = clear_entries win l)
  end.
  { induction l as [|[k m] r IH]; [reflexivity|].
    cbn [clear_entries]. destruct (remove_node win m); [exact IH|reflexivity]. }
  now rewrite E.
Qed.

(** Whether some file of the tree resists removal: a read-only file on
    Windows. *)
Fixpoint resists (win : bool) (n : node) : bool :=
  match n with
  | File _ ro => win && ro
  | Dir es =>
      (fix any (l : entries_t) : bool :=
         match l with
         | [] => false
         | (_, m) :: r => resists win m || any r
         end) es
  end.

Lemma resists_dir (win : bool) (es : entries_t) :
  resists win (Dir es) = existsb (fun e => resists win (snd e)) es.
Proof.
  cbn [resists]. induction es as [|[k m] r IH]; [reflexivity|].
  cbn [existsb snd]. now rewrite IH.
Qed.

Lemma remove_node_free (win : bool) (n : node) :
  resists win n = false -> remove_node win n = Removed.
Proof.
  induction n as [d r|es IH] using node_induction.
  - cbn [resists remove_node]. now intros ->.
  - rewrite resists_dir, remove_node_dir. intros Hr.
    assert (E : clear_entries win es = ([], None)).
    { induction es as [|[k m] rest IHes]; [reflexivity|].
      cbn [existsb snd] in Hr. apply orb_false_iff in Hr as [Hm Hrest].
      inversion IH as [|? ? Hk Htl]; subst. cbn [snd] in Hk.
      cbn [clear_entries]. rewrite (Hk Hm). now apply IHes. }
    now rewrite E.
Qed.

Lemma resists_elsewhere (n : node) : resists false n = false.
Proof.
  induction n as [d r|es IH] using node_induction; [reflexivity|].
  rewrite resists_dir. induction es as [|[k m] rest IHes]; [reflexivity|].
  inversion IH as [|? ? Hk Htl]; subst. cbn [snd] in Hk.
  cbn [existsb snd]. rewrite Hk. now apply IHes.
Qed.


(** A directory none of whose files resists is removed. *)
Lemma rmtree_removes (win : bool) (path : list string) :
  forall n es,
    path <> [] -> lookup n path = Some (Dir es) ->
    remove_node win (Dir es) = Removed ->
    exists n', rmtree win n path = (n', Ok tt).
Proof.
  induction path as [|c rest IH]; intros n es Hne L Hr; [congruence|]. clear Hne.
  destruct n as [y s|ens]; [discriminate|].
  rewrite FSFacts.lookup_cons in L. cbn [rmtree].
  destruct (assoc c ens) as [m|] eqn:A; [|discriminate].
  destruct rest as [|c' rest].
  - cbn [lookup] in L. injection L as ->. rewrite Hr. eauto.
  - destruct (IH m es) as [m' E]; [discriminate|exact L|exact Hr|].
    rewrite E. destruct m; eauto.
Qed.

(** Removing a file makes no file. *)
Lemma unlink_no_new_file (win : bool) (path : list string) :
  forall n n' p x r,
    unlink win n path = Ok n' -> lookup n' p = Some (File x r) ->
    lookup n p = Some (File x r).
Proof.
  induction path as [|c rest IH]; intros n n' p x r; [destruct win; discriminate|].
  destruct n as [y s|es]; [discriminate|]. cbn [unlink].
  destruct (assoc c es) as [m|] eqn:A; [|destruct rest; discriminate].
  assert (Rec : match unlink win m rest with
                | Ok m' => Ok (Dir (set_entry c m' es))
                | Raise e => Raise e
                end = Ok n' ->
                lookup n' p = Some (File x r) ->
                lookup (Dir es) p = Some (File x r)).
  { destruct (unlink win m rest) as [m'|e] eqn:U; [|discriminate].
    intros [= <-]. destruct p as [|c0 p]; [discriminate|].
    rewrite !FSFacts.lookup_cons.
    destruct (String.eqb_spec c c0) as [<-|Hc].
    - rewrite FSFacts.assoc_set_entry_same, A. now apply IH.
    - now rewrite FSFacts.assoc_set_entry_other by exact Hc. }
  destruct rest as [|c' rest]; [|destruct m; exact Rec].
  destruct m as [y ro|sub]; [|destruct win; discriminate].
  destruct (win && ro); [discriminate|].
  intros [= <-]. destruct p as [|c0 p]; [discriminate|].
  rewrite !FSFacts.lookup_cons.
  destruct (String.eqb_spec c c0) as [<-|Hc].
  - now rewrite assoc_remove_entry_same.
  - now rewrite assoc_remove_entry_other by exact Hc.
Qed.

End RemovalFacts.

(* ================================================================== *)
(** * More about the helpers and the flows *)
(* ================================================================== *)

Module EngineFacts.

Import Runs Loader LoaderFacts PyStr.
Local Open Scope string_scope.

Ltac step :=
  match goal with
  | |- preserves _ (ret _) => apply preserves_ret; exact _
  | |- preserves _ (raise _) => apply preserves_raise; exact _
  | |- preserves _ (bind _ _) => apply preserves_bind; [exact _| |intros ?]
  | |- preserves _ (catch _ _) => apply preserves_catch; [exact _| |intros ?]
  | |- preserves _ (for_each _ _) =>
      apply preserves_for_each; [exact _|intros ?]
  | |- preserves _ (read_local _ _) => apply preserves_read_local; exact _
  | |- preserves _ (lift _) =>
      apply silent_preserves; [exact _|apply silent_lift]
  | |- preserves _ (os_path_exists _ _) =>
      apply silent_preserves; [exact _|apply silent_os_path_exists]
  | |- preserves _ (os_path_isdir _ _) =>
      apply silent_preserves; [exact _|apply silent_os_path_isdir]
  | |- preserves _ (os_listdir _ _) =>
      apply silent_preserves; [exact _|apply silent_os_listdir]
  | |- preserves _ (os_walk _ _) =>
      apply silent_preserves; [exact _|apply silent_os_walk]
  | |- preserves _ (file_read _ _) =>
      apply silent_preserves; [exact _|apply silent_file_read]
  | |- preserves (grows _) (os_makedirs _ _) => apply grows_os_makedirs
  | |- preserves (grows _) (open_write _ _) => apply grows_open_write
  | |- preserves (grows _) (file_write _ _ _) => apply grows_file_write
  | |- preserves (grows _) (emit _) => apply grows_emit; reflexivity
  | |- preserves (logs _) (emit _) => apply logs_emit; reflexivity
  | |- preserves _ (logger _ _) => unfold logger
  | |- preserves _ (call _ _) => unfold call
  | |- preserves _ (if ?b then _ else _) => destruct b
  | |- preserves _ (match ?x with _ => _ end) => destruct x
  end.

Ltac steps := repeat step.

(** A host that differs in the variable [JDK_HOME] only. *)
Definition with_jdk_home (H : Host) (v : option string) : Host :=
  {| is_windows := is_windows H;
     getcwd := getcwd H;
     environ := fun k => if String.eqb k "JDK_HOME" then v else environ H k;
     which := which H;
     requests_get := requests_get H;
     zip_decode := zip_decode H;
     popen := popen H;
     percent := percent H;
     repr_list := repr_list H;
     name_ok := name_ok H |}.

Section WithHost.
Variable H : Host.

(** ** Looking for java *)

Lemma find_bundled_run (client_dir : string) (entries : list string) (st : state) :
  find_bundled H client_dir entries st = (Ok None, st)
  \/ exists c,
      find_bundled H client_dir entries st
      = (Ok (Some c),
         {| fs := fs st;
            trace := (trace st ++ [Log INFO ("Found bundled java: " ++ c)])%list |})
      /\ exists_at H c st = true.
Proof.
  induction entries as [|entry rest IH]; [now left|].
  remember (find_bundled H client_dir (entry :: rest) st) as out eqn:Eo.
  cbn [find_bundled] in Eo.
  destruct (startswith (lower entry) "jre" || startswith (lower entry) "jdk");
    [|subst out; exact IH].
  unfold bind at 1, os_path_exists at 1 in Eo.
  destruct (located H _ st) as [n|] eqn:L; [|subst out; exact IH].
  subst out. right. eexists. split; [reflexivity|].
  unfold exists_at. now rewrite L.
Qed.

(** X6.  Every lookup of java returns and is logged exactly once, the
    filesystem being left alone: a hit as an INFO record, a miss as the
    warning that java was not found.  A hit is a path that exists, or
    what the search path gave (which is not checked here). *)
Theorem find_java_answer_is_logged (client_dir : string) (st : state) :
  exists lvl msg,
    snd (find_java_executable H client_dir st)
    = {| fs := fs st; trace := (trace st ++ [Log lvl msg])%list |}
    /\ match fst (find_java_executable H client_dir st) with
       | Ok (Some j) =>
           lvl = INFO /\ (exists_at H j st = true \/ which H "java" = Some j)
       | Ok None =>
           lvl = WARNING /\ msg = "Java not found"
           /\ truthy (which H "java") = false
       | Raise _ => False
       end.
Proof.
  remember (find_java_executable H client_dir st) as out eqn:Eo.
  unfold find_java_executable in Eo. unfold bind at 1, catch in Eo.
  assert (B : (d <- os_path_isdir H client_dir ;;
               if d then entries <- os_listdir H client_dir ;;
                         find_bundled H client_dir entries
               else ret None) st = (Ok None, st)
              \/ exists c,
                  (d <- os_path_isdir H client_dir ;;
                   if d then entries <- os_listdir H client_dir ;;
                             find_bundled H client_dir entries
                   else ret None) st
                  = (Ok (Some c),
                     {| fs := fs st;
                        trace := (trace st ++ [Log INFO ("Found bundled java: " ++ c)])%list |})
                  /\ exists_at H c st = true).
  { unfold bind, os_path_isdir, os_listdir.
    destruct (located H client_dir st) as [[x r|es]|] eqn:L; cbv beta iota;
      try (now left).
    rewrite L. apply find_bundled_run. }
  destruct B as [B|(c & B & X)]; rewrite B in Eo; cbv beta iota in Eo.
  2:{ subst out. do 2 eexists. split; [reflexivity|]. cbn [fst ret]. auto. }
  assert (W : exists lvl msg,
             (if truthy (which H "java")
              then match which H "java" with
                   | Some path => logger INFO ("Found java in PATH: " ++ path) ;;;
                                  ret (Some path)
                   | None => ret None
                   end
              else logger WARNING "Java not found" ;;; ret None) st
             = (fst ((if truthy (which H "java")
                      then match which H "java" with
                           | Some path => logger INFO ("Found java in PATH: " ++ path) ;;;
                                          ret (Some path)
                           | None => ret None
                           end
                      else logger WARNING "Java not found" ;;; ret None) st),
                {| fs := fs st; trace := (trace st ++ [Log lvl msg])%list |})
             /\ match fst ((if truthy (which H "java")
                            then match which H "java" with
                                 | Some path => logger INFO ("Found java in PATH: " ++ path) ;;;
                                                ret (Some path)
                                 | None => ret None
                                 end
                            else logger WARNING "Java not found" ;;; ret None) st) with
                | Ok (Some j) => lvl = INFO /\ which H "java" = Some j
                | Ok None => lvl = WARNING /\ msg = "Java not found"
                             /\ truthy (which H "java") = false
                | Raise _ => False
                end).
  { destruct (which H "java") as [[|a p]|]; do 2 eexists; split;
      try reflexivity; simpl; auto. }
  destruct W as (lvl & msg & W & Wr).
  destruct (py_or (environ H "JAVA_HOME") (environ H "JDK_HOME")) as [home|] eqn:Eh.
  - destruct (truthy (Some home)).
    + unfold bind at 1 in Eo. unfold bind at 1, os_path_exists at 1 in Eo.
      case_eq (located H (os_path_join H home ["bin"; java_name H]) st);
        [intros n L|intros L]; rewrite L in Eo; cbv beta iota in Eo.
      * subst out. do 2 eexists. split; [reflexivity|]. cbn [fst].
        split; [reflexivity|]. left. unfold exists_at. now rewrite L.
      * cbn [ret] in Eo. cbv beta iota in Eo. rewrite W in Eo. subst out.
        exists lvl, msg. split; [reflexivity|]. cbn [fst].
        destruct (fst _) as [[j|]|e]; intuition.
    + unfold bind at 1 in Eo. cbn [ret] in Eo. cbv beta iota in Eo.
      rewrite W in Eo. subst out.
      exists lvl, msg. split; [reflexivity|]. cbn [fst].
      destruct (fst _) as [[j|]|e]; intuition.
  - unfold bind at 1 in Eo. cbn [ret] in Eo. cbv beta iota in Eo.
    rewrite W in Eo. subst out.
    exists lvl, msg. split; [reflexivity|]. cbn [fst].
    destruct (fst _) as [[j|]|e]; intuition.
Qed.

(** X7.  When [JAVA_HOME] is set, [JDK_HOME] is never looked at, also
    when [JAVA_HOME] holds no java: whatever [JDK_HOME] is, the lookup
    runs the same and goes on to the search path. *)
Theorem java_home_shadows_jdk_home (client_dir : string) (v : option string)
        (st : state) :
  truthy (environ H "JAVA_HOME") = true ->
  find_java_executable (with_jdk_home H v) client_dir st
  = find_java_executable H client_dir st.
Proof.
  intros Hj. unfold find_java_executable, py_or.
  cbn [environ with_jdk_home which]. simpl String.eqb. cbv iota.
  rewrite Hj. reflexivity.
Qed.

(** ** Creating directories *)

Lemma app_cons_not_self {X} (l r : list X) (x : X) : (l ++ x :: r)%list <> l.
Proof.
  intros E. apply (f_equal (@List.length X)) in E.
  rewrite length_app in E. simpl in E. lia.
Qed.

(** One call of [os.makedirs]: the log is not written to, no regular
    file is made, and when the call returns the directory is there. *)
Lemma os_makedirs_run (p : string) (st : state) :
  exists res s',
    os_makedirs H p st = (res, s')
    /\ trace s' = trace st
    /\ (forall q x r, FS.lookup (fs s') q = Some (FS.File x r) ->
                      FS.lookup (fs st) q = Some (FS.File x r))
    /\ (res = Ok tt -> is_dir_at H p s' = true).
Proof.
  unfold os_makedirs. destruct p as [|a p].
  - exists (Raise "FileNotFoundError"), st. repeat split; auto. discriminate.
  - destruct (FS.makedirs _ (fs st) _) as [n res] eqn:Mk.
    exists res. eexists. split; [reflexivity|]. split; [reflexivity|]. split.
    + intros q x r. exact (RemovalFacts.makedirs_no_new_file _ _ _ _ _ q x r Mk).
    + intros ->. unfold is_dir_at. rewrite located_eq by discriminate. cbn [fs].
      destruct (RemovalFacts.makedirs_is_dir _ _ _ _ Mk) as [es ->]. reflexivity.
Qed.

(** X8.  [safe_makedirs] never raises, leaves every regular file as it
    is and makes none.  It writes nothing to the log when the first
    call makes the directory, which is then there (under the long form
    of the path on Windows); one DEBUG record when the second call
    makes it, under the path as given; and a DEBUG and an ERROR record
    when both calls fail. *)
Theorem safe_makedirs_outcome (path : string) (st : state) :
  fst (safe_makedirs H path st) = Ok tt
  /\ keeps_content st (snd (safe_makedirs H path st))
  /\ (forall p x r,
        FS.lookup (fs (snd (safe_makedirs H path st))) p = Some (FS.File x r) ->
        FS.lookup (fs st) p = Some (FS.File x r))
  /\ exists new,
      trace (snd (safe_makedirs H path st)) = (trace st ++ new)%list
      /\ (new = [] ->
          is_dir_at H (if is_windows H then add_long_path_prefix H path else path)
                    (snd (safe_makedirs H path st)) = true)
      /\ (new = []
          \/ (exists e,
                new = [Log DEBUG ("safe_makedirs fallback: " ++ e)]
                /\ is_dir_at H path (snd (safe_makedirs H path st)) = true)
          \/ (exists e e2,
                new = [Log DEBUG ("safe_makedirs fallback: " ++ e);
                       Log ERROR ("safe_makedirs failed: " ++ e2)])).
Proof.
  split; [destruct (safe_safe_makedirs H path st) as [[] E]; exact E|].
  split; [apply keeps_content_safe_makedirs|].
  set (first := if is_windows H then add_long_path_prefix H path else path).
  assert (E1 : (if is_windows H then os_makedirs H (add_long_path_prefix H path)
                else os_makedirs H path) = os_makedirs H first).
  { unfold first. now destruct (is_windows H). }
  remember (safe_makedirs H path st) as out eqn:Eo.
  unfold safe_makedirs in Eo. fold (is_windows H) in Eo. rewrite E1 in Eo.
  unfold catch at 1 in Eo.
  destruct (os_makedirs_run first st) as (res1 & s1 & E & T1 & N1 & D1).
  rewrite E in Eo. destruct res1 as [[]|e].
  - subst out. cbn [snd]. split; [exact N1|].
    exists []. split; [now rewrite app_nil_r, T1|]. split; [|now left].
    intros _. now apply D1.
  - unfold bind, logger, emit, catch in Eo. cbn [fst snd] in Eo.
    set (s2 := {| fs := fs s1; trace := (trace s1 ++ [Log DEBUG _])%list |}) in Eo.
    destruct (os_makedirs_run path s2) as (res2 & s3 & E2 & T3 & N3 & D3).
    rewrite E2 in Eo. destruct res2 as [[]|e2]; subst out; cbn [snd fs trace].
    + split; [intros p x r L; apply N1; exact (N3 p x r L)|].
      eexists. split; [rewrite T3; unfold s2; cbn [trace]; rewrite T1; reflexivity|].
      split; [discriminate|]. right. left. exists e. split; [reflexivity|].
      now apply D3.
    + split; [intros p x r L; apply N1; exact (N3 p x r L)|].
      eexists. split.
      * rewrite T3. unfold s2. cbn [trace]. rewrite T1, <- app_assoc. reflexivity.
      * split; [discriminate|]. right. right. now exists e, e2.
Qed.


(** ** Knowing what a step returned *)

Lemma preserves_bind_yields (R : state -> state -> Prop) {RO : StateOrder R}
      {A B} (Q : A -> Prop) (m : M A) (k : A -> M B) :
  yields Q m -> preserves R m -> (forall a, Q a -> preserves R (k a)) ->
  preserves R (bind m k).
Proof.
  intros Hy Hm Hk st. unfold bind. specialize (Hm st). specialize (Hy st).
  destruct (m st) as [[a|e] st1]; cbn [fst snd] in *; [|exact Hm].
  eapply so_trans; [exact Hm|]. now apply Hk, Hy.
Qed.

(** ** Events by kind *)

Definition log_event (e : event) : bool :=
  match e with Log _ _ => true | _ => false end.

Definition progress_event (e : event) : bool :=
  match e with Progress _ => true | _ => false end.

Definition is_log (e : event) : Prop := log_event e = true.

Definition no_progress (e : event) : Prop := progress_event e = false.

Lemma log_no_progress (e : event) : is_log e -> no_progress e.
Proof. unfold is_log, no_progress. now destruct e. Qed.

Lemma filter_progress_logs (l : list event) :
  Forall is_log l -> filter progress_event l = [].
Proof.
  induction 1 as [|e l He _ IH]; [reflexivity|].
  simpl. rewrite (log_no_progress e He). exact IH.
Qed.

Lemma grows_is_log_safe_makedirs (path : string) :
  preserves (grows is_log) (safe_makedirs H path).
Proof. unfold safe_makedirs. steps. Qed.

(** ** The fetcher *)

(** With no length announced the chunks are written and nothing is
    reported. *)
Lemma write_chunks_unannounced (P : event -> Prop) (dest_path : string)
      (chunks : list string) :
  forall downloaded,
    preserves (grows P)
              (write_chunks H dest_path 0 (Some Progress) downloaded chunks).
Proof.
  induction chunks as [|chunk rest IH]; intros downloaded; cbn [write_chunks];
    [steps|].
  destruct chunk as [|c chunk]; [apply IH|].
  step; [step|]. step; [cbn [Z.eqb negb]; step|]. apply IH.
Qed.

Lemma yields_content_length (r : Response) :
  In (content_length r) [None; Some ""; Some "0"] ->
  yields (fun total => total = 0%Z) (content_length_total r).
Proof.
  intros Hin st total. unfold content_length_total.
  destruct Hin as [<-|[<-|[<-|[]]]]; cbn; now intros [= <-].
Qed.

(** X10.  A response that announces no length, or an empty one, or the
    length 0, is downloaded without a single progress report. *)
Theorem unannounced_length_reports_no_progress (url dest_path : string)
        (r : Response) (st : state) :
  requests_get H url = Ok r ->
  In (content_length r) [None; Some ""; Some "0"] ->
  exists new,
    trace (snd (download_file H url dest_path (Some Progress) (Some Status) st))
    = (trace st ++ new)%list
    /\ Forall no_progress new.
Proof.
  intros Hr Hc.
  assert (G : preserves (grows no_progress)
                        (download_file H url dest_path (Some Progress) (Some Status))).
  { unfold download_file, fetch.
    step; [|steps].
    step; [unfold safe_makedirs; steps|].
    apply preserves_bind_yields with (Q := fun a => a = r); [exact _| | |].
    - intros s0 r0. unfold lift. rewrite Hr. cbn. now intros [= <-].
    - step.
    - intros ? ->. step; [steps|].
      apply preserves_bind_yields with (Q := fun total => total = 0%Z);
        [exact _|now apply yields_content_length| |].
      + unfold content_length_total. steps.
      + intros ? ->. step; [step|]. step; [apply write_chunks_unannounced|].
        steps. }
  destruct (G st) as [(new & T & F) _]. now exists new.
Qed.

(** X9.  A download returns [True] only when the request succeeded, the
    status was no error and the stream did not break; the destination
    then holds the chunks received and nothing else, whatever it held
    before, and the run ends with the status that the download is
    complete and the record of it. *)
Theorem download_true_means_complete (url dest_path : string) (st : state) :
  fst (download_file H url dest_path (Some Progress) (Some Status) st) = Ok true ->
  exists r,
    requests_get H url = Ok r
    /\ status_error r = None /\ body_error r = None
    /\ FS.read (fs (snd (download_file H url dest_path (Some Progress)
                                       (Some Status) st)))
               (OsPath.components (is_windows H) dest_path)
       = Ok (concat_all (body r))
    /\ exists pre,
        trace (snd (download_file H url dest_path (Some Progress) (Some Status) st))
        = (trace st ++ pre
             ++ [Status "Download complete";
                 Log INFO ("Downloaded: " ++ url ++ " -> " ++ dest_path)])%list.
Proof.
  remember (download_file H url dest_path (Some Progress) (Some Status) st)
    as out eqn:Eo.
  unfold download_file, catch in Eo.
  remember (fetch H url dest_path (Some Progress) (Some Status) st) as f eqn:Ef.
  unfold fetch in Ef. unfold bind at 1 in Ef.
  pose proof (grows_safe_makedirs H (OsPath.dirname (is_windows H) dest_path) st)
    as [(n1 & T1 & _) _].
  destruct (run_safe _ st (safe_safe_makedirs H (OsPath.dirname (is_windows H) dest_path)))
    as [[] E1].
  rewrite E1 in Ef.
  set (s1 := snd (safe_makedirs H (OsPath.dirname (is_windows H) dest_path) st)) in *.
  unfold bind at 1, lift in Ef.
  destruct (requests_get H url) as [r|e] eqn:Er;
    [|subst f out; discriminate].
  unfold bind at 1 in Ef.
  destruct (status_error r) as [e|] eqn:Es; [subst f out; discriminate|].
  cbn [ret] in Ef. unfold bind at 1 in Ef.
  assert (C : (exists total, content_length_total r s1 = (Ok total, s1))
              \/ exists e, content_length_total r s1 = (Raise e, s1)).
  { unfold content_length_total.
    destruct (content_length r) as [[|a s]|]; try (left; eexists; reflexivity).
    destruct (py_int _); [left|right]; eexists; reflexivity. }
  destruct C as [[total Ec]|[e Ec]]; rewrite Ec in Ef;
    [|subst f out; discriminate].
  unfold bind at 1 in Ef.
  destruct (open_write_cases H dest_path s1) as [[e Eow]|(s2 & Eow & H2 & T2)];
    rewrite Eow in Ef; [subst f out; discriminate|].
  unfold bind at 1 in Ef.
  pose proof (grows_write_chunks H dest_path total 0%Z (body r) s2)
    as [(n3 & T3 & _) _].
  destruct (write_chunks_holds H dest_path total (body r) 0%Z "" s2 H2)
    as (s3 & Ew & H3).
  rewrite Ew in Ef, T3. cbn [snd] in T3. unfold bind at 1 in Ef.
  destruct (body_error r) as [e|] eqn:Eb; [subst f out; discriminate|].
  subst f out. intros _. exists r.
  split; [reflexivity|]. split; [exact Es|]. split; [exact Eb|].
  unfold call, logger, emit, bind, ret. cbn [fst snd fs trace]. split.
  - now apply holds_read.
  - exists (n1 ++ n3)%list. rewrite T3, T2, T1, <- !app_assoc. reflexivity.
Qed.

(** ** The extractor *)

Lemma extract_unopened (zip_path target_dir : string)
      (pcb : option (Z -> event)) (scb : option (string -> event))
      (e : string) (st : state) :
  fst (zip_infolist H zip_path st) = Raise e ->
  extract_zip_manual H zip_path target_dir pcb scb st
  = (Ok false,
     {| fs := fs st;
        trace := (trace st ++ [Log ERROR ("extract_zip_manual error: " ++ e)])%list |}).
Proof.
  intros Hz. unfold extract_zip_manual, catch, unpack. unfold bind at 1.
  rewrite zip_infolist_run, Hz. reflexivity.
Qed.

(** X11.  An archive that cannot be opened (absent, unreadable or not a
    zip file) makes the extraction return [False] after one ERROR
    record: nothing is created, no callback is called, no marker is
    written. *)
Theorem unopened_archive_extracts_nothing (zip_path target_dir : string)
        (pcb : option (Z -> event)) (scb : option (string -> event))
        (e : string) (st : state) :
  fst (zip_infolist H zip_path st) = Raise e ->
  fst (extract_zip_manual H zip_path target_dir pcb scb st) = Ok false
  /\ fs (snd (extract_zip_manual H zip_path target_dir pcb scb st)) = fs st
  /\ trace (snd (extract_zip_manual H zip_path target_dir pcb scb st))
     = (trace st ++ [Log ERROR ("extract_zip_manual error: " ++ e)])%list.
Proof.
  intros Hz. rewrite (extract_unopened _ _ _ _ e st Hz). repeat split.
Qed.

Lemma grows_is_log_copy_member (member : ZipInfo) (path : string) :
  preserves (grows is_log) (copy_member H member path).
Proof. unfold copy_member. steps. Qed.

(** The two write attempts of a member. *)
Definition write_attempts (target_dir : string) (member : ZipInfo) : M unit :=
  catch
    (copy_member H member (add_long_path_prefix H (target_path_of H target_dir member)))
    (fun e =>
       logger DEBUG ("Primary extract failed for " ++ filename member ++ ": " ++ e) ;;;
       catch
         (copy_member H member (target_path_of H target_dir member))
         (fun e2 => logger ERROR ("Failed to extract " ++ filename member ++ ": " ++ e2))).

Lemma grows_is_log_write_attempts (target_dir : string) (member : ZipInfo) :
  preserves (grows is_log) (write_attempts target_dir member).
Proof.
  unfold write_attempts.
  step; [apply grows_is_log_copy_member|].
  step; [steps|]. step; [apply grows_is_log_copy_member|steps].
Qed.

Lemma safe_write_attempts (target_dir : string) (member : ZipInfo) :
  safe (write_attempts target_dir member).
Proof.
  unfold write_attempts. apply safe_catch. intros e.
  apply safe_bind; [apply safe_emit|intros _].
  apply safe_catch. intros e2. apply safe_emit.
Qed.

(** What one turn of the loop reports: records of the log, then, for a
    member that is a file, the progress and the status. *)
Lemma extract_member_events (target_dir : string) (total idx extracted : nat)
      (member : ZipInfo) (st : state) :
  exists st' pre,
    extract_member H target_dir total (Some Progress) (Some Status)
                   idx extracted member st
    = (Ok (if is_directory_entry H member then extracted else S extracted), st')
    /\ trace st'
       = (trace st ++ pre
            ++ (if is_directory_entry H member then []
                else [Progress (percent H (Z.of_nat (S extracted)) (Z.of_nat total));
                      Status ("Extracting " ++ str_of_nat idx ++ "/"
                                ++ str_of_nat total)]))%list
    /\ Forall is_log pre.
Proof.
  remember (extract_member H target_dir total (Some Progress) (Some Status)
                           idx extracted member st) as out eqn:Eo.
  unfold extract_member in Eo. cbv zeta in Eo. unfold bind at 1 in Eo.
  destruct (run_safe _ st (safe_make_parent H (target_path_of H target_dir member)))
    as [[] E1].
  rewrite E1 in Eo.
  set (s1 := snd (make_parent H (target_path_of H target_dir member) st)) in *.
  assert (G1 : grows is_log st s1).
  { unfold s1, make_parent.
    destruct (OsPath.dirname _ _); [apply so_refl|apply grows_is_log_safe_makedirs]. }
  destruct G1 as [(n1 & T1 & F1) _].
  destruct (is_directory_entry H member).
  - subst out. exists s1, n1. split; [reflexivity|].
    split; [now rewrite T1, app_nil_r|exact F1].
  - fold (write_attempts target_dir member) in Eo. unfold bind at 1 in Eo.
    destruct (run_safe _ s1 (safe_write_attempts target_dir member)) as [[] E2].
    rewrite E2 in Eo.
    destruct (grows_is_log_write_attempts target_dir member s1) as [(n2 & T2 & F2) _].
    set (s2 := snd (write_attempts target_dir member s1)) in *.
    subst out. unfold call, emit, bind, ret. cbn [fst snd].
    eexists. exists (n1 ++ n2)%list. split; [reflexivity|]. cbn [trace].
    split; [rewrite T2, T1, <- !app_assoc; reflexivity|].
    apply Forall_app. now split.
Qed.

(** The members that are files. *)
Definition file_members (members : list ZipInfo) : list ZipInfo :=
  filter (fun m => negb (is_directory_entry H m)) members.

Lemma extract_members_progress (target_dir : string) (total : nat)
      (members : list ZipInfo) :
  forall idx extracted st,
  exists st' new,
    extract_members H target_dir total (Some Progress) (Some Status)
                    idx extracted members st = (Ok tt, st')
    /\ trace st' = (trace st ++ new)%list
    /\ filter progress_event new
       = map (fun k => Progress (percent H (Z.of_nat k) (Z.of_nat total)))
             (seq (S extracted) (List.length (file_members members))).
Proof.
  induction members as [|member rest IH]; intros idx extracted st.
  - exists st, []. cbn. now rewrite app_nil_r.
  - cbn [extract_members]. unfold bind.
    destruct (extract_member_events target_dir total idx extracted member st)
      as (s1 & pre & E1 & T1 & F1).
    rewrite E1.
    destruct (IH (S idx)
                 (if is_directory_entry H member then extracted else S extracted) s1)
      as (s2 & n2 & E2 & T2 & P2).
    rewrite E2. exists s2. eexists. split; [reflexivity|].
    split; [rewrite T2, T1, <- !app_assoc; reflexivity|].
    rewrite !filter_app, (filter_progress_logs pre F1), P2.
    unfold file_members. cbn [filter].
    destruct (is_directory_entry H member); reflexivity.
Qed.

(** X12.  The progress of an extraction counts the members that are
    files, against a total that counts every member: the k-th file
    reports [int(k / total * 100)], whatever became of it, and a
    directory entry reports nothing.  An archive with directory entries
    therefore never reports that all of it is done. *)
Theorem extraction_progress_counts_files (zip_path target_dir : string)
        (members : list ZipInfo) (st : state) :
  fst (zip_infolist H zip_path st) = Ok members ->
  exists new,
    trace (snd (extract_zip_manual H zip_path target_dir (Some Progress)
                                   (Some Status) st))
    = (trace st ++ new)%list
    /\ filter progress_event new
       = map (fun k => Progress (percent H (Z.of_nat k)
                                         (Z.of_nat (total_of members))))
             (seq 1 (List.length (file_members members))).
Proof.
  intros Hz. unfold extract_zip_manual, catch.
  destruct (unpack_run H zip_path target_dir members st Hz)
    as (s2 & -> & T2 & _ & _).
  cbn [snd trace].
  destruct (extract_members_progress target_dir (total_of members) members 1 0 st)
    as (s1 & n1 & E1 & T1 & P1).
  unfold after_members in T2. rewrite E1 in T2. cbn [snd] in T2.
  eexists. split; [rewrite T2, T1, <- app_assoc; reflexivity|].
  rewrite filter_app, P1. cbn. now rewrite app_nil_r.
Qed.



(** ** The required-file check *)

(** X14.  The check finds nothing missing exactly when the libraries
    directory is a directory whose walk meets a file ending in [.jar]
    and the path of the version jar exists.  What the second entry of
    [REQUIRED_PATHS] names plays no part. *)
Theorem check_passes_iff (st : state) :
  fst (_check_required_files H st) = Ok []
  <-> is_dir_at H (libraries_dir H) st
      && walk_has_jar (walk_at H (libraries_dir H) st)
      && exists_at H (version_jar H) st = true.
Proof.
  rewrite check_required_files_result.
  unfold missing_items, version_report, libraries_report.
  destruct (exists_at H (version_jar H) st);
    destruct (is_dir_at H (libraries_dir H) st);
    try destruct (walk_has_jar _); cbn; split; congruence.
Qed.

Lemma walk_has_jar_file (w : list (string * list string * list string))
      (root : string) (dirs files : list string) (f : string) :
  In (root, dirs, files) w -> In f files -> endswith f ".jar" = true ->
  walk_has_jar w = true.
Proof.
  intros Hw Hf He. unfold walk_has_jar. apply existsb_exists.
  exists (root, dirs, files). split; [exact Hw|].
  apply existsb_exists. now exists f.
Qed.

(** X15.  One regular file whose name ends in [.jar], at any depth
    below the libraries directory, satisfies the check of the
    libraries; with the path of the version jar present nothing is
    reported missing. *)
Theorem one_jar_anywhere_passes (st : state) (sub : list string) (f data : string)
        (ro : bool) :
  FS.lookup (fs st)
            (OsPath.components (is_windows H) (libraries_dir H) ++ sub ++ [f])%list
  = Some (FS.File data ro) ->
  endswith f ".jar" = true ->
  exists_at H (version_jar H) st = true ->
  fst (_check_required_files H st) = Ok [].
Proof.
  intros L He Hv. rewrite check_required_files_result.
  unfold missing_items, version_report, libraries_report. rewrite Hv.
  rewrite FSFacts.lookup_app in L.
  unfold is_dir_at, walk_at.
  rewrite (located_eq H (libraries_dir H)) by apply libraries_dir_nonempty.
  destruct (FS.lookup (fs st) (OsPath.components (is_windows H) (libraries_dir H)))
    as [n|]; [|discriminate].
  assert (Hd : exists es, n = FS.Dir es).
  { destruct n as [x r|es]; [|eauto].
    destruct sub; discriminate. }
  destruct Hd as [es ->].
  destruct (FSFacts.walk_lists_file (OsPath.path_join (is_windows H)) sub f
              (FS.Dir es) (libraries_dir H) data ro L)
    as (dirs & files & Hw & Hf).
  now rewrite (walk_has_jar_file _ _ dirs files f Hw Hf He).
Qed.

(** What the check writes to the log, one detail line per item. *)
Definition libraries_detail (st : state) : list string :=
  if is_dir_at H (libraries_dir H) st
  then if walk_has_jar (walk_at H (libraries_dir H) st) then []
       else ["No .jar files found under: " ++ libraries_dir H]
  else ["Missing directory: " ++ libraries_dir H].

Definition version_detail (label : string) (st : state) : list string :=
  if exists_at H (version_jar H) st then [] else [label ++ version_jar H].

Definition detail_items (st : state) : list string :=
  (version_detail "Missing path: " st ++ libraries_detail st
     ++ version_detail "Missing version jar: " st)%list.

Lemma scan_required_details (st : state) :
  scan_required H st = (Ok (missing_items H st, detail_items st), st).
Proof.
  unfold scan_required. rewrite required_paths_eq.
  unfold fold_m, check_required.
  rewrite required_version_general, required_libraries_special,
    required_version_path.
  fold (libraries_dir H).
  unfold missing_items, version_report, libraries_report, detail_items,
    version_detail, libraries_detail, is_dir_at, exists_at,
    walk_at, bind, os_path_exists, os_path_isdir, os_walk, ret, push.
  destruct (located H (version_jar H) st) as [n1|] eqn:E1;
    destruct (located H (libraries_dir H) st) as [[x2 r2|es2]|] eqn:E2;
    do 3 (cbv beta iota; cbn [negb]; rewrite ?E1, ?E2);
    try reflexivity;
    destruct (walk_has_jar _);
    do 3 (cbv beta iota; cbn [negb]; rewrite ?E1, ?E2);
    reflexivity.
Qed.

Lemma for_each_logger (lvl : level) (l : list string) (st : state) :
  for_each l (fun d => logger lvl d) st
  = (Ok tt, {| fs := fs st; trace := (trace st ++ map (Log lvl) l)%list |}).
Proof.
  revert st. induction l as [|d l IH]; intros st; cbn [for_each map].
  - unfold ret. rewrite app_nil_r. now destruct st.
  - unfold bind, logger, emit. rewrite IH. cbn [fs trace].
    now rewrite <- app_assoc.
Qed.

Lemma detail_items_length (st : state) :
  List.length (detail_items st) = List.length (missing_items H st).
Proof.
  unfold detail_items, missing_items, version_detail, version_report,
    libraries_detail, libraries_report.
  destruct (exists_at H (version_jar H) st);
    destruct (is_dir_at H (libraries_dir H) st);
    try destruct (walk_has_jar _); reflexivity.
Qed.

(** What the check adds to the log. *)
Definition check_records (st : state) : list event :=
  match missing_items H st with
  | [] => []
  | _ => Log ERROR ("Missing files: " ++ repr_list H (missing_items H st))
         :: map (Log ERROR) (detail_items st)
  end.

Lemma check_required_files_run (st : state) :
  _check_required_files H st
  = (Ok (missing_items H st),
     {| fs := fs st; trace := (trace st ++ check_records st)%list |}).
Proof.
  unfold _check_required_files, check_records. unfold bind at 1.
  rewrite scan_required_details. cbv beta iota.
  destruct (missing_items H st) as [|x l].
  - unfold bind, ret. rewrite app_nil_r. now destruct st.
  - unfold bind at 1. unfold bind at 1, logger at 1, emit at 1.
    rewrite for_each_logger. cbn [fs trace ret].
    now rewrite <- app_assoc.
Qed.

(** X16.  A check that finds everything writes nothing to the log; one
    that does not writes the list and then one line per item, all as
    errors; either way the filesystem is not touched. *)
Theorem check_logs_every_item (st : state) :
  fst (_check_required_files H st) = Ok (missing_items H st)
  /\ fs (snd (_check_required_files H st)) = fs st
  /\ trace (snd (_check_required_files H st))
     = (trace st ++ check_records st)%list
  /\ List.length (check_records st)
     = match missing_items H st with
       | [] => 0
       | _ => S (List.length (missing_items H st))
       end
  /\ Forall (fun e => exists msg, e = Log ERROR msg) (check_records st).
Proof.
  rewrite check_required_files_run. cbn [fst snd fs trace].
  repeat split.
  - unfold check_records. destruct (missing_items H st) eqn:E; [reflexivity|].
    cbn [List.length]. now rewrite length_map, detail_items_length, E.
  - unfold check_records. destruct (missing_items H st); [constructor|].
    constructor; [eauto|]. apply Forall_map, Forall_forall. eauto.
Qed.

(** ** Flows that end with one [Finished] signal *)

Definition finished_event (e : event) : bool :=
  match e with Finished _ _ => true | _ => false end.

Definition unfinished (e : event) : Prop := finished_event e = false.

Lemma quiet_unfinished (e : event) : is_quiet e -> unfinished e.
Proof. unfold is_quiet, unfinished. destruct e; simpl; congruence. Qed.

(** The run ended with a [Finished] signal, the only one of its
    events. *)
Definition ends (s s' : state) : Prop :=
  exists pre ok msg,
    trace s' = (trace s ++ pre ++ [Finished ok msg])%list
    /\ Forall unfinished pre.

Lemma ends_later (a b c : state) :
  extends unfinished a b -> ends b c -> ends a c.
Proof.
  intros (n1 & E1 & F1) (pre & ok & msg & E2 & F2).
  exists (n1 ++ pre)%list, ok, msg. rewrite E2, E1, <- !app_assoc.
  split; [reflexivity|]. apply Forall_app. now split.
Qed.

(** A flow returns after exactly one [Finished] signal, its last
    event, or raises before any. *)
Definition flow (m : M unit) : Prop :=
  forall st,
    match fst (m st) with
    | Ok _ => ends st (snd (m st))
    | Raise _ => extends unfinished st (snd (m st))
    end.

(** A gate tells whether the flow goes on: [true] and no signal yet,
    or [false] after the signal. *)
Definition gate (m : M bool) : Prop :=
  forall st,
    match fst (m st) with
    | Ok false => ends st (snd (m st))
    | _ => extends unfinished st (snd (m st))
    end.

Lemma flow_emit_finished (ok : bool) (msg : string) :
  flow (emit (Finished ok msg)).
Proof.
  intros st. cbn. exists [], ok, msg. split; [reflexivity|constructor].
Qed.

Lemma flow_bind {A} (m : M A) (k : A -> M unit) :
  preserves (extends unfinished) m -> (forall a, flow (k a)) -> flow (bind m k).
Proof.
  intros Hm Hk st. unfold bind. specialize (Hm st).
  destruct (m st) as [[a|e] s1]; cbn [fst snd] in *; [|exact Hm].
  specialize (Hk a s1). destruct (fst (k a s1)).
  - now apply ends_later with (b := s1).
  - eapply so_trans; eassumption.
Qed.

Lemma flow_gate (m : M bool) (k : M unit) :
  gate m -> flow k -> flow (go_on <- m ;; if go_on then k else ret tt).
Proof.
  intros Hm Hk st. unfold bind. specialize (Hm st).
  destruct (m st) as [[[|]|e] s1]; cbn [fst snd] in *; [|exact Hm|exact Hm].
  specialize (Hk s1). destruct (fst (k s1)).
  - now apply ends_later with (b := s1).
  - eapply so_trans; eassumption.
Qed.

Lemma flow_unbound {X} (name : string) (k : X -> M unit) :
  flow (bind (read_local name None) k).
Proof. intros st. cbn. apply so_refl. Qed.

Lemma gate_ret_true : gate (ret true).
Proof. intros st. cbn. apply so_refl. Qed.

Lemma gate_stop (msg : string) :
  gate (emit (Finished false msg) ;;; ret false).
Proof.
  intros st. cbn. exists [], false, msg. split; [reflexivity|constructor].
Qed.

Lemma gate_bind {A} (m : M A) (k : A -> M bool) :
  preserves (extends unfinished) m -> (forall a, gate (k a)) -> gate (bind m k).
Proof.
  intros Hm Hk st. unfold bind. specialize (Hm st).
  destruct (m st) as [[a|e] s1]; cbn [fst snd] in *; [|exact Hm].
  specialize (Hk a s1). destruct (fst (k a s1)) as [[|]|e].
  - eapply so_trans; eassumption.
  - now apply ends_later with (b := s1).
  - eapply so_trans; eassumption.
Qed.

Lemma gate_catch (m : M bool) (h : string -> M bool) :
  preserves (extends unfinished) m -> yields (fun b => b = true) m ->
  (forall e, gate (h e)) -> gate (catch m h).
Proof.
  intros Hm Hy Hh st. unfold catch. specialize (Hm st). specialize (Hy st).
  destruct (m st) as [[b|e] s1]; cbn [fst snd] in *.
  - rewrite (Hy b eq_refl). exact Hm.
  - specialize (Hh e s1). destruct (fst (h e s1)) as [[|]|e'].
    + eapply so_trans; eassumption.
    + now apply ends_later with (b := s1).
    + eapply so_trans; eassumption.
Qed.

(** Run in the background, a flow returns after exactly one
    [Finished] signal, its last event. *)
Lemma flow_background (m : M unit) (st : state) :
  flow m ->
  fst (_background m st) = Ok tt /\ ends st (snd (_background m st)).
Proof.
  intros Hm. unfold _background, catch. specialize (Hm st).
  destruct (m st) as [[[]|e] s1]; cbn [fst snd] in *; [now split|].
  split; [reflexivity|]. apply ends_later with (b := s1); [exact Hm|].
  exists [Log ERROR "Background task exception"; Status ("Error: " ++ e)], false, e.
  split; [|repeat constructor].
  unfold bind, logger, emit. cbn [fst snd trace]. now rewrite <- !app_assoc.
Qed.

Lemma extends_of_grows (P Q : event -> Prop) {A} (m : M A) :
  (forall e, P e -> Q e) -> preserves (grows P) m -> preserves (extends Q) m.
Proof.
  intros HPQ Hm st. apply extends_weaken with (P := P); [exact HPQ|].
  exact (proj1 (Hm st)).
Qed.

Lemma extends_of_logs (P Q : event -> Prop) {A} (m : M A) :
  (forall e, P e -> Q e) -> preserves (logs P) m -> preserves (extends Q) m.
Proof.
  intros HPQ Hm st. apply extends_weaken with (P := P); [exact HPQ|].
  exact (proj1 (Hm st)).
Qed.

Lemma same_trace_preserves (P : event -> Prop) {A} (m : M A) :
  (forall st, trace (snd (m st)) = trace st) -> preserves (extends P) m.
Proof. intros Hm st. apply same_trace_extends, Hm. Qed.

Lemma same_trace_shutil_rmtree (p : string) (st : state) :
  trace (snd (shutil_rmtree H p st)) = trace st.
Proof.
  unfold shutil_rmtree. destruct p; [reflexivity|].
  now destruct (FS.rmtree _ _ _).
Qed.

Lemma same_trace_os_remove (p : string) (st : state) :
  trace (snd (os_remove H p st)) = trace st.
Proof.
  unfold os_remove. destruct p; [reflexivity|].
  now destruct (FS.unlink _ _ _).
Qed.

Ltac quiet_step :=
  match goal with
  | |- preserves (extends _) (emit _) => apply extends_emit; reflexivity
  | |- preserves (extends _) (os_makedirs _ _) =>
      apply (extends_of_grows is_quiet); [apply quiet_unfinished|];
      apply grows_os_makedirs
  | |- preserves (extends _) (open_write _ _) =>
      apply (extends_of_grows is_quiet); [apply quiet_unfinished|];
      apply grows_open_write
  | |- preserves (extends _) (file_write _ _ _) =>
      apply (extends_of_grows is_quiet); [apply quiet_unfinished|];
      apply grows_file_write
  | |- preserves (extends _) (shutil_rmtree _ _) =>
      apply same_trace_preserves, same_trace_shutil_rmtree
  | |- preserves (extends _) (os_remove _ _) =>
      apply same_trace_preserves, same_trace_os_remove
  | |- preserves (extends _) (safe_makedirs _ _) =>
      apply (extends_of_grows is_quiet); [apply quiet_unfinished|];
      apply grows_safe_makedirs
  | |- preserves (extends _) (download_file _ _ _ _ _) =>
      apply (extends_of_grows is_quiet); [apply quiet_unfinished|];
      apply grows_download_file
  | |- preserves (extends _) (extract_zip_manual _ _ _ _ _) =>
      apply (extends_of_grows is_quiet); [apply quiet_unfinished|];
      apply grows_extract_zip_manual
  | |- preserves (extends _) (_check_required_files _) =>
      apply (extends_of_logs is_quiet); [apply quiet_unfinished|];
      apply logs_check_required_files
  | |- preserves (extends _) (find_java_executable _ _) =>
      apply (extends_of_logs is_quiet); [apply quiet_unfinished|];
      apply logs_find_java_executable
  | |- preserves (extends _) (zip_infolist _ _) => unfold zip_infolist
  | |- preserves (extends _) (count_files_in_folder _ _) =>
      unfold count_files_in_folder
  | |- preserves (extends _) (count_files_in_archive _ _) =>
      unfold count_files_in_archive
  | |- preserves (extends _) (safe_remove_dir _ _) => unfold safe_remove_dir
  | |- preserves (extends _) (collect_jars _) => unfold collect_jars
  | |- preserves (extends _) (announce_jars _) => unfold announce_jars
  | _ => step
  end.

Ltac flow_step :=
  match goal with
  | |- gate (ret true) => apply gate_ret_true
  | |- gate (bind (emit (Finished false _)) (fun _ => ret false)) =>
      apply gate_stop
  | |- gate (catch _ _) => apply gate_catch; [| |intros ?]
  | |- gate (bind _ _) => apply gate_bind; [|intros ?]
  | |- gate (if ?b then _ else _) => destruct b
  | |- flow (emit (Finished _ _)) => apply flow_emit_finished
  | |- flow (bind (read_local _ None) _) => apply flow_unbound
  | |- flow (bind _ (fun go_on => if go_on then _ else ret tt)) =>
      apply flow_gate
  | |- flow (bind _ _) => apply flow_bind; [|intros ?]
  | |- flow (if ?b then _ else _) => destruct b
  | |- flow (match ?x with _ => _ end) => destruct x
  | |- yields _ (bind _ _) => apply yields_bind; intros ?
  | |- yields _ (ret _) => apply yields_ret; reflexivity
  | |- preserves _ _ => quiet_step
  end.

Ltac flow_steps := repeat flow_step.

Lemma gate_restore (missing : list string) : gate (restore H missing).
Proof. unfold restore. flow_steps. Qed.

Lemma gate_write_args (self : Launcher) (classpath : string) :
  gate (write_args H self classpath).
Proof. unfold write_args. flow_steps. Qed.

Lemma flow_find_and_launch (self : Launcher) : flow (find_and_launch H self).
Proof. unfold find_and_launch. flow_steps. Qed.

Lemma flow_assemble_and_launch (self : Launcher) :
  flow (assemble_and_launch H self).
Proof.
  unfold assemble_and_launch. flow_step; [flow_steps|].
  flow_step; [flow_steps|]. flow_step; [flow_steps|]. cbv zeta.
  apply flow_gate; [apply gate_write_args|apply flow_find_and_launch].
Qed.

Lemma flow_launch_procedure (self : Launcher) : flow (launch_procedure H self).
Proof.
  unfold launch_procedure. flow_step; [flow_steps|].
  flow_step; [flow_steps|].
  match goal with
  | |- flow (match ?m with _ => _ end) => destruct m as [|x l]
  end.
  - flow_step; [flow_steps|]. apply flow_assemble_and_launch.
  - apply flow_gate; [apply gate_restore|].
    flow_step; [flow_steps|].
    match goal with
    | |- flow (match ?m with _ => _ end) => destruct m as [|y l2]
    end.
    + apply flow_assemble_and_launch.
    + flow_steps.
Qed.

Lemma flow_verify_client : flow (verify_client H).
Proof. unfold verify_client. flow_steps. Qed.

Lemma flow_reinstall_client : flow (reinstall_client H).
Proof. unfold reinstall_client. flow_steps. Qed.

(** X17.  Each of the three background tasks of the window returns,
    whatever the host and the filesystem, and emits exactly one
    [Finished] signal, as its last event: an exception inside the task
    is turned into that signal by [_background]. *)
Theorem background_task_finishes_once (self : Launcher) (task : M unit)
        (st : state) :
  In task [launch_procedure H self; verify_client H; reinstall_client H] ->
  fst (_background task st) = Ok tt
  /\ exists pre ok msg,
      trace (snd (_background task st))
      = (trace st ++ pre ++ [Finished ok msg])%list
      /\ Forall unfinished pre.
Proof.
  intros [<-|[<-|[<-|[]]]]; apply flow_background.
  - apply flow_launch_procedure.
  - apply flow_verify_client.
  - apply flow_reinstall_client.
Qed.


(** ** What a launch leaves on disk *)

Lemma keeps_of_grows (P : event -> Prop) {A} (m : M A) :
  preserves (grows P) m -> preserves keeps_files m.
Proof. intros Hm st. exact (proj2 (Hm st)). Qed.

Lemma keeps_of_logs (P : event -> Prop) {A} (m : M A) :
  preserves (logs P) m -> preserves keeps_files m.
Proof. intros Hm st. apply same_fs_keeps_files. exact (proj2 (Hm st)). Qed.

Ltac keep_step :=
  match goal with
  | |- preserves keeps_files (emit _) => apply keeps_files_emit
  | |- preserves keeps_files (os_makedirs _ _) =>
      apply (keeps_of_grows is_quiet), grows_os_makedirs
  | |- preserves keeps_files (open_write _ _) =>
      apply (keeps_of_grows is_quiet), grows_open_write
  | |- preserves keeps_files (file_write _ _ _) =>
      apply (keeps_of_grows is_quiet), grows_file_write
  | |- preserves keeps_files (safe_makedirs _ _) =>
      apply (keeps_of_grows is_quiet), grows_safe_makedirs
  | |- preserves keeps_files (download_file _ _ _ _ _) =>
      apply (keeps_of_grows is_quiet), grows_download_file
  | |- preserves keeps_files (extract_zip_manual _ _ _ _ _) =>
      apply (keeps_of_grows is_quiet), grows_extract_zip_manual
  | |- preserves keeps_files (_check_required_files _) =>
      apply (keeps_of_logs is_quiet), logs_check_required_files
  | |- preserves keeps_files (find_java_executable _ _) =>
      apply (keeps_of_logs is_quiet), logs_find_java_executable
  | |- preserves keeps_files (collect_jars _) => unfold collect_jars
  | |- preserves keeps_files (announce_jars _) => unfold announce_jars
  | |- preserves keeps_files (restore _ _) => unfold restore
  | |- preserves keeps_files (write_args _ _ _) => unfold write_args
  | |- preserves keeps_files (find_and_launch _ _) => unfold find_and_launch
  | |- preserves keeps_files (assemble_and_launch _ _) =>
      unfold assemble_and_launch
  | _ => step
  end.

(** X18.  A launch removes nothing: whatever the restore step downloads
    and extracts and whatever stops the launch, every regular file is
    still a regular file afterwards (its content may have been
    replaced). *)
Theorem launch_removes_nothing (self : Launcher) (st : state) :
  forall p x r,
    FS.lookup (fs st) p = Some (FS.File x r) ->
    exists x' r',
      FS.lookup (fs (snd (_background (launch_procedure H self) st))) p
      = Some (FS.File x' r').
Proof.
  assert (K : preserves keeps_files (_background (launch_procedure H self))).
  { unfold _background, launch_procedure. repeat keep_step. }
  exact (K st).
Qed.

(** ** A launch of a complete installation *)

(** Every regular file but the one at [q] is as it was. *)
Definition spares (q : list string) (s s' : state) : Prop :=
  forall p x r,
    p <> q -> FS.lookup (fs s) p = Some (FS.File x r) ->
    FS.lookup (fs s') p = Some (FS.File x r).

#[export] Instance spares_order (q : list string) : StateOrder (spares q).
Proof.
  split.
  - intros s p x r _ L. exact L.
  - intros a b c H1 H2 p x r Hne L. apply H2; [exact Hne|]. now apply H1.
Qed.

(** Nothing but [args.txt] is written and no progress is reported. *)
Definition calm (s s' : state) : Prop :=
  extends no_progress s s'
  /\ spares (OsPath.components (is_windows H) (args_path H)) s s'.

#[export] Instance calm_order : StateOrder calm.
Proof.
  split.
  - intros s. split; apply so_refl.
  - intros a b c [E1 K1] [E2 K2]. split; eapply so_trans; eassumption.
Qed.

Lemma calm_emit (e : event) : no_progress e -> preserves calm (emit e).
Proof.
  intros He st. split; [now apply extends_emit|].
  intros p x r _ L. exact L.
Qed.

Lemma calm_keeps_content {A} (m : M A) :
  preserves (extends no_progress) m -> preserves keeps_content m ->
  preserves calm m.
Proof.
  intros He Hk st. split; [apply He|].
  intros p x r _ L. now apply Hk.
Qed.

Lemma calm_safe_makedirs (path : string) : preserves calm (safe_makedirs H path).
Proof.
  apply calm_keeps_content; [|apply keeps_content_safe_makedirs].
  apply (extends_of_grows is_log); [apply log_no_progress|].
  apply grows_is_log_safe_makedirs.
Qed.

Lemma spares_open_write (path : string) :
  preserves (spares (OsPath.components (is_windows H) path)) (open_write H path).
Proof.
  intros st. unfold open_write. destruct path as [|a path]; [apply so_refl|].
  destruct (creatable H _ st); [|apply so_refl].
  destruct (FS.write (fs st) _ _) as [n|e] eqn:W; [|apply so_refl].
  intros p x r Hne L. cbn [snd fs].
  exact (RemovalFacts.write_keeps_other _ _ _ _ p x r W Hne L).
Qed.

Lemma spares_file_write (path data : string) :
  preserves (spares (OsPath.components (is_windows H) path))
            (file_write H path data).
Proof.
  intros st. unfold file_write.
  destruct (FS.read (fs st) _) as [old|e]; [|apply so_refl].
  destruct (FS.write (fs st) _ _) as [n|e] eqn:W; [|apply so_refl].
  intros p x r Hne L. cbn [snd fs].
  exact (RemovalFacts.write_keeps_other _ _ _ _ p x r W Hne L).
Qed.

Lemma calm_open_write_args : preserves calm (open_write H (args_path H)).
Proof.
  intros st. split; [|apply spares_open_write].
  apply same_trace_extends.
  destruct (open_write_cases H (args_path H) st) as [[e ->]|(s1 & -> & _ & T)];
    [reflexivity|exact T].
Qed.

Lemma calm_file_write_args (data : string) :
  preserves calm (file_write H (args_path H) data).
Proof.
  intros st. split; [|apply spares_file_write].
  apply same_trace_extends. unfold file_write.
  destruct (FS.read (fs st) _) as [old|e]; [|reflexivity].
  now destruct (FS.write (fs st) _ _).
Qed.

Lemma logs_is_log_find_bundled (client_dir : string) (entries : list string) :
  preserves (logs is_log) (find_bundled H client_dir entries).
Proof.
  induction entries as [|entry rest IH]; cbn [find_bundled]; [steps|].
  destruct (_ || _); [|exact IH].
  step; [step|].
  match goal with |- preserves _ (if ?b then _ else _) => destruct b end;
    [steps|exact IH].
Qed.

Lemma logs_is_log_find_java_executable (client_dir : string) :
  preserves (logs is_log) (find_java_executable H client_dir).
Proof.
  unfold find_java_executable.
  step.
  - step; [|steps]. step; [step|].
    match goal with |- preserves _ (if ?b then _ else _) => destruct b end;
      [|steps].
    step; [step|]. apply logs_is_log_find_bundled.
  - steps.
Qed.

Lemma calm_find_java_executable (client_dir : string) :
  preserves calm (find_java_executable H client_dir).
Proof.
  intros st.
  destruct (logs_is_log_find_java_executable client_dir st) as [E F].
  split.
  - apply extends_weaken with (P := is_log); [apply log_no_progress|exact E].
  - intros p x r _ L. now rewrite F.
Qed.

Ltac calm_step :=
  match goal with
  | |- preserves calm (emit _) => apply calm_emit; reflexivity
  | |- preserves calm (safe_makedirs _ _) => apply calm_safe_makedirs
  | |- preserves calm (open_write _ (args_path _)) => apply calm_open_write_args
  | |- preserves calm (file_write _ (args_path _) _) =>
      apply calm_file_write_args
  | |- preserves calm (find_java_executable _ _) =>
      apply calm_find_java_executable
  | |- preserves calm (collect_jars _) => unfold collect_jars
  | |- preserves calm (announce_jars _) => unfold announce_jars
  | |- preserves calm (write_args _ _ _) => unfold write_args
  | |- preserves calm (find_and_launch _ _) => unfold find_and_launch
  | |- preserves calm (assemble_and_launch _ _) => unfold assemble_and_launch
  | _ => step
  end.

Lemma calm_assemble_in_background (self : Launcher) :
  preserves calm (_background (assemble_and_launch H self)).
Proof. unfold _background. repeat calm_step. Qed.

Lemma missing_items_same_fs (s s' : state) :
  fs s' = fs s -> missing_items H s' = missing_items H s.
Proof.
  intros E.
  unfold missing_items, version_report, libraries_report, exists_at, is_dir_at,
    walk_at, located.
  now rewrite E.
Qed.

(** X19.  With nothing missing, a launch restores nothing: it reports
    no progress, and on disk it leaves every regular file as it was,
    save [args.txt]. *)
Theorem complete_install_is_left_alone (self : Launcher) (st : state) :
  missing_items H st = [] ->
  (forall p x r,
      p <> OsPath.components (is_windows H) (args_path H) ->
      FS.lookup (fs st) p = Some (FS.File x r) ->
      FS.lookup (fs (snd (_background (launch_procedure H self) st))) p
      = Some (FS.File x r))
  /\ exists new,
      trace (snd (_background (launch_procedure H self) st))
      = (trace st ++ Status "Preparing launch..."
           :: Status "All required files present" :: new)%list
      /\ Forall no_progress new.
Proof.
  intros Hm.
  set (s2 := {| fs := fs st;
                trace := (trace st ++ [Status "Preparing launch...";
                                       Status "All required files present"])%list |}).
  assert (E : _background (launch_procedure H self) st
              = _background (assemble_and_launch H self) s2).
  { unfold _background, catch. rewrite launch_procedure_cases.
    rewrite check_required_files_run. unfold check_records.
    rewrite (missing_items_same_fs st) by reflexivity. rewrite Hm.
    unfold emit. cbn [fst snd fs trace].
    rewrite app_nil_r, <- app_assoc. reflexivity. }
  rewrite E.
  destruct (calm_assemble_in_background self s2) as [(new & T & F) S].
  split.
  - intros p x r Hne L. now apply S.
  - exists new. rewrite T. unfold s2. cbn [trace].
    now rewrite <- app_assoc.
Qed.

(** ** Removing the client *)

(** X21.  [safe_remove_dir] never raises.  What does not lie at or
    below the path is as it was.  When nothing is logged the path is
    gone; a failure is logged as one error and leaves what was not yet
    removed. *)
Theorem safe_remove_dir_outcome (path : string) (st : state) :
  fst (safe_remove_dir H path st) = Ok tt
  /\ (forall p x r,
        FS.lookup (fs st) p = Some (FS.File x r) ->
        (forall q, p <> (OsPath.components (is_windows H) path ++ q)%list) ->
        FS.lookup (fs (snd (safe_remove_dir H path st))) p = Some (FS.File x r))
  /\ exists new,
      trace (snd (safe_remove_dir H path st)) = (trace st ++ new)%list
      /\ (new = [] -> exists_at H path (snd (safe_remove_dir H path st)) = false)
      /\ (new = []
          \/ exists e, new = [Log ERROR ("safe_remove_dir error: " ++ e)]).
Proof.
  remember (safe_remove_dir H path st) as out eqn:Eo.
  unfold safe_remove_dir, catch, bind, os_path_exists in Eo.
  destruct (located H path st) as [n|] eqn:L.
  - assert (Hne : path <> "") by (intros ->; discriminate L).
    assert (ER : shutil_rmtree H path st
                 = let '(n, r) := FS.rmtree (is_windows H) (fs st)
                                    (OsPath.components (is_windows H) path) in
                   (r, {| fs := n; trace := trace st |})).
    { destruct path; [congruence|reflexivity]. }
    rewrite ER in Eo.
    destruct (FS.rmtree (is_windows H) (fs st) (OsPath.components (is_windows H) path))
      as [n' [[]|e]] eqn:R; subst out; cbn [fst snd fs trace logger emit].
    + split; [reflexivity|]. split.
      * intros p x r Lp Hout.
        exact (RemovalFacts.rmtree_outside _ _ _ _ _ p x r R Lp Hout).
      * exists []. split; [now rewrite app_nil_r|]. split; [|now left].
        intros _. unfold exists_at. rewrite located_eq by exact Hne. cbn [fs].
        now rewrite (RemovalFacts.rmtree_gone _ _ _ _ R).
    + split; [reflexivity|]. split.
      * intros p x r Lp Hout.
        exact (RemovalFacts.rmtree_outside _ _ _ _ _ p x r R Lp Hout).
      * eexists. split; [reflexivity|]. split; [discriminate|right; eauto].
  - subst out. cbn [fst snd ret]. split; [reflexivity|].
    split; [intros p x r Lp _; exact Lp|].
    exists []. split; [now rewrite app_nil_r|]. split; [|now left].
    intros _. unfold exists_at. now rewrite L.
Qed.


(** ** Counting the files of the archive *)

Lemma endswith_one_more (a b c : ascii) (r : string) :
  endswith (String a (String b r)) (String c EmptyString)
  = endswith (String b r) (String c EmptyString).
Proof.
  unfold endswith. cbn [String.length Nat.leb].
  replace (S (S (String.length r)) - 1) with (S (String.length r)) by lia.
  replace (S (String.length r) - 1) with (String.length r) by lia.
  reflexivity.
Qed.

Lemma endswith_single (a c : ascii) :
  endswith (String a EmptyString) (String c EmptyString) = Ascii.eqb a c.
Proof.
  unfold endswith. cbn. now destruct (Ascii.eqb a c).
Qed.

(** Replacing characters maps the last character with the others. *)
Lemma endswith_replace (x y c : ascii) (s : string) :
  endswith s (String c EmptyString) = true ->
  endswith (replace x y s) (String (if Ascii.eqb c x then y else c) EmptyString)
  = true.
Proof.
  induction s as [|a r IH]; [discriminate|].
  destruct r as [|b r].
  - rewrite endswith_single. intros E. apply Ascii.eqb_eq in E. subst a.
    cbn [replace]. rewrite endswith_single. apply Ascii.eqb_refl.
  - rewrite endswith_one_more. intros E. specialize (IH E).
    cbn [replace] in *. now rewrite endswith_one_more.
Qed.

(** A name that ends in a slash is a directory entry for the extractor
    too. *)
Lemma slash_name_is_directory_entry (member : ZipInfo) :
  endswith (filename member) "/" = true -> is_directory_entry H member = true.
Proof.
  intros E. unfold is_directory_entry, name_norm_of.
  apply (endswith_replace "/" (OsPath.sep_char (is_windows H))) in E.
  apply (endswith_replace "\" (OsPath.sep_char (is_windows H))) in E.
  rewrite Ascii.eqb_refl in E.
  unfold OsPath.sep, OsPath.sep_char in *. now destruct (is_windows H).
Qed.

Lemma filter_length_le {X Y} (f : X -> Y) (p : X -> bool) (q : Y -> bool)
      (l : list X) :
  (forall x, p x = true -> q (f x) = true) ->
  List.length (filter p l) <= List.length (filter q (map f l)).
Proof.
  intros Hpq. induction l as [|x l IH]; [reflexivity|]. cbn [filter map].
  destruct (p x) eqn:Ep.
  - rewrite (Hpq x Ep). cbn [List.length]. lia.
  - destruct (q (f x)); cbn [List.length]; lia.
Qed.

Lemma archive_count_run (zip_path : string) (st : state) :
  match fst (zip_infolist H zip_path st) with
  | Ok members =>
      count_files_in_archive H zip_path st
      = (Ok (Z.of_nat (List.length (file_names_of members))), st)
  | Raise e =>
      count_files_in_archive H zip_path st
      = (Ok 0%Z,
         {| fs := fs st;
            trace := (trace st ++ [Log ERROR ("count_files_in_archive: " ++ e)])%list |})
  end.
Proof.
  unfold count_files_in_archive, catch. unfold bind at 1 3.
  rewrite zip_infolist_run.
  now destruct (fst (zip_infolist H zip_path st)) as [members|e].
Qed.

(** X22.  [count_files_in_archive] never raises and changes nothing on
    disk.  An archive that opens is counted by the names that do not
    end in a slash, which are at least as many as the members the
    extractor writes as files; one that does not open counts as 0, with
    an error in the log. *)
Theorem archive_count_outcome (zip_path : string) (st : state) :
  match fst (zip_infolist H zip_path st) with
  | Ok members =>
      count_files_in_archive H zip_path st
      = (Ok (Z.of_nat (List.length (file_names_of members))), st)
      /\ List.length (file_members members)
         <= List.length (file_names_of members)
  | Raise e =>
      count_files_in_archive H zip_path st
      = (Ok 0%Z,
         {| fs := fs st;
            trace := (trace st ++ [Log ERROR ("count_files_in_archive: " ++ e)])%list |})
  end.
Proof.
  pose proof (archive_count_run zip_path st) as C.
  destruct (fst (zip_infolist H zip_path st)) as [members|e]; [|exact C].
  split; [exact C|].
  unfold file_members, file_names_of. apply filter_length_le.
  intros m Hm. apply negb_true_iff in Hm. apply negb_true_iff.
  destruct (endswith (filename m) "/") eqn:E; [|reflexivity].
  now rewrite (slash_name_is_directory_entry m E) in Hm.
Qed.

(** ** Verification *)

Lemma total_files_from (w : list (string * list string * list string)) :
  forall acc,
    (acc <= fold_left (fun total t => let '(_, _, files) := t in
                                      (total + Z.of_nat (List.length files))%Z)
                      w acc)%Z.
Proof.
  induction w as [|[[root dirs] files] w IH]; intros acc; cbn [fold_left]; [lia|].
  specialize (IH (acc + Z.of_nat (List.length files))%Z). lia.
Qed.

Lemma total_files_nonneg (w : list (string * list string * list string)) :
  (0 <= total_files w)%Z.
Proof. apply total_files_from. Qed.

(** The number of installed files [verify_client] compares with. *)
Definition installed_count (st : state) : Z :=
  if is_dir_at H CLIENT_DIR st then total_files (walk_at H CLIENT_DIR st) else 0%Z.

Lemma installed_count_nonneg (st : state) : (0 <= installed_count st)%Z.
Proof.
  unfold installed_count. destruct (is_dir_at _ _ _); [|lia].
  apply total_files_nonneg.
Qed.

Lemma zip_infolist_same_fs (zip_path : string) (s s' : state) :
  fs s' = fs s ->
  fst (zip_infolist H zip_path s') = fst (zip_infolist H zip_path s).
Proof.
  intros E. unfold zip_infolist, bind, file_read, lift. rewrite E.
  destruct zip_path; [reflexivity|]. now destruct (FS.read _ _).
Qed.

(** X23.  An archive that is there but cannot be read counts as 0
    files, so that verification succeeds whatever is installed. *)
Theorem unreadable_archive_verifies (e : string) (st : state) :
  exists_at H CLIENT_ZIP_PATH st = true ->
  fst (zip_infolist H CLIENT_ZIP_PATH st) = Raise e ->
  verify_client H st
  = (Ok tt,
     {| fs := fs st;
        trace := (trace st
                    ++ [Status "Verifying client...";
                        Log ERROR ("count_files_in_archive: " ++ e);
                        Status ("Archive files: " ++ str_of_Z 0
                                  ++ ", installed: "
                                  ++ str_of_Z (installed_count st));
                        Finished true "Verification OK"])%list |}).
Proof.
  intros Hx Hz.
  pose proof (installed_count_nonneg st) as G. apply Z.geb_le in G.
  unfold installed_count, is_dir_at, walk_at, exists_at in *.
  known_paths H.
  set (s0 := {| fs := fs st; trace := (trace st ++ [Status "Verifying client..."])%list |}).
  assert (C : count_files_in_archive H CLIENT_ZIP_PATH s0
              = (Ok 0%Z,
                 {| fs := fs st;
                    trace := (trace s0 ++ [Log ERROR ("count_files_in_archive: " ++ e)])%list |})).
  { pose proof (archive_count_run CLIENT_ZIP_PATH s0) as C.
    now rewrite (zip_infolist_same_fs CLIENT_ZIP_PATH st s0), Hz in C. }
  unfold verify_client.
  unfold bind at 1, emit at 1. cbv beta iota. fold s0.
  unfold bind at 1, os_path_exists at 1. known_paths H. cbn [fs s0].
  destruct (FS.lookup (fs st) (OsPath.components (is_windows H) CLIENT_ZIP_PATH))
    as [z|]; [|discriminate].
  cbv beta iota. unfold bind at 1. rewrite C. cbv beta iota.
  unfold bind at 1, os_path_isdir at 1. known_paths H. cbn [fs].
  unfold count_files_in_folder, os_walk. known_paths H.
  destruct (FS.lookup (fs st) (OsPath.components (is_windows H) CLIENT_DIR))
    as [[x r|es]|] eqn:Ld; cbv beta iota;
    unfold bind, ret, emit; cbn [fs trace]; rewrite ?Ld; cbv beta iota;
    rewrite G; cbn [fs trace s0]; now rewrite <- !app_assoc.
Qed.

(** X24.  Verification only reads: whatever it finds, the filesystem is
    as it was. *)
Theorem verify_client_only_reads (st : state) :
  fs (snd (verify_client H st)) = fs st.
Proof.
  assert (K : preserves (logs (fun _ => True)) (verify_client H)).
  { unfold verify_client, count_files_in_archive, count_files_in_folder,
      zip_infolist.
    repeat first [apply logs_emit; exact I | step]. }
  exact (proj2 (K st)).
Qed.


(** ** Reinstalling *)

(** No regular file is made or changed: the files there afterwards
    were there before, with the same content. *)
Definition nothing_added (s s' : state) : Prop :=
  forall p x r,
    FS.lookup (fs s') p = Some (FS.File x r) ->
    FS.lookup (fs s) p = Some (FS.File x r).

#[export] Instance nothing_added_order : StateOrder nothing_added.
Proof.
  split.
  - intros s p x r L. exact L.
  - intros a b c H1 H2 p x r L. now apply H1, H2.
Qed.

Lemma nothing_added_same_fs (s s' : state) : fs s' = fs s -> nothing_added s s'.
Proof. intros E p x r L. now rewrite <- E. Qed.

Lemma nothing_added_os_makedirs (p : string) :
  preserves nothing_added (os_makedirs H p).
Proof.
  intros st. unfold os_makedirs. destruct p as [|c p]; [apply so_refl|].
  destruct (FS.makedirs _ (fs st) _) as [n res] eqn:Mk.
  intros q x r L. exact (RemovalFacts.makedirs_no_new_file _ _ _ _ _ q x r Mk L).
Qed.

Lemma nothing_added_safe_makedirs (path : string) :
  preserves nothing_added (safe_makedirs H path).
Proof.
  unfold safe_makedirs.
  apply preserves_catch; [exact _| |intros e].
  - destruct (is_windows H); apply nothing_added_os_makedirs.
  - apply preserves_bind; [exact _| |intros _].
    + intros st. now apply nothing_added_same_fs.
    + apply preserves_catch; [exact _|apply nothing_added_os_makedirs|intros e2].
      intros st. now apply nothing_added_same_fs.
Qed.

(** The removal of the old archive in [reinstall_client]. *)
Lemma old_archive_removal (st : state) :
  exists st',
    catch (e <- os_path_exists H CLIENT_ZIP_PATH ;;
           if e then os_remove H CLIENT_ZIP_PATH else ret tt)
          (fun _ => ret tt) st = (Ok tt, st')
    /\ trace st' = trace st /\ nothing_added st st'.
Proof.
  unfold catch, bind, os_path_exists, os_remove, ret.
  destruct (located H CLIENT_ZIP_PATH st) as [z|];
    [|exists st; repeat split; apply so_refl].
  destruct (FS.unlink _ _ _) as [n|e] eqn:U;
    [|exists st; repeat split; apply so_refl].
  eexists. split; [reflexivity|]. split; [reflexivity|].
  intros p x r L. exact (RemovalFacts.unlink_no_new_file _ _ _ _ p x r U L).
Qed.

(** A request that raises ends the download before the destination is
    opened. *)
Lemma download_request_raises (url dest_path e : string) (st : state) :
  requests_get H url = Raise e ->
  download_file H url dest_path (Some Progress) (Some Status) st
  = (Ok false,
     {| fs := fs (snd (safe_makedirs H (OsPath.dirname (is_windows H) dest_path) st));
        trace := (trace (snd (safe_makedirs H (OsPath.dirname (is_windows H) dest_path) st))
                    ++ [Log ERROR ("download_file error: " ++ e);
                        Status ("Download failed: " ++ e)])%list |}).
Proof.
  intros Hr. unfold download_file, catch, fetch. unfold bind at 1.
  destruct (run_safe _ st (safe_safe_makedirs H (OsPath.dirname (is_windows H) dest_path)))
    as [[] E1].
  rewrite E1. unfold bind at 1, lift. rewrite Hr.
  unfold bind, logger, call, emit, ret. cbn [fst snd fs trace].
  now rewrite <- app_assoc.
Qed.

(** ** An extraction with entries that fail *)

(** The regular file at [P], if there is one, keeps its content. *)
Definition keeps_at (P : list string) (s s' : state) : Prop :=
  forall x r,
    FS.lookup (fs s) P = Some (FS.File x r) ->
    FS.lookup (fs s') P = Some (FS.File x r).

#[export] Instance keeps_at_order (P : list string) : StateOrder (keeps_at P).
Proof.
  split.
  - intros s x r L. exact L.
  - intros a b c H1 H2 x r L. apply H2, H1, L.
Qed.

Lemma keeps_at_of_spares (q P : list string) {A} (m : M A) :
  q <> P -> preserves (spares q) m -> preserves (keeps_at P) m.
Proof. intros Hne Hm st x r L. apply (Hm st); [congruence|exact L]. Qed.

Lemma keeps_at_of_content (P : list string) {A} (m : M A) :
  preserves keeps_content m -> preserves (keeps_at P) m.
Proof. intros Hm st x r L. now apply (Hm st). Qed.

Lemma keeps_at_emit (P : list string) (e : event) : preserves (keeps_at P) (emit e).
Proof. intros st x r L. exact L. Qed.

Lemma keeps_at_copy_member (P : list string) (member : ZipInfo) (path : string) :
  OsPath.components (is_windows H) path <> P ->
  preserves (keeps_at P) (copy_member H member path).
Proof.
  intros Hne. unfold copy_member.
  apply preserves_bind; [exact _| |intros _].
  { destruct (open_error member);
      [apply preserves_raise|apply preserves_ret]; exact _. }
  apply preserves_bind; [exact _| |intros _].
  { apply keeps_at_of_spares with (q := OsPath.components (is_windows H) path);
      [exact Hne|apply spares_open_write]. }
  apply preserves_bind; [exact _| |intros _].
  { apply keeps_at_of_spares with (q := OsPath.components (is_windows H) path);
      [exact Hne|apply spares_file_write]. }
  destruct (read_error member);
    [apply preserves_raise|apply preserves_ret]; exact _.
Qed.

(** A member is written to the long form of its target or to the target
    itself, nowhere else. *)
Definition written_elsewhere (target_dir : string) (P : list string)
           (member : ZipInfo) : Prop :=
  is_directory_entry H member = false ->
  OsPath.components (is_windows H)
                    (add_long_path_prefix H (target_path_of H target_dir member))
  <> P
  /\ OsPath.components (is_windows H) (target_path_of H target_dir member) <> P.

Lemma keeps_at_extract_member (target_dir : string) (total idx extracted : nat)
      (P : list string) (member : ZipInfo) :
  written_elsewhere target_dir P member ->
  preserves (keeps_at P)
            (extract_member H target_dir total (Some Progress) (Some Status)
                            idx extracted member).
Proof.
  intros Hw. unfold extract_member. cbv zeta.
  apply preserves_bind; [exact _| |intros _].
  { apply keeps_at_of_content. unfold make_parent.
    destruct (OsPath.dirname _ _);
      [apply preserves_ret; exact _|apply keeps_content_safe_makedirs]. }
  destruct (is_directory_entry H member) eqn:Hd; [apply preserves_ret; exact _|].
  destruct (Hw Hd) as [H1 H2].
  apply preserves_bind; [exact _| |intros _].
  { apply preserves_catch; [exact _|now apply keeps_at_copy_member|intros e].
    apply preserves_bind; [exact _|apply keeps_at_emit|intros _].
    apply preserves_catch; [exact _|now apply keeps_at_copy_member|intros e2].
    apply keeps_at_emit. }
  apply preserves_bind; [exact _|apply keeps_at_emit|intros _].
  apply preserves_bind; [exact _|apply keeps_at_emit|intros _].
  apply preserves_ret; exact _.
Qed.

Lemma keeps_at_extract_members (target_dir : string) (total : nat)
      (P : list string) (members : list ZipInfo) :
  (forall m, In m members -> written_elsewhere target_dir P m) ->
  forall idx extracted,
    preserves (keeps_at P)
              (extract_members H target_dir total (Some Progress) (Some Status)
                               idx extracted members).
Proof.
  induction members as [|member rest IH]; intros Hw idx extracted;
    cbn [extract_members]; [apply preserves_ret; exact _|].
  apply preserves_bind; [exact _| |intros n].
  - apply keeps_at_extract_member, Hw. now left.
  - apply IH. intros m Hm. apply Hw. now right.
Qed.

(** The loop over a list of members is the loop over its first part
    followed by the loop over the rest. *)
Lemma extract_members_app (target_dir : string) (total : nat)
      (before after : list ZipInfo) :
  forall idx extracted st,
    extract_members H target_dir total (Some Progress) (Some Status)
                    idx extracted (before ++ after) st
    = extract_members H target_dir total (Some Progress) (Some Status)
                      (idx + List.length before)
                      (extracted + List.length (file_members before)) after
                      (snd (extract_members H target_dir total (Some Progress)
                                            (Some Status) idx extracted before st)).
Proof.
  induction before as [|b before IH]; intros idx extracted st.
  - cbn. now rewrite !Nat.add_0_r.
  - cbn [app extract_members]. unfold bind.
    destruct (extract_member_events target_dir total idx extracted b st)
      as (s1 & pre & E1 & _ & _).
    rewrite E1, IH. cbn [List.length]. unfold file_members. cbn [filter].
    destruct (is_directory_entry H b); cbn [negb List.length];
      rewrite ?Nat.add_succ_r; reflexivity.
Qed.

Lemma copy_member_trace (member : ZipInfo) (path : string) (st : state) :
  trace (snd (copy_member H member path st)) = trace st.
Proof.
  destruct (copy_member_cases H member path st)
    as [(e & -> & _)|(s' & _ & -> & _ & T)]; [reflexivity|exact T].
Qed.

(** The state in which the two attempts of the member that follows
    [before] are made, and what the loop reports when it has dealt with
    that member. *)
Definition reached (target_dir : string) (total : nat) (before : list ZipInfo)
           (st : state) : state :=
  snd (extract_members H target_dir total (Some Progress) (Some Status)
                       1 0 before st).

Definition counted (total : nat) (before : list ZipInfo) : list event :=
  [Progress (percent H (Z.of_nat (S (List.length (file_members before))))
                     (Z.of_nat total));
   Status ("Extracting " ++ str_of_nat (S (List.length before)) ++ "/"
             ++ str_of_nat total)].

Definition primary_failed (member : ZipInfo) (e : string) : event :=
  Log DEBUG ("Primary extract failed for " ++ filename member ++ ": " ++ e).

Definition extract_failed (member : ZipInfo) (e : string) : event :=
  Log ERROR ("Failed to extract " ++ filename member ++ ": " ++ e).

(** Neither a member of [after] nor the marker is written to [path]. *)
Definition not_rewritten (target_dir path : string) (after : list ZipInfo)
  : Prop :=
  OsPath.components (is_windows H) (marker_path H target_dir)
  <> OsPath.components (is_windows H) path
  /\ forall m, In m after ->
               written_elsewhere target_dir
                                 (OsPath.components (is_windows H) path) m.

(** One turn of the loop for a member that is a file. *)
Lemma extract_member_turn (target_dir : string) (total idx extracted : nat)
      (member : ZipInfo) (st : state) :
  is_directory_entry H member = false ->
  exists s',
    extract_member H target_dir total (Some Progress) (Some Status)
                   idx extracted member st = (Ok (S extracted), s')
    /\ match copy_member H member
               (add_long_path_prefix H (target_path_of H target_dir member))
               (before_copy H target_dir member st) with
       | (Ok _, s2) =>
           fs s' = fs s2
           /\ trace s'
              = (trace (before_copy H target_dir member st)
                   ++ [Progress (percent H (Z.of_nat (S extracted)) (Z.of_nat total));
                       Status ("Extracting " ++ str_of_nat idx ++ "/"
                                 ++ str_of_nat total)])%list
       | (Raise e1, s2) =>
           match copy_member H member (target_path_of H target_dir member)
                             (snd (emit (primary_failed member e1) s2)) with
           | (Ok _, s3) =>
               fs s' = fs s3
               /\ trace s'
                  = (trace (before_copy H target_dir member st)
                       ++ primary_failed member e1
                       :: [Progress (percent H (Z.of_nat (S extracted))
                                             (Z.of_nat total));
                           Status ("Extracting " ++ str_of_nat idx ++ "/"
                                     ++ str_of_nat total)])%list
           | (Raise e2, s3) =>
               fs s' = fs s3
               /\ trace s'
                  = (trace (before_copy H target_dir member st)
                       ++ primary_failed member e1
                       :: extract_failed member e2
                       :: [Progress (percent H (Z.of_nat (S extracted))
                                             (Z.of_nat total));
                           Status ("Extracting " ++ str_of_nat idx ++ "/"
                                     ++ str_of_nat total)])%list
           end
       end.
Proof.
  intros Hd.
  remember (extract_member H target_dir total (Some Progress) (Some Status)
                           idx extracted member st) as out eqn:Eo.
  unfold extract_member in Eo. cbv zeta in Eo. rewrite Hd in Eo.
  unfold bind at 1 in Eo.
  destruct (run_safe _ st (safe_make_parent H (target_path_of H target_dir member)))
    as [[] E1].
  rewrite E1 in Eo. fold (before_copy H target_dir member st) in Eo.
  set (s1 := before_copy H target_dir member st) in *.
  unfold bind at 1, catch at 1 in Eo.
  pose proof (copy_member_trace member
                (add_long_path_prefix H (target_path_of H target_dir member)) s1)
    as T1.
  destruct (copy_member H member
              (add_long_path_prefix H (target_path_of H target_dir member)) s1)
    as [[[]|e1] s2]; cbn [snd] in T1.
  - subst out. unfold call, emit, bind, ret. cbn [fst snd].
    eexists. split; [reflexivity|]. cbn [fs trace]. split; [reflexivity|].
    now rewrite T1, <- app_assoc.
  - unfold bind at 1, logger at 1, emit at 1, catch at 1 in Eo.
    cbv beta iota in Eo.
    change (snd (emit (primary_failed member e1) s2))
      with {| fs := fs s2;
              trace := (trace s2 ++ [primary_failed member e1])%list |}.
    fold (primary_failed member e1) in Eo.
    set (sd := {| fs := fs s2;
                  trace := (trace s2 ++ [primary_failed member e1])%list |}) in *.
    pose proof (copy_member_trace member (target_path_of H target_dir member) sd)
      as T2.
    destruct (copy_member H member (target_path_of H target_dir member) sd)
      as [[[]|e2] s3]; cbn [snd] in T2;
      subst out; unfold logger, call, emit, bind, ret; cbn [fst snd];
      eexists; (split; [reflexivity|]); cbn [fs trace];
      (split; [reflexivity|]); rewrite T2; unfold sd; cbn [trace];
      rewrite T1, <- !app_assoc; reflexivity.
Qed.

(** The marker is written after the members and nothing else is. *)
Lemma extract_zip_manual_opened (zip_path target_dir : string)
      (members : list ZipInfo) (st : state) :
  fst (zip_infolist H zip_path st) = Ok members ->
  exists s2,
    extract_zip_manual H zip_path target_dir (Some Progress) (Some Status) st
    = (Ok true,
       {| fs := fs s2;
          trace := (trace (after_members H target_dir members st)
                      ++ [Log INFO ("Extracted archive " ++ zip_path
                                      ++ " -> " ++ target_dir)])%list |})
    /\ spares (OsPath.components (is_windows H) (marker_path H target_dir))
              (after_members H target_dir members st) s2.
Proof.
  intros Hz. unfold extract_zip_manual, catch, unpack. unfold bind at 1.
  rewrite zip_infolist_run, Hz. unfold bind at 1.
  destruct (run_safe _ st (safe_extract_members H target_dir (total_of members)
                             (Some Progress) (Some Status) members 1 0))
    as [[] E1].
  rewrite E1. fold (after_members H target_dir members st).
  set (s1 := after_members H target_dir members st).
  unfold bind at 1.
  set (mark := catch (open_write H (marker_path H target_dir) ;;;
                      file_write H (marker_path H target_dir) "ok")
                     (fun _ => ret tt)).
  assert (Sp : preserves (spares (OsPath.components (is_windows H)
                                                    (marker_path H target_dir)))
                         mark).
  { unfold mark. apply preserves_catch; [exact _| |intros e].
    - apply preserves_bind; [exact _|apply spares_open_write|intros _].
      apply spares_file_write.
    - apply preserves_ret; exact _. }
  assert (Tm : trace (snd (mark s1)) = trace s1
               /\ exists u, fst (mark s1) = Ok u).
  { unfold mark, catch, bind.
    destruct (open_write_cases H (marker_path H target_dir) s1)
      as [[e ->]|(s2 & -> & H2 & T2)]; [split; [reflexivity|now exists tt]|].
    destruct (file_write_holds H (marker_path H target_dir) "" "ok" s2 H2)
      as (s3 & -> & _ & T3).
    split; [cbn [snd]; congruence|now exists tt]. }
  destruct Tm as [Tm [u Fm]]. specialize (Sp s1).
  destruct (mark s1) as [rm sm]. cbn [fst snd] in *. subst rm.
  exists sm. unfold logger, emit, bind, ret. cbn [fst snd]. rewrite Tm.
  split; [reflexivity|exact Sp].
Qed.

(** C6.  With the archive open, the extraction returns [True] whatever
    becomes of the members, and every member that is a file has its
    turn, in the state the members before it have left: the loop makes
    the two attempts and then reports the progress and the status for
    that member.  If the attempt under the long form of the target
    succeeds nothing is logged; if only the second attempt succeeds the
    first failure is in the log as a DEBUG record; if both fail, the
    second failure follows it as an ERROR record, and the loop goes on all
    the same.  A member that was written is on disk at the end with the
    bytes of the archive, unless a later member or the marker is written
    to the same path. *)
Theorem extract_tolerates_failed_entries (zip_path target_dir : string)
        (before : list ZipInfo) (member : ZipInfo) (after : list ZipInfo)
        (st : state) :
  fst (zip_infolist H zip_path st) = Ok (before ++ member :: after)%list ->
  is_directory_entry H member = false ->
  let total := total_of (before ++ member :: after) in
  let primary := add_long_path_prefix H (target_path_of H target_dir member) in
  let fallback := target_path_of H target_dir member in
  let turn := before_copy H target_dir member (reached target_dir total before st) in
  let final := snd (extract_zip_manual H zip_path target_dir (Some Progress)
                                       (Some Status) st) in
  fst (extract_zip_manual H zip_path target_dir (Some Progress) (Some Status) st)
  = Ok true
  /\ exists later,
      match copy_member H member primary turn with
      | (Ok _, _) =>
          trace final = (trace turn ++ counted total before ++ later)%list
          /\ (not_rewritten target_dir primary after ->
              FS.read (fs final) (OsPath.components (is_windows H) primary)
              = Ok (payload member))
      | (Raise e1, s2) =>
          match copy_member H member fallback
                            (snd (emit (primary_failed member e1) s2)) with
          | (Ok _, _) =>
              trace final
              = (trace turn ++ primary_failed member e1
                   :: counted total before ++ later)%list
              /\ (not_rewritten target_dir fallback after ->
                  FS.read (fs final) (OsPath.components (is_windows H) fallback)
                  = Ok (payload member))
          | (Raise e2, _) =>
              trace final
              = (trace turn ++ primary_failed member e1
                   :: extract_failed member e2
                   :: counted total before ++ later)%list
          end
      end.
Proof.
  intros Hz Hd. cbv zeta.
  destruct (extract_zip_manual_opened zip_path target_dir _ st Hz)
    as (sm & -> & Sp).
  cbn [fst snd fs trace]. split; [reflexivity|].
  set (total := total_of (before ++ member :: after)) in *.
  unfold after_members in *. fold total in Sp |- *.
  rewrite (extract_members_app target_dir total before (member :: after) 1 0 st)
    in Sp |- *.
  fold (reached target_dir total before st) in Sp |- *.
  set (sb := reached target_dir total before st) in *.
  cbn [Nat.add extract_members] in Sp |- *. unfold bind in Sp |- *.
  destruct (extract_member_turn target_dir total (S (List.length before))
              (List.length (file_members before)) member sb Hd)
    as (s' & E & Hturn).
  rewrite E in Sp |- *.
  set (rest := extract_members H target_dir total (Some Progress) (Some Status)
                               (S (S (List.length before)))
                               (S (List.length (file_members before))) after)
    in *.
  destruct (grows_extract_members H target_dir total after
              (S (S (List.length before)))
              (S (List.length (file_members before))) s')
    as [(n & T & _) _].
  fold rest in T.
  assert (Keep : forall path x r,
             not_rewritten target_dir path after ->
             FS.lookup (fs s') (OsPath.components (is_windows H) path)
             = Some (FS.File x r) ->
             FS.read (fs sm) (OsPath.components (is_windows H) path) = Ok x).
  { intros path x r [Hm Ha] L.
    pose proof (keeps_at_extract_members target_dir total
                  (OsPath.components (is_windows H) path) after Ha
                  (S (S (List.length before)))
                  (S (List.length (file_members before))) s' x r L) as L1.
    fold rest in L1.
    unfold FS.read. now rewrite (Sp _ x r (not_eq_sym Hm) L1). }
  exists (n ++ [Log INFO ("Extracted archive " ++ zip_path ++ " -> "
                            ++ target_dir)])%list.
  unfold counted.
  destruct (copy_member_cases H member
              (add_long_path_prefix H (target_path_of H target_dir member))
              (before_copy H target_dir member sb))
    as [(e1 & C1 & _)|(s2 & _ & C1 & H2 & _)]; rewrite C1 in Hturn |- *.
  - destruct (copy_member_cases H member (target_path_of H target_dir member)
                (snd (emit (primary_failed member e1)
                           (before_copy H target_dir member sb))))
      as [(e2 & C2 & _)|(s3 & _ & C2 & H3 & _)]; rewrite C2 in Hturn |- *.
    + destruct Hturn as [_ Tt]. rewrite T, Tt, <- !app_assoc. reflexivity.
    + destruct (read_error member) as [e2|].
      * destruct Hturn as [_ Tt]. rewrite T, Tt, <- !app_assoc. reflexivity.
      * destruct Hturn as [Ft Tt]. split.
        -- rewrite T, Tt, <- !app_assoc. reflexivity.
        -- intros Hn. destruct H3 as [n0 W].
           apply (Keep _ (payload member) false Hn).
           rewrite Ft. exact (FSFacts.lookup_write _ _ _ _ W).
  - destruct (read_error member) as [e1|].
    + destruct (copy_member_cases H member (target_path_of H target_dir member)
                  (snd (emit (primary_failed member e1) s2)))
        as [(e2 & C2 & _)|(s3 & _ & C2 & H3 & _)]; rewrite C2 in Hturn |- *.
      * destruct Hturn as [_ Tt]. rewrite T, Tt, <- !app_assoc. reflexivity.
      * destruct (read_error member) as [e2|].
        -- destruct Hturn as [_ Tt]. rewrite T, Tt, <- !app_assoc. reflexivity.
        -- destruct Hturn as [Ft Tt]. split.
           ++ rewrite T, Tt, <- !app_assoc. reflexivity.
           ++ intros Hn. destruct H3 as [n0 W].
              apply (Keep _ (payload member) false Hn).
              rewrite Ft. exact (FSFacts.lookup_write _ _ _ _ W).
    + destruct Hturn as [Ft Tt]. split.
      * rewrite T, Tt, <- !app_assoc. reflexivity.
      * intros Hn. destruct H2 as [n0 W].
        apply (Keep _ (payload member) false Hn).
        rewrite Ft. exact (FSFacts.lookup_write _ _ _ _ W).
Qed.

(** ** A download that fails *)

(** Away from [q] the regular files are the same, with the same
    content. *)
Definition only_at (q : list string) (s s' : state) : Prop :=
  forall p x r,
    p <> q ->
    (FS.lookup (fs s') p = Some (FS.File x r)
     <-> FS.lookup (fs s) p = Some (FS.File x r)).

#[export] Instance only_at_order (q : list string) : StateOrder (only_at q).
Proof.
  split.
  - intros s p x r _. reflexivity.
  - intros a b c H1 H2 p x r Hne.
    rewrite (H2 p x r Hne). now apply H1.
Qed.

Lemma only_at_same_fs (q : list string) (s s' : state) :
  fs s' = fs s -> only_at q s s'.
Proof. intros E p x r _. now rewrite E. Qed.

Lemma only_at_open_write (path : string) :
  preserves (only_at (OsPath.components (is_windows H) path)) (open_write H path).
Proof.
  intros st. unfold open_write. destruct path as [|a path]; [apply so_refl|].
  destruct (creatable H _ st); [|apply so_refl].
  destruct (FS.write (fs st) _ _) as [n|e] eqn:W; [|apply so_refl].
  intros p x r Hne. cbn [snd fs]. split.
  - exact (RemovalFacts.write_no_other_new _ _ _ _ p x r W Hne).
  - exact (RemovalFacts.write_keeps_other _ _ _ _ p x r W Hne).
Qed.

Lemma only_at_file_write (path data : string) :
  preserves (only_at (OsPath.components (is_windows H) path))
            (file_write H path data).
Proof.
  intros st. unfold file_write.
  destruct (FS.read (fs st) _) as [old|e]; [|apply so_refl].
  destruct (FS.write (fs st) _ _) as [n|e] eqn:W; [|apply so_refl].
  intros p x r Hne. cbn [snd fs]. split.
  - exact (RemovalFacts.write_no_other_new _ _ _ _ p x r W Hne).
  - exact (RemovalFacts.write_keeps_other _ _ _ _ p x r W Hne).
Qed.

Lemma only_at_emit (q : list string) (e : event) : preserves (only_at q) (emit e).
Proof. intros st. now apply only_at_same_fs. Qed.

Lemma only_at_write_chunks (dest_path : string) (total : Z) (chunks : list string) :
  forall downloaded,
    preserves (only_at (OsPath.components (is_windows H) dest_path))
              (write_chunks H dest_path total (Some Progress) downloaded chunks).
Proof.
  induction chunks as [|chunk rest IH]; intros downloaded; cbn [write_chunks].
  - apply preserves_ret; exact _.
  - destruct chunk as [|a chunk]; [apply IH|].
    apply preserves_bind; [exact _|apply only_at_file_write|intros _].
    apply preserves_bind; [exact _| |intros _; apply IH].
    destruct (negb _); [apply only_at_emit|apply preserves_ret; exact _].
Qed.

(** The regular files after [safe_makedirs] are those before it. *)
Lemma same_files_safe_makedirs (path : string) (st : state) (p : list string)
      (x : string) (r : bool) :
  FS.lookup (fs (snd (safe_makedirs H path st))) p = Some (FS.File x r)
  <-> FS.lookup (fs st) p = Some (FS.File x r).
Proof.
  split.
  - apply nothing_added_safe_makedirs.
  - apply keeps_content_safe_makedirs.
Qed.

(** The header of the answer is read the same in every state. *)
Lemma content_length_total_run (r : Response) (s s' : state) :
  content_length_total r s' = (fst (content_length_total r s), s').
Proof.
  unfold content_length_total.
  destruct (content_length r) as [[|a t]|]; try reflexivity.
  now destruct (py_int _).
Qed.

(** The state in which the request is sent: the directory of the
    destination has been seen to. *)
Definition prepared (dest_path : string) (st : state) : state :=
  snd (safe_makedirs H (OsPath.dirname (is_windows H) dest_path) st).

(** [download_file] returns [False] and the run ends with the two
    records of the failure [e]; before them the log and the progress
    only. *)
Definition failure_reported (url dest_path e : string) (st : state) : Prop :=
  fst (download_file H url dest_path (Some Progress) (Some Status) st) = Ok false
  /\ exists pre,
      trace (snd (download_file H url dest_path (Some Progress) (Some Status) st))
      = (trace st ++ pre
           ++ [Log ERROR ("download_file error: " ++ e);
               Status ("Download failed: " ++ e)])%list
      /\ Forall (fun ev => log_event ev || progress_event ev = true) pre.

Lemma download_status_raises (url dest_path e : string) (r : Response)
      (st : state) :
  requests_get H url = Ok r -> status_error r = Some e ->
  download_file H url dest_path (Some Progress) (Some Status) st
  = (Ok false,
     {| fs := fs (prepared dest_path st);
        trace := (trace (prepared dest_path st)
                    ++ [Log ERROR ("download_file error: " ++ e);
                        Status ("Download failed: " ++ e)])%list |}).
Proof.
  intros Hr Hs. unfold download_file, catch, fetch, prepared. unfold bind at 1.
  destruct (run_safe _ st (safe_safe_makedirs H (OsPath.dirname (is_windows H) dest_path)))
    as [[] E1].
  rewrite E1. unfold bind at 1, lift. rewrite Hr. cbv beta iota.
  unfold bind at 1. rewrite Hs.
  unfold raise, bind, logger, call, emit, ret. cbn [fst snd fs trace].
  now rewrite <- app_assoc.
Qed.

Lemma prepared_trace (dest_path : string) (st : state) :
  exists pre, trace (prepared dest_path st) = (trace st ++ pre)%list
              /\ Forall (fun ev => log_event ev || progress_event ev = true) pre.
Proof.
  destruct (grows_is_log_safe_makedirs (OsPath.dirname (is_windows H) dest_path) st)
    as [(pre & T & F) _].
  exists pre. split; [exact T|].
  eapply Forall_impl; [|exact F]. intros ev Hev. unfold is_log in Hev.
  now rewrite Hev.
Qed.

(** What [write_chunks] reports is progress. *)
Lemma write_chunks_trace (dest_path : string) (total : Z) (chunks : list string) :
  forall downloaded st,
  exists new,
    trace (snd (write_chunks H dest_path total (Some Progress) downloaded chunks st))
    = (trace st ++ new)%list
    /\ Forall (fun ev => log_event ev || progress_event ev = true) new.
Proof.
  induction chunks as [|chunk rest IH]; intros downloaded st; cbn [write_chunks].
  - exists []. split; [now rewrite app_nil_r|constructor].
  - destruct chunk as [|a chunk]; [apply IH|].
    unfold bind at 1.
    assert (T1 : trace (snd (file_write H dest_path (String a chunk) st)) = trace st).
    { unfold file_write. destruct (FS.read _ _); [|reflexivity].
      now destruct (FS.write _ _ _). }
    destruct (file_write H dest_path (String a chunk) st) as [[[]|e] s1];
      cbn [snd] in *.
    2:{ exists []. split; [now rewrite app_nil_r, T1|constructor]. }
    unfold bind at 1.
    destruct (negb (total =? 0)%Z).
    + unfold call, emit. cbv beta iota.
      match goal with
      | |- context [write_chunks H dest_path total (Some Progress) ?d rest ?s] =>
          destruct (IH d s) as (new & T & F)
      end.
      eexists. split; [rewrite T; cbn [trace]; rewrite T1, <- app_assoc; reflexivity|].
      constructor; [reflexivity|exact F].
    + cbn [ret].
      match goal with
      | |- context [write_chunks H dest_path total (Some Progress) ?d rest ?s] =>
          destruct (IH d s) as (new & T & F)
      end.
      exists new. split; [now rewrite T, T1|exact F].
Qed.

(** C7.  When the request raises (no connection, a timeout) or the
    status of the answer is an error, [download_file] reports the
    failure through the status callback and returns [False] without
    having opened the destination: the regular files are those there
    were, with their content, a file already at the destination
    included.  When the stream breaks off, the destination having been
    opened, the failure is reported in the same way and the destination
    is left holding the chunks received, no more and no less; the other
    regular files are as they were. *)
Theorem download_failure_keeps_file (url dest_path : string) (st : state) :
  (forall e,
      requests_get H url = Raise e
      \/ (exists r, requests_get H url = Ok r /\ status_error r = Some e) ->
      failure_reported url dest_path e st
      /\ forall p x r,
          FS.lookup (fs (snd (download_file H url dest_path (Some Progress)
                                            (Some Status) st))) p
          = Some (FS.File x r)
          <-> FS.lookup (fs st) p = Some (FS.File x r))
  /\ (forall r e total,
        requests_get H url = Ok r -> status_error r = None ->
        body_error r = Some e ->
        fst (content_length_total r st) = Ok total ->
        fst (open_write H dest_path (prepared dest_path st)) = Ok tt ->
        failure_reported url dest_path e st
        /\ FS.read (fs (snd (download_file H url dest_path (Some Progress)
                                           (Some Status) st)))
                   (OsPath.components (is_windows H) dest_path)
           = Ok (concat_all (body r))
        /\ only_at (OsPath.components (is_windows H) dest_path) st
                   (snd (download_file H url dest_path (Some Progress)
                                       (Some Status) st))).
Proof.
  split.
  - intros e Hf.
    assert (E : download_file H url dest_path (Some Progress) (Some Status) st
                = (Ok false,
                   {| fs := fs (prepared dest_path st);
                      trace := (trace (prepared dest_path st)
                                  ++ [Log ERROR ("download_file error: " ++ e);
                                      Status ("Download failed: " ++ e)])%list |})).
    { destruct Hf as [Hr|(r & Hr & Hs)].
      - now apply download_request_raises.
      - now apply download_status_raises with (r := r). }
    unfold failure_reported. rewrite E. cbn [fst snd fs trace].
    destruct (prepared_trace dest_path st) as (pre & T & F).
    split.
    + split; [reflexivity|]. exists pre. split; [|exact F].
      now rewrite T, <- app_assoc.
    + intros p x r. apply same_files_safe_makedirs.
  - intros r e total Hr Hs Hb Hc Ho. unfold failure_reported.
    remember (download_file H url dest_path (Some Progress) (Some Status) st)
      as out eqn:Eo.
    unfold download_file, catch in Eo.
    remember (fetch H url dest_path (Some Progress) (Some Status) st) as f eqn:Ef.
    unfold fetch in Ef. unfold bind at 1 in Ef.
    destruct (run_safe _ st (safe_safe_makedirs H (OsPath.dirname (is_windows H) dest_path)))
      as [[] E1].
    rewrite E1 in Ef. fold (prepared dest_path st) in Ef.
    destruct (prepared_trace dest_path st) as (n1 & T1 & F1).
    set (s1 := prepared dest_path st) in *.
    unfold bind at 1, lift in Ef. rewrite Hr in Ef. cbv beta iota in Ef.
    unfold bind at 1 in Ef. rewrite Hs in Ef. cbn [ret] in Ef.
    unfold bind at 1 in Ef.
    rewrite (content_length_total_run r st s1), Hc in Ef.
    unfold bind at 1 in Ef.
    destruct (open_write_cases H dest_path s1) as [[e0 Eow]|(s2 & Eow & H2 & T2)];
      rewrite Eow in Ho; [discriminate|].
    rewrite Eow in Ef. unfold bind at 1 in Ef.
    destruct (write_chunks_holds H dest_path total (body r) 0%Z "" s2 H2)
      as (s3 & Ew & H3).
    destruct (write_chunks_trace dest_path total (body r) 0%Z s2) as (n3 & T3 & F3).
    pose proof (only_at_write_chunks dest_path total (body r) 0%Z s2) as O3.
    pose proof (only_at_open_write dest_path s1) as O2.
    rewrite Ew in Ef, T3, O3. rewrite Eow in O2. cbn [snd] in T3, O3, O2.
    unfold bind at 1 in Ef. rewrite Hb in Ef.
    subst f out.
    unfold raise, bind, logger, call, emit, ret. cbn [fst snd fs trace].
    split; [|split].
    + split; [reflexivity|]. exists (n1 ++ n3)%list. split.
      * rewrite T3, T2, T1, <- !app_assoc. reflexivity.
      * apply Forall_app. now split.
    + now apply holds_read.
    + intros p x y Hne. cbn [fs].
      rewrite (O3 p x y Hne), (O2 p x y Hne). apply same_files_safe_makedirs.
Qed.

Lemma client_dir_components : OsPath.components (is_windows H) CLIENT_DIR <> [].
Proof. destruct (is_windows H); vm_compute; discriminate. Qed.

(** X25.  When the request for the archive raises, a reinstall has
    already removed the client (none of whose files resisted): it ends
    with the signal that the download failed, and no regular file is
    left at or below the client directory. *)
Theorem failed_download_leaves_no_client (es : FS.entries_t) (e : string)
        (st : state) :
  located H CLIENT_DIR st = Some (FS.Dir es) ->
  RemovalFacts.resists (is_windows H) (FS.Dir es) = false ->
  requests_get H CLIENT_ZIP_URL = Raise e ->
  fst (reinstall_client H st) = Ok tt
  /\ (exists pre,
        trace (snd (reinstall_client H st))
        = (trace st ++ pre ++ [Finished false "Download failed"])%list)
  /\ forall q x r,
      FS.lookup (fs (snd (reinstall_client H st)))
                (OsPath.components (is_windows H) CLIENT_DIR ++ q)%list
      <> Some (FS.File x r).
Proof.
  intros Ld Hfree Hr.
  destruct (RemovalFacts.rmtree_removes (is_windows H) _ (fs st) es
              client_dir_components Ld
              (RemovalFacts.remove_node_free _ _ Hfree)) as [n' R].
  pose proof (RemovalFacts.rmtree_gone _ _ _ _ R) as Gone.
  remember (reinstall_client H st) as out eqn:Eo.
  unfold reinstall_client in Eo. unfold bind at 1, emit at 1 in Eo.
  cbv beta iota in Eo.
  set (s0 := {| fs := fs st;
                trace := (trace st ++ [Status "Reinstall: removing old client and downloading archive..."])%list |})
    in Eo.
  assert (E1 : safe_remove_dir H CLIENT_DIR s0
               = (Ok tt, {| fs := n'; trace := trace s0 |})).
  { unfold safe_remove_dir, catch, bind, os_path_exists.
    change (located H CLIENT_DIR s0) with (located H CLIENT_DIR st). rewrite Ld.
    unfold shutil_rmtree. change (fs s0) with (fs st). now rewrite R. }
  unfold bind at 1 in Eo. rewrite E1 in Eo.
  set (s1 := {| fs := n'; trace := trace s0 |}) in Eo.
  unfold bind at 1 in Eo.
  destruct (old_archive_removal s1) as (s2 & E2 & T2 & N2). rewrite E2 in Eo.
  unfold bind at 1 in Eo.
  rewrite (download_request_raises _ _ e s2 Hr) in Eo. cbn [negb] in Eo.
  set (s3 := snd (safe_makedirs H (OsPath.dirname (is_windows H) CLIENT_ZIP_PATH) s2))
    in Eo.
  pose proof (nothing_added_safe_makedirs
                (OsPath.dirname (is_windows H) CLIENT_ZIP_PATH) s2) as N3.
  pose proof (grows_safe_makedirs H
                (OsPath.dirname (is_windows H) CLIENT_ZIP_PATH) s2)
    as [(n3 & T3 & _) _].
  fold s3 in N3, T3.
  subst out. unfold emit. cbv beta iota. cbn [fst snd fs trace].
  split; [reflexivity|]. split.
  - exists ([Status "Reinstall: removing old client and downloading archive..."]
              ++ n3 ++ [Log ERROR ("download_file error: " ++ e);
                        Status ("Download failed: " ++ e)])%list.
    rewrite T3, T2. unfold s1, s0. cbn [trace].
    now rewrite <- !app_assoc.
  - intros q x r L. apply N3, N2 in L. unfold s1 in L. cbn [fs] in L.
    rewrite FSFacts.lookup_app, Gone in L. discriminate.
Qed.


(** ** A local archive that does not open *)

(** X20.  With items missing and a local archive that cannot be opened,
    a launch stops at once: the archive is not downloaded again, nothing
    on disk changes (the archive stays), and the run ends with the
    signal that the extraction from the local archive failed. *)
Theorem unopened_local_archive_stops_launch (self : Launcher) (e : string)
        (st : state) :
  missing_items H st <> [] ->
  exists_at H CLIENT_ZIP_PATH st = true ->
  fst (zip_infolist H CLIENT_ZIP_PATH st) = Raise e ->
  launch_procedure H self st
  = (Ok tt,
     {| fs := fs st;
        trace := (trace st
                    ++ Status "Preparing launch..." :: check_records st
                    ++ [Status ("Missing "
                                  ++ str_of_nat (List.length (missing_items H st))
                                  ++ " items. Trying to restore...");
                        Log ERROR ("extract_zip_manual error: " ++ e);
                        Finished false "Extraction from local archive failed"])%list |}).
Proof.
  intros Hm Hx Hz. rewrite launch_procedure_cases.
  rewrite check_required_files_run.
  assert (Ec : check_records (snd (emit (Status "Preparing launch...") st))
               = check_records st).
  { unfold check_records, detail_items, version_detail, libraries_detail.
    now rewrite (missing_items_same_fs st) by reflexivity. }
  rewrite Ec, (missing_items_same_fs st) by reflexivity.
  destruct (missing_items H st) as [|x l] eqn:Em; [congruence|].
  unfold emit. cbn [snd fs trace].
  set (s1 := {| fs := fs st; trace := _ |}).
  assert (R : restore H (x :: l) s1
              = (Ok false,
                 {| fs := fs st;
                    trace := (trace s1
                                ++ [Status ("Missing "
                                              ++ str_of_nat (List.length (x :: l))
                                              ++ " items. Trying to restore...");
                                    Log ERROR ("extract_zip_manual error: " ++ e);
                                    Finished false "Extraction from local archive failed"])%list |})).
  { unfold restore. unfold bind at 1, emit at 1. cbv beta iota.
    set (s2 := {| fs := fs s1; trace := _ |}).
    unfold bind at 1, os_path_exists at 1.
    unfold exists_at in Hx. change (located H CLIENT_ZIP_PATH s2)
      with (located H CLIENT_ZIP_PATH st).
    destruct (located H CLIENT_ZIP_PATH st); [|discriminate]. cbv beta iota.
    unfold bind at 1.
    rewrite (extract_unopened CLIENT_ZIP_PATH CLIENT_DIR _ _ e s2)
      by now rewrite (zip_infolist_same_fs CLIENT_ZIP_PATH st s2).
    unfold bind, emit, ret. cbn [negb fst snd fs trace s2 s1].
    now rewrite <- !app_assoc. }
  rewrite R. unfold s1. cbn [trace]. f_equal. f_equal.
  rewrite <- !app_assoc. reflexivity.
Qed.

End WithHost.

End EngineFacts.

(* ================================================================== *)
(** * Scenarios on a concrete host *)
(* ================================================================== *)

Module Scenarios.

Import Loader LoaderFacts PyStr.
Local Open Scope string_scope.

(** [repr] of a list of [str]. *)
Definition repr_of_list (l : list string) : string :=
  "[" ++ join ", " (map repr_str l) ++ "]".

(** A member that opens and reads to its end. *)
Definition sound (name data : string) : ZipInfo :=
  {| filename := name; open_error := None; payload := data;
     read_error := None |}.

(** The names Windows accepts for a new entry: not empty, at most 255
    characters, none of them a control character or one of the reserved
    ones, and no blank or dot at the end. *)
Definition reserved_char (c : ascii) : bool :=
  existsb (Ascii.eqb c)
          ["<"; ">"; ":"; PyStr.dquote; "/"; "\"; "|"; "?"; "*"]%char.

Definition windows_name_ok (name : string) : bool :=
  negb (String.eqb name "")
  && (String.length name <=? 255)%nat
  && forallb (fun c => (32 <=? nat_of_ascii c)%nat && negb (reserved_char c))
             (list_ascii_of_string name)
  && negb (PyStr.endswith name " ")
  && negb (PyStr.endswith name ".").

(** A Windows host: no java in the environment unless [java] names one
    on the search path; the network answers [net]; the bytes [ZIP]
    decode to [archive]; a spawned process exits with status 0. *)
Definition host (net : Result Response) (archive : list ZipInfo)
           (java : option string) : Host :=
  {| is_windows := true;
     getcwd := "C:\launcher";
     environ := fun _ => None;
     which := fun _ => java;
     requests_get := fun _ => net;
     zip_decode := fun data => if String.eqb data "ZIP" then Ok archive
                               else Raise "File is not a zip file";
     popen := fun _ => Ok {| returncode := 0; stdout := ""; stderr := "" |};
     percent := PyFloat.percent_of;
     repr_list := repr_of_list;
     name_ok := windows_name_ok |}.

Definition file (data : string) : FS.node := FS.File data false.

(** Drive [C:] with the client directory [penjs]. *)
Definition drive (client : FS.node) : FS.node :=
  FS.Dir [("C:", FS.Dir [("penjs", client)])].

(** The same with a java runtime beside it. *)
Definition drive_with_java (client : FS.node) : FS.node :=
  FS.Dir [("C:", FS.Dir [("penjs", client);
                         ("Java", FS.Dir [("bin", FS.Dir [("java.exe", file "MZ")])])])].

(** An installed client: two libraries, two guava jars, the version jar. *)
Definition installed : FS.node :=
  FS.Dir
    [("swiftdlc",
      FS.Dir
        [("game",
          FS.Dir
            [("libraries",
              FS.Dir [("asm-9.jar", file "A");
                      ("com", FS.Dir [("guava-19.0.jar", file "G19");
                                      ("notes.txt", file "")]);
                      ("guava-30.1.1.jar", file "G30")]);
             ("versions",
              FS.Dir [("1.16.5", FS.Dir [("1.16.5.jar", file "V")])])])])].

Definition start (client : FS.node) : state :=
  {| fs := drive client; trace := [] |}.

Definition start_with_java (client : FS.node) : state :=
  {| fs := drive_with_java client; trace := [] |}.

Definition player : Launcher :=
  {| username := "Player"; memory_gb := 4; java_path := None |}.

Definition offline : Result Response := Raise "404 Client Error: Not Found".

(** ** Launching with java on the search path *)

Definition with_java : Host := host offline [] (Some "C:\Java\bin\java.exe").

(** C1 fails on the code.  Everything is installed, java is found and
    the process would exit with status 0, yet the launch stops on the
    unbound local [cmd] before the spawn: the run ends with a [Finished]
    signal of failure carrying the text of the [UnboundLocalError], and
    no event of the run is a spawn or a [Finished] signal of success. *)
Theorem launch_with_java_stops_before_spawn :
  fst (_background (launch_procedure with_java player) (start_with_java installed)) = Ok tt
  /\ last (trace (snd (_background (launch_procedure with_java player)
                                   (start_with_java installed))))
          (Progress 0)
     = Finished false (unbound_local_error "cmd")
  /\ In (Log INFO "Found java in PATH: C:\Java\bin\java.exe")
        (trace (snd (_background (launch_procedure with_java player)
                                 (start_with_java installed))))
  /\ forallb never_launched
             (trace (snd (_background (launch_procedure with_java player)
                                      (start_with_java installed)))) = true.
Proof. vm_compute. repeat split. tauto. Qed.


Ltac in_list := simpl; repeat first [left; reflexivity | right].

(** ** Launching without java anywhere *)

Definition no_java : Host := host offline [] None.

(** C2 as stated fails: with everything installed and no java anywhere,
    the launch ends with the java-not-found signal, and [args.txt],
    absent before, is on disk. *)
Lemma args_written_though_java_missing :
  exists_at no_java (args_path no_java) (start installed) = false
  /\ last (trace (snd (_background (launch_procedure no_java player)
                                   (start installed))))
          (Progress 0)
     = java_not_found
  /\ In (Status "args.txt written")
        (trace (snd (_background (launch_procedure no_java player)
                                 (start installed))))
  /\ exists_at no_java (args_path no_java)
               (snd (_background (launch_procedure no_java player)
                                 (start installed))) = true.
Proof. vm_compute. repeat split. in_list. Qed.

Definition no_java_events : list event :=
  trace (snd (_background (launch_procedure no_java player) (start installed))).

Lemma java_not_found_after_args_written_witness :
  trace (snd (_background (launch_procedure no_java player) (start installed)))
  = (trace (start installed) ++ no_java_events)%list
  /\ In java_not_found no_java_events
  /\ (fst (_background (launch_procedure no_java player) (start installed)) = Ok tt
      /\ (exists pre post,
            no_java_events
            = (pre ++ Status "args.txt written" :: post ++ [java_not_found])%list
            /\ Forall is_quiet post)
      /\ (exists classpath,
            FS.read (fs (snd (_background (launch_procedure no_java player)
                                          (start installed))))
                    (OsPath.components (is_windows no_java) (args_path no_java))
            = Ok (concat_all (args_lines no_java player classpath)))
      /\ (forall cmd, ~ In (Spawn cmd) no_java_events)).
Proof.
  split; [reflexivity|]. split; [vm_compute; in_list|].
  apply (java_not_found_after_args_written no_java player (start installed)
                                           no_java_events).
  - reflexivity.
  - vm_compute. in_list.
Defined.

(** ** A local archive that lacks the required files *)

Definition readme_only : list ZipInfo :=
  [ sound "readme.txt" "hello" ].

Definition poor_archive : Host := host offline readme_only None.

Definition only_zip : FS.node := FS.Dir [("SwiftDlc.zip", file "ZIP")].

Example still_missing_after_restore :
  last_check poor_archive (start only_zip)
  = ["C:\penjs\swiftdlc\game\versions\1.16.5\1.16.5.jar";
     "C:\penjs\swiftdlc\game\libraries";
     "C:\penjs\swiftdlc\game\versions\1.16.5\1.16.5.jar"]
  /\ file_at poor_archive "C:\penjs\readme.txt"
             (snd (launch_procedure poor_archive player (start only_zip))) = true
  /\ exists_at poor_archive (args_path poor_archive)
               (snd (launch_procedure poor_archive player (start only_zip))) = false
  /\ last (trace (snd (launch_procedure poor_archive player (start only_zip))))
          (Progress 0)
     = Finished false
         (still_missing_message
            ["C:\penjs\swiftdlc\game\versions\1.16.5\1.16.5.jar";
             "C:\penjs\swiftdlc\game\libraries";
             "C:\penjs\swiftdlc\game\versions\1.16.5\1.16.5.jar"]).
Proof. vm_compute. repeat split. Qed.

Lemma launch_stops_while_missing_witness :
  last_check poor_archive (start only_zip) <> []
  /\ (fst (launch_procedure poor_archive player (start only_zip)) = Ok tt
      /\ exists new msg,
          trace (snd (launch_procedure poor_archive player (start only_zip)))
          = (trace (start only_zip) ++ new ++ [Finished false msg])%list
          /\ Forall not_plan new).
Proof.
  split; [vm_compute; discriminate|].
  apply (launch_stops_while_missing poor_archive player (start only_zip)).
  vm_compute. discriminate.
Defined.


(** ** Extracting an archive with an unwritable member *)

Definition bundle : list ZipInfo :=
  [ sound "swiftdlc/" "";
    sound "swiftdlc/game/libraries/x.jar" "X";
    sound "locked.txt" "new";
    sound "swiftdlc/game/versions/1.16.5/1.16.5.jar" "V" ].

Definition bundled : Host := host offline bundle None.

(** The archive is there and the target of [locked.txt] is read-only. *)
Definition zip_and_lock : FS.node :=
  FS.Dir [("SwiftDlc.zip", file "ZIP"); ("locked.txt", FS.File "old" true)].

Definition unpacked : Result bool * state :=
  extract_zip_manual bundled CLIENT_ZIP_PATH CLIENT_DIR (Some Progress)
                     (Some Status) (start zip_and_lock).

(** Scenario of the design document: one target is unwritable, the
    extraction succeeds, the failure is in the log and the other members
    are on disk. *)
Example extraction_with_locked_target :
  fst unpacked = Ok true
  /\ In (Log ERROR "Failed to extract locked.txt: PermissionError")
        (trace (snd unpacked))
  /\ FS.read (fs (snd unpacked)) ["C:"; "penjs"; "locked.txt"] = Ok "old"
  /\ FS.read (fs (snd unpacked))
             ["C:"; "penjs"; "swiftdlc"; "game"; "libraries"; "x.jar"] = Ok "X"
  /\ FS.read (fs (snd unpacked))
             ["C:"; "penjs"; "swiftdlc"; "game"; "versions"; "1.16.5"; "1.16.5.jar"]
     = Ok "V"
  /\ filter (fun e => match e with Status _ => true | _ => false end)
            (trace (snd unpacked))
     = [Status "Extracting 2/4"; Status "Extracting 3/4"; Status "Extracting 4/4"].
Proof. vm_compute. repeat split. in_list. Qed.

Definition locked_member : ZipInfo := sound "locked.txt" "new".

Definition version_member : ZipInfo :=
  sound "swiftdlc/game/versions/1.16.5/1.16.5.jar" "V".

Lemma extract_tolerates_failed_entries_witness :
  fst (zip_infolist bundled CLIENT_ZIP_PATH (start zip_and_lock)) = Ok bundle
  /\ is_directory_entry bundled locked_member = false
  /\ fst unpacked = Ok true
  /\ (exists later,
        trace (snd unpacked)
        = ([Progress 25; Status "Extracting 2/4";
            Log DEBUG "Primary extract failed for locked.txt: PermissionError";
            Log ERROR "Failed to extract locked.txt: PermissionError";
            Progress 50; Status "Extracting 3/4"] ++ later)%list)
  /\ FS.read (fs (snd unpacked))
             ["C:"; "penjs"; "swiftdlc"; "game"; "versions"; "1.16.5"; "1.16.5.jar"]
     = Ok "V".
Proof.
  split; [reflexivity|]. split; [reflexivity|].
  destruct (EngineFacts.extract_tolerates_failed_entries
              bundled CLIENT_ZIP_PATH CLIENT_DIR
              [sound "swiftdlc/" ""; sound "swiftdlc/game/libraries/x.jar" "X"]
              locked_member [version_member] (start zip_and_lock)
              eq_refl eq_refl) as [R [later T]].
  destruct (EngineFacts.extract_tolerates_failed_entries
              bundled CLIENT_ZIP_PATH CLIENT_DIR
              [sound "swiftdlc/" ""; sound "swiftdlc/game/libraries/x.jar" "X";
               locked_member]
              version_member [] (start zip_and_lock)
              eq_refl eq_refl) as [_ [later' T']].
  split; [exact R|]. split.
  - exists later. exact T.
  - destruct T' as [_ W]. apply W. split.
    + vm_compute. discriminate.
    + intros m [].
Defined.

(** A member whose stream is damaged: the target is opened and emptied
    before the first read, so what was there is lost at the first
    attempt, and the bytes read before the failure are what is left. *)
Definition damaged_member : ZipInfo :=
  {| filename := "notes.txt"; open_error := None; payload := "par";
     read_error := Some "Bad CRC-32 for file 'notes.txt'" |}.

Definition damaged : Host := host offline [damaged_member] None.

Example damaged_member_empties_target :
  fst (extract_zip_manual damaged CLIENT_ZIP_PATH CLIENT_DIR (Some Progress)
         (Some Status)
         (start (FS.Dir [("SwiftDlc.zip", file "ZIP"); ("notes.txt", file "old")])))
  = Ok true
  /\ FS.read
       (fs (snd (extract_zip_manual damaged CLIENT_ZIP_PATH CLIENT_DIR
                   (Some Progress) (Some Status)
                   (start (FS.Dir [("SwiftDlc.zip", file "ZIP");
                                   ("notes.txt", file "old")])))))
       ["C:"; "penjs"; "notes.txt"]
     = Ok "par"
  /\ In (Log ERROR "Failed to extract notes.txt: Bad CRC-32 for file 'notes.txt'")
        (trace (snd (extract_zip_manual damaged CLIENT_ZIP_PATH CLIENT_DIR
                       (Some Progress) (Some Status)
                       (start (FS.Dir [("SwiftDlc.zip", file "ZIP");
                                       ("notes.txt", file "old")]))))).
Proof. vm_compute. repeat split. in_list. Qed.

(** C8 as stated fails: the marker written after the last member is not
    empty, it holds the two characters ok. *)
Lemma marker_is_not_empty :
  FS.read (fs (snd unpacked)) ["C:"; "penjs"; ".extracted_ok"] = Ok "ok"
  /\ OsPath.components true (marker_path bundled CLIENT_DIR)
     = ["C:"; "penjs"; ".extracted_ok"]
  /\ FS.read (fs (snd unpacked)) ["C:"; "penjs"; ".extracted_ok"] <> Ok "".
Proof. vm_compute. repeat split. discriminate. Qed.

Lemma extraction_marker_holds_ok_witness :
  fst (zip_infolist bundled CLIENT_ZIP_PATH (start zip_and_lock)) = Ok bundle
  /\ (fst unpacked = Ok true
      /\ (FS.read (fs (snd unpacked))
                  (OsPath.components (is_windows bundled)
                                     (marker_path bundled CLIENT_DIR))
          = Ok "ok"
          \/ (fs (snd unpacked)
              = fs (after_members bundled CLIENT_DIR bundle (start zip_and_lock))
              /\ exists e,
                  fst (open_write bundled (marker_path bundled CLIENT_DIR)
                         (after_members bundled CLIENT_DIR bundle
                                        (start zip_and_lock)))
                  = Raise e))).
Proof.
  split; [reflexivity|].
  apply (extraction_marker_holds_ok bundled CLIENT_ZIP_PATH CLIENT_DIR
                                    bundle (start zip_and_lock)).
  reflexivity.
Defined.

(** ** A download that breaks off *)

Definition broken_stream : Response :=
  {| status_error := None;
     content_length := Some "8";
     body := ["PK"; ""; "data"];
     body_error := Some "Connection broken: IncompleteRead" |}.

Definition flaky : Host := host (Ok broken_stream) [] None.

Definition fetched : Result bool * state :=
  download_file flaky CLIENT_ZIP_URL CLIENT_ZIP_PATH (Some Progress)
                (Some Status) (start (FS.Dir [])).

Example download_breaks_off :
  fst fetched = Ok false
  /\ trace (snd fetched)
     = [Progress 25; Progress 75;
        Log ERROR "download_file error: Connection broken: IncompleteRead";
        Status "Download failed: Connection broken: IncompleteRead"]
  /\ FS.read (fs (snd fetched)) ["C:"; "penjs"; "SwiftDlc.zip"] = Ok "PKdata".
Proof. vm_compute. repeat split. Qed.

(** The same archive requested while the network is down, an older
    archive being on disk. *)
Definition refused : Result bool * state :=
  download_file no_java CLIENT_ZIP_URL CLIENT_ZIP_PATH (Some Progress)
                (Some Status) (start only_zip).

Lemma download_failure_keeps_file_witness :
  requests_get no_java CLIENT_ZIP_URL = Raise "404 Client Error: Not Found"
  /\ fst refused = Ok false
  /\ FS.read (fs (snd refused)) ["C:"; "penjs"; "SwiftDlc.zip"] = Ok "ZIP"
  /\ requests_get flaky CLIENT_ZIP_URL = Ok broken_stream
  /\ body_error broken_stream = Some "Connection broken: IncompleteRead"
  /\ fst fetched = Ok false
  /\ FS.read (fs (snd fetched)) ["C:"; "penjs"; "SwiftDlc.zip"] = Ok "PKdata".
Proof.
  destruct (EngineFacts.download_failure_keeps_file
              no_java CLIENT_ZIP_URL CLIENT_ZIP_PATH (start only_zip)) as [A _].
  destruct (A "404 Client Error: Not Found" (or_introl eq_refl)) as [[R _] F].
  destruct (EngineFacts.download_failure_keeps_file
              flaky CLIENT_ZIP_URL CLIENT_ZIP_PATH (start (FS.Dir []))) as [_ B].
  destruct (B broken_stream "Connection broken: IncompleteRead" 8%Z
              eq_refl eq_refl eq_refl eq_refl eq_refl) as [[R' _] [C _]].
  split; [reflexivity|]. split; [exact R|]. split.
  - unfold FS.read, refused.
    now rewrite (proj2 (F ["C:"; "penjs"; "SwiftDlc.zip"] "ZIP" false) eq_refl).
  - split; [reflexivity|]. split; [reflexivity|]. split; [exact R'|exact C].
Defined.

(** ** Collecting the jars of an installed client *)

Example installed_jars_collected :
  collected no_java (start installed)
  = ["C:\penjs\swiftdlc\game\libraries\asm-9.jar";
     "C:\penjs\swiftdlc\game\libraries\guava-30.1.1.jar";
     "C:\penjs\swiftdlc\game\libraries\com\guava-19.0.jar";
     "C:\penjs\swiftdlc\game\versions\1.16.5\1.16.5.jar";
     "C:\penjs\swiftdlc\game\libraries\asm-9.jar";
     "C:\penjs\swiftdlc\game\libraries\guava-30.1.1.jar";
     "C:\penjs\swiftdlc\game\libraries\com\guava-19.0.jar";
     "C:\penjs\swiftdlc\game\versions\1.16.5\1.16.5.jar"]
  /\ Guava._filter_guava_keep_latest (basename no_java)
       (collected no_java (start installed))
     = ["C:\penjs\swiftdlc\game\libraries\asm-9.jar";
        "C:\penjs\swiftdlc\game\versions\1.16.5\1.16.5.jar";
        "C:\penjs\swiftdlc\game\libraries\asm-9.jar";
        "C:\penjs\swiftdlc\game\versions\1.16.5\1.16.5.jar";
        "C:\penjs\swiftdlc\game\libraries\guava-30.1.1.jar"].
Proof. vm_compute. split; reflexivity. Qed.





(** ** Checking an empty client directory *)

Example nothing_installed :
  missing_items no_java (start (FS.Dir []))
  = ["C:\penjs\swiftdlc\game\versions\1.16.5\1.16.5.jar";
     "C:\penjs\swiftdlc\game\libraries";
     "C:\penjs\swiftdlc\game\versions\1.16.5\1.16.5.jar"].
Proof. reflexivity. Qed.

Lemma version_jar_reported_twice_witness :
  exists_at no_java (version_jar no_java) (start (FS.Dir [])) = false
  /\ (fst (_check_required_files no_java (start (FS.Dir [])))
      = Ok (missing_items no_java (start (FS.Dir [])))
      /\ count_occ string_dec (missing_items no_java (start (FS.Dir [])))
                   (version_jar no_java) = 2
      /\ List.length (missing_items no_java (start (FS.Dir [])))
         = S (List.length (nodup string_dec
                                 (missing_items no_java (start (FS.Dir [])))))).
Proof.
  split; [reflexivity|].
  apply (version_jar_reported_twice no_java (start (FS.Dir []))).
  reflexivity.
Defined.

End Scenarios.

(* ================================================================== *)
(** * More scenarios on a concrete host *)
(* ================================================================== *)

Module Cases.

Import Loader LoaderFacts EngineFacts PyStr Scenarios.
Local Open Scope string_scope.

(** ** Version numbers *)

Example version_of_dotted :
  ResolverFacts.dotted [30%N; 1%N; 1%N] = "30.1.1".
Proof. reflexivity. Qed.

(** ** Looking for java with [JAVA_HOME] set *)

Definition java_home_set : Host :=
  {| is_windows := true;
     getcwd := "C:\launcher";
     environ := fun k => if String.eqb k "JAVA_HOME" then Some "C:\jdk" else None;
     which := fun _ => Some "C:\Java\bin\java.exe";
     requests_get := fun _ => offline;
     zip_decode := fun _ => Raise "File is not a zip file";
     popen := fun _ => Ok {| returncode := 0; stdout := ""; stderr := "" |};
     percent := PyFloat.percent_of;
     repr_list := repr_of_list;
     name_ok := windows_name_ok |}.

(** A runtime under [JDK_HOME], none under [JAVA_HOME]. *)
Definition drive_with_jdk : state :=
  {| fs := FS.Dir [("C:", FS.Dir [("penjs", installed);
                                  ("other",
                                   FS.Dir [("bin", FS.Dir [("java.exe", file "MZ")])])])];
     trace := [] |}.

Example jdk_home_is_not_tried :
  fst (find_java_executable (with_jdk_home java_home_set (Some "C:\other"))
                            CLIENT_DIR drive_with_jdk)
  = Ok (Some "C:\Java\bin\java.exe").
Proof. reflexivity. Qed.

Lemma java_home_shadows_jdk_home_witness :
  truthy (environ java_home_set "JAVA_HOME") = true
  /\ find_java_executable (with_jdk_home java_home_set (Some "C:\other"))
                          CLIENT_DIR drive_with_jdk
     = find_java_executable java_home_set CLIENT_DIR drive_with_jdk.
Proof.
  split; [reflexivity|].
  apply (java_home_shadows_jdk_home java_home_set CLIENT_DIR (Some "C:\other")
                                    drive_with_jdk).
  reflexivity.
Defined.

(** ** A download without a length *)

Definition plain : Response :=
  {| status_error := None;
     content_length := None;
     body := ["PK"; ""; "data"];
     body_error := None |}.

Definition serving : Host := host (Ok plain) [] None.

Definition served : Result bool * state :=
  download_file serving CLIENT_ZIP_URL CLIENT_ZIP_PATH (Some Progress)
                (Some Status) (start (FS.Dir [("SwiftDlc.zip", file "old archive")])).

Example download_replaces_the_archive :
  fst served = Ok true
  /\ trace (snd served)
     = [Status "Download complete";
        Log INFO ("Downloaded: " ++ CLIENT_ZIP_URL ++ " -> " ++ CLIENT_ZIP_PATH)]
  /\ FS.read (fs (snd served)) ["C:"; "penjs"; "SwiftDlc.zip"] = Ok "PKdata".
Proof. vm_compute. repeat split. Qed.

Lemma unannounced_length_reports_no_progress_witness :
  requests_get serving CLIENT_ZIP_URL = Ok plain
  /\ In (content_length plain) [None; Some ""; Some "0"]
  /\ exists new,
      trace (snd served)
      = (trace (start (FS.Dir [("SwiftDlc.zip", file "old archive")])) ++ new)%list
      /\ Forall no_progress new.
Proof.
  split; [reflexivity|]. split; [left; reflexivity|].
  apply (unannounced_length_reports_no_progress serving CLIENT_ZIP_URL
           CLIENT_ZIP_PATH plain
           (start (FS.Dir [("SwiftDlc.zip", file "old archive")]))).
  - reflexivity.
  - left. reflexivity.
Defined.

Lemma download_true_means_complete_witness :
  fst served = Ok true
  /\ exists r,
      requests_get serving CLIENT_ZIP_URL = Ok r
      /\ status_error r = None /\ body_error r = None
      /\ FS.read (fs (snd served))
                 (OsPath.components (is_windows serving) CLIENT_ZIP_PATH)
         = Ok (concat_all (body r))
      /\ exists pre,
          trace (snd served)
          = (trace (start (FS.Dir [("SwiftDlc.zip", file "old archive")])) ++ pre
               ++ [Status "Download complete";
                   Log INFO ("Downloaded: " ++ CLIENT_ZIP_URL ++ " -> "
                               ++ CLIENT_ZIP_PATH)])%list.
Proof.
  split; [vm_compute; reflexivity|].
  apply (download_true_means_complete serving CLIENT_ZIP_URL CLIENT_ZIP_PATH
           (start (FS.Dir [("SwiftDlc.zip", file "old archive")]))).
  vm_compute. reflexivity.
Defined.

(** ** Archives that do not open *)

Definition junk_zip : FS.node := FS.Dir [("SwiftDlc.zip", file "JUNK")].

Lemma unopened_archive_extracts_nothing_witness :
  fst (zip_infolist no_java CLIENT_ZIP_PATH (start junk_zip))
  = Raise "File is not a zip file"
  /\ fst (extract_zip_manual no_java CLIENT_ZIP_PATH CLIENT_DIR (Some Progress)
                             (Some Status) (start junk_zip)) = Ok false
  /\ fs (snd (extract_zip_manual no_java CLIENT_ZIP_PATH CLIENT_DIR (Some Progress)
                                 (Some Status) (start junk_zip)))
     = fs (start junk_zip)
  /\ trace (snd (extract_zip_manual no_java CLIENT_ZIP_PATH CLIENT_DIR
                                    (Some Progress) (Some Status) (start junk_zip)))
     = (trace (start junk_zip)
          ++ [Log ERROR ("extract_zip_manual error: " ++ "File is not a zip file")])%list.
Proof.
  split; [reflexivity|].
  apply (unopened_archive_extracts_nothing no_java CLIENT_ZIP_PATH CLIENT_DIR
           (Some Progress) (Some Status) "File is not a zip file" (start junk_zip)).
  reflexivity.
Defined.

Lemma unreadable_archive_verifies_witness :
  exists_at no_java CLIENT_ZIP_PATH (start junk_zip) = true
  /\ fst (zip_infolist no_java CLIENT_ZIP_PATH (start junk_zip))
     = Raise "File is not a zip file"
  /\ verify_client no_java (start junk_zip)
     = (Ok tt,
        {| fs := fs (start junk_zip);
           trace := (trace (start junk_zip)
                       ++ [Status "Verifying client...";
                           Log ERROR ("count_files_in_archive: "
                                        ++ "File is not a zip file");
                           Status ("Archive files: " ++ str_of_Z 0
                                     ++ ", installed: "
                                     ++ str_of_Z (installed_count no_java
                                                                  (start junk_zip)));
                           Finished true "Verification OK"])%list |}).
Proof.
  split; [reflexivity|]. split; [reflexivity|].
  apply (unreadable_archive_verifies no_java "File is not a zip file"
                                     (start junk_zip)); reflexivity.
Defined.

Example junk_archive_verifies :
  trace (snd (verify_client no_java (start junk_zip)))
  = [Status "Verifying client...";
     Log ERROR "count_files_in_archive: File is not a zip file";
     Status "Archive files: 0, installed: 1";
     Finished true "Verification OK"].
Proof. reflexivity. Qed.

Lemma unopened_local_archive_stops_launch_witness :
  missing_items no_java (start junk_zip) <> []
  /\ exists_at no_java CLIENT_ZIP_PATH (start junk_zip) = true
  /\ fst (zip_infolist no_java CLIENT_ZIP_PATH (start junk_zip))
     = Raise "File is not a zip file"
  /\ launch_procedure no_java player (start junk_zip)
     = (Ok tt,
        {| fs := fs (start junk_zip);
           trace := (trace (start junk_zip)
                       ++ Status "Preparing launch..."
                       :: check_records no_java (start junk_zip)
                       ++ [Status ("Missing "
                                     ++ str_of_nat
                                          (List.length
                                             (missing_items no_java (start junk_zip)))
                                     ++ " items. Trying to restore...");
                           Log ERROR ("extract_zip_manual error: "
                                        ++ "File is not a zip file");
                           Finished false "Extraction from local archive failed"])%list |}).
Proof.
  split; [vm_compute; discriminate|]. split; [reflexivity|]. split; [reflexivity|].
  apply (unopened_local_archive_stops_launch no_java player
           "File is not a zip file" (start junk_zip)).
  - vm_compute. discriminate.
  - reflexivity.
  - reflexivity.
Defined.

(** ** Progress of an extraction *)

Example bundle_progress :
  filter progress_event (trace (snd unpacked))
  = [Progress 25; Progress 50; Progress 75].
Proof. reflexivity. Qed.

Lemma extraction_progress_counts_files_witness :
  fst (zip_infolist bundled CLIENT_ZIP_PATH (start zip_and_lock)) = Ok bundle
  /\ exists new,
      trace (snd (extract_zip_manual bundled CLIENT_ZIP_PATH CLIENT_DIR
                                     (Some Progress) (Some Status)
                                     (start zip_and_lock)))
      = (trace (start zip_and_lock) ++ new)%list
      /\ filter progress_event new
         = map (fun k => Progress (percent bundled (Z.of_nat k)
                                           (Z.of_nat (total_of bundle))))
               (seq 1 (List.length (file_members bundled bundle))).
Proof.
  split; [reflexivity|].
  apply (extraction_progress_counts_files bundled CLIENT_ZIP_PATH CLIENT_DIR
           bundle (start zip_and_lock)).
  reflexivity.
Defined.

(** ** Members that leave the target directory *)

Definition rooted_member : ZipInfo :=
  sound "/Windows/evil.txt" "x".

Definition climbing_member : ZipInfo :=
  sound "../evil.txt" "x".

Example members_outside_the_target :
  target_path_of no_java CLIENT_DIR rooted_member = "C:\Windows\evil.txt"
  /\ target_path_of no_java CLIENT_DIR climbing_member = "C:\evil.txt".
Proof. split; reflexivity. Qed.


(** ** The required-file check on the installed client *)

Lemma one_jar_anywhere_passes_witness :
  FS.lookup (fs (start installed))
            (OsPath.components (is_windows no_java) (libraries_dir no_java)
               ++ ["com"] ++ ["guava-19.0.jar"])%list
  = Some (FS.File "G19" false)
  /\ endswith "guava-19.0.jar" ".jar" = true
  /\ exists_at no_java (version_jar no_java) (start installed) = true
  /\ fst (_check_required_files no_java (start installed)) = Ok [].
Proof.
  split; [reflexivity|]. split; [reflexivity|]. split; [reflexivity|].
  apply (one_jar_anywhere_passes no_java (start installed) ["com"]
                                 "guava-19.0.jar" "G19" false); reflexivity.
Defined.

(** ** The background tasks *)

Lemma background_task_finishes_once_witness :
  In (verify_client no_java)
     [launch_procedure no_java player; verify_client no_java;
      reinstall_client no_java]
  /\ fst (_background (verify_client no_java) (start installed)) = Ok tt
  /\ exists pre ok msg,
      trace (snd (_background (verify_client no_java) (start installed)))
      = (trace (start installed) ++ pre ++ [Finished ok msg])%list
      /\ Forall unfinished pre.
Proof.
  split; [right; left; reflexivity|].
  apply (background_task_finishes_once no_java player (verify_client no_java)
                                       (start installed)).
  right. left. reflexivity.
Defined.

Definition asm_components : list string :=
  ["C:"; "penjs"; "swiftdlc"; "game"; "libraries"; "asm-9.jar"].

Lemma launch_removes_nothing_witness :
  FS.lookup (fs (start only_zip)) ["C:"; "penjs"; "SwiftDlc.zip"]
  = Some (FS.File "ZIP" false)
  /\ exists x' r',
      FS.lookup (fs (snd (_background (launch_procedure poor_archive player)
                                      (start only_zip))))
                ["C:"; "penjs"; "SwiftDlc.zip"]
      = Some (FS.File x' r').
Proof.
  split; [reflexivity|].
  apply (launch_removes_nothing poor_archive player (start only_zip)
                                ["C:"; "penjs"; "SwiftDlc.zip"] "ZIP" false).
  reflexivity.
Defined.

Lemma complete_install_is_left_alone_witness :
  missing_items no_java (start installed) = []
  /\ (forall p x r,
        p <> OsPath.components (is_windows no_java) (args_path no_java) ->
        FS.lookup (fs (start installed)) p = Some (FS.File x r) ->
        FS.lookup (fs (snd (_background (launch_procedure no_java player)
                                        (start installed)))) p
        = Some (FS.File x r))
  /\ exists new,
      trace (snd (_background (launch_procedure no_java player) (start installed)))
      = (trace (start installed) ++ Status "Preparing launch..."
           :: Status "All required files present" :: new)%list
      /\ Forall no_progress new.
Proof.
  split; [reflexivity|].
  apply (complete_install_is_left_alone no_java player (start installed)).
  reflexivity.
Defined.

(** ** A reinstall without a network *)

Definition unplugged : Host :=
  host (Raise "HTTPSConnectionPool: Max retries exceeded") [] None.

Definition installed_entries : FS.entries_t :=
  match installed with
  | FS.Dir es => es
  | FS.File _ _ => []
  end.

Example reinstall_without_network :
  FS.lookup (fs (snd (reinstall_client unplugged (start installed))))
            ["C:"; "penjs"] = Some (FS.Dir [])
  /\ last (trace (snd (reinstall_client unplugged (start installed))))
          (Progress 0)
     = Finished false "Download failed".
Proof. vm_compute. split; reflexivity. Qed.

Lemma failed_download_leaves_no_client_witness :
  located unplugged CLIENT_DIR (start installed) = Some (FS.Dir installed_entries)
  /\ RemovalFacts.resists (is_windows unplugged) (FS.Dir installed_entries) = false
  /\ requests_get unplugged CLIENT_ZIP_URL
     = Raise "HTTPSConnectionPool: Max retries exceeded"
  /\ fst (reinstall_client unplugged (start installed)) = Ok tt
  /\ (exists pre,
        trace (snd (reinstall_client unplugged (start installed)))
        = (trace (start installed) ++ pre
             ++ [Finished false "Download failed"])%list)
  /\ forall q x r,
      FS.lookup (fs (snd (reinstall_client unplugged (start installed))))
                (OsPath.components (is_windows unplugged) CLIENT_DIR ++ q)%list
      <> Some (FS.File x r).
Proof.
  split; [reflexivity|]. split; [reflexivity|]. split; [reflexivity|].
  apply (failed_download_leaves_no_client unplugged installed_entries
           "HTTPSConnectionPool: Max retries exceeded" (start installed));
    reflexivity.
Defined.

(** A read-only file stops the removal on Windows: what came before it
    is gone, the rest stays, and the reinstall goes on over it. *)
Definition half_locked : FS.node :=
  FS.Dir [("a.txt", file "a"); ("locked.txt", FS.File "l" true);
          ("z.txt", file "z")].

Example removal_stops_at_read_only_file :
  snd (safe_remove_dir unplugged CLIENT_DIR (start half_locked))
  = {| fs := drive (FS.Dir [("locked.txt", FS.File "l" true); ("z.txt", file "z")]);
       trace := [Log ERROR "safe_remove_dir error: PermissionError"] |}.
Proof. reflexivity. Qed.

End Cases.
